(** * MiSub subscription aggregation: a shallow embedding of
    [functions/[[path]].js] and the properties of its aggregation core,
    of the request handling around it and of the session tokens.

    The development follows the source file: JavaScript strings are lists
    of UTF-16 code units, exceptions are an explicit result type with a
    [try]/[catch] combinator, and the platform built-ins the source calls
    ([atob], [btoa], [encodeURIComponent], [decodeURIComponent],
    [unescape], [TextDecoder]) are written out from their standards.
    [JSON], [RegExp], [fetch] and the HMAC of [crypto.subtle] are
    interfaces of the platform, given as type classes. *)

From Stdlib Require Import ZArith List Bool Lia Ascii ZifyNat.
From Stdlib Require DecimalPos DecimalZ.
From Stdlib Require String.
Import String.StringSyntax.
Delimit Scope string_scope with string.
Import ListNotations.

(** [lia] also decides goals with division and remainder by constants. *)
Ltac Zify.zify_post_hook ::= Z.to_euclidean_division_equations.

(** Case analysis on the first test of the goal. *)
Ltac case_if :=
  match goal with
  | |- context [if ?c then _ else _] => destruct c eqn:?
  end.

(** ** Exceptions *)

Inductive exn : Type :=
| URIError
| InvalidCharacterError
| SyntaxError
| TypeError
| FetchError.

Inductive result (A : Type) : Type :=
| Ok (a : A)
| Throw (e : exn).

Arguments Ok {A} a.
Arguments Throw {A} e.

Definition bind {A B} (m : result A) (k : A -> result B) : result B :=
  match m with
  | Ok a => k a
  | Throw e => Throw e
  end.

(** [try { m } catch (e) { h e }] *)
Definition try_catch {A} (m : result A) (h : exn -> result A) : result A :=
  match m with
  | Ok a => Ok a
  | Throw e => h e
  end.

Declare Scope js_scope.
Delimit Scope js_scope with js.
Notation "x <- m ;; k" := (bind m (fun x => k))
  (at level 61, m at next level, right associativity) : js_scope.
Local Open Scope js_scope.

Fixpoint mapM {A B} (f : A -> result B) (l : list A) : result (list B) :=
  match l with
  | [] => Ok []
  | a :: t => b <- f a ;; r <- mapM f t ;; Ok (b :: r)
  end.

(** ** JavaScript strings: sequences of UTF-16 code units *)

Module JSString.

Local Open Scope Z_scope.

Abbreviation code_unit := Z.
Abbreviation jsstring := (list Z).

(** An ASCII literal of the source as a JavaScript string. *)
Definition lit (s : String.string) : jsstring :=
  map (fun a => Z.of_nat (nat_of_ascii a)) (String.list_ascii_of_string s).

Arguments lit s%_string.

Definition str_eqb (a b : jsstring) : bool :=
  if list_eq_dec Z.eq_dec a b then true else false.

(** Truthiness of a string: [!!s]. *)
Definition truthy (s : jsstring) : bool :=
  match s with [] => false | _ :: _ => true end.

(** [s.startsWith(p)] *)
Fixpoint startsWith (p s : jsstring) : bool :=
  match p, s with
  | [], _ => true
  | _ :: _, [] => false
  | a :: p', b :: s' => (a =? b) && startsWith p' s'
  end.

(** [s.substring(n)] and [s.substring(0, n)], for [n] a non-negative
    index (both clamp at the length). *)
Definition substring_from (n : nat) (s : jsstring) : jsstring := skipn n s.
Definition substring_to (n : nat) (s : jsstring) : jsstring := firstn n s.

(** [s.lastIndexOf(c)] for a one-unit needle; [None] stands for [-1]. *)
Fixpoint lastIndexOf (c : code_unit) (s : jsstring) : option nat :=
  match s with
  | [] => None
  | x :: t =>
      match lastIndexOf c t with
      | Some i => Some (S i)
      | None => if x =? c then Some O else None
      end
  end.

(** WhiteSpace and LineTerminator code units: what [trim] strips and what
    the class [\s] matches. *)
Definition is_line_terminator (c : code_unit) : bool :=
  (c =? 10) || (c =? 13) || (c =? 8232) || (c =? 8233).

Definition is_space (c : code_unit) : bool :=
  (c =? 9) || (c =? 10) || (c =? 11) || (c =? 12) || (c =? 13) || (c =? 32)
  || (c =? 160) || (c =? 5760) || ((8192 <=? c) && (c <=? 8202))
  || (c =? 8232) || (c =? 8233) || (c =? 8239) || (c =? 8287)
  || (c =? 12288) || (c =? 65279).

Fixpoint trimStart (s : jsstring) : jsstring :=
  match s with
  | c :: t => if is_space c then trimStart t else s
  | [] => []
  end.

Definition trimEnd (s : jsstring) : jsstring := rev (trimStart (rev s)).

(** [s.trim()] *)
Definition trim (s : jsstring) : jsstring := trimEnd (trimStart s).

(** [s.split(c)] for a one-unit separator: never the empty array. *)
Fixpoint split (sep : code_unit) (s : jsstring) : list jsstring :=
  match s with
  | [] => [[]]
  | c :: t =>
      if c =? sep then [] :: split sep t
      else match split sep t with
           | h :: r => (c :: h) :: r
           | [] => [[c]]
           end
  end.

(** [a.join(c)] *)
Fixpoint join (sep : code_unit) (l : list jsstring) : jsstring :=
  match l with
  | [] => []
  | [x] => x
  | x :: r => x ++ sep :: join sep r
  end.

(** [s.replace(/\s/g, '')] *)
Definition remove_spaces (s : jsstring) : jsstring :=
  filter (fun c => negb (is_space c)) s.

(** [s.replace(/\r\n/g, '\n')] *)
Fixpoint crlf_to_lf (s : jsstring) : jsstring :=
  match s with
  | [] => []
  | c :: t =>
      match t with
      | d :: t' => if (c =? 13) && (d =? 10) then 10 :: crlf_to_lf t'
                   else c :: crlf_to_lf t
      | [] => [c]
      end
  end.

(** [s.toLowerCase()].  The mapping is exact on every code unit whose
    lower-case form contains an ASCII character (A-Z, U+0130 and the
    Kelvin sign U+212A); the other units are left as they are.  The source
    only compares lower-cased text with ASCII literals and ASCII scheme
    names, so the remaining units never decide a comparison. *)
Definition lower_unit (c : code_unit) : jsstring :=
  if (65 <=? c) && (c <=? 90) then [c + 32]
  else if c =? 304 then [105; 775]
  else if c =? 8490 then [107]
  else [c].

Definition toLowerCase (s : jsstring) : jsstring := flat_map lower_unit s.

End JSString.
Import JSString.

(** ** Base64: [atob] and [btoa] (WHATWG forgiving-base64) *)

Module Base64.

Local Open Scope Z_scope.

Definition b64_index (c : code_unit) : option Z :=
  if (65 <=? c) && (c <=? 90) then Some (c - 65)
  else if (97 <=? c) && (c <=? 122) then Some (c - 71)
  else if (48 <=? c) && (c <=? 57) then Some (c + 4)
  else if c =? 43 then Some 62
  else if c =? 47 then Some 63
  else None.

Definition b64_char (i : Z) : code_unit :=
  if i <? 26 then i + 65
  else if i <? 52 then i + 71
  else if i <? 62 then i - 4
  else if i =? 62 then 43
  else 47.

Definition is_ascii_whitespace (c : code_unit) : bool :=
  (c =? 9) || (c =? 10) || (c =? 12) || (c =? 13) || (c =? 32).

(** Step 2 of forgiving-base64 decode: when the length is a multiple of
    four, one or two trailing [=] are removed. *)
Definition strip_padding (s : jsstring) : jsstring :=
  if (Nat.modulo (length s) 4 =? 0)%nat then
    match rev s with
    | x :: y :: r =>
        if x =? 61 then (if y =? 61 then rev r else rev (y :: r)) else s
    | [x] => if x =? 61 then [] else s
    | [] => s
    end
  else s.

Fixpoint sextets (s : jsstring) : option (list Z) :=
  match s with
  | [] => Some []
  | c :: t =>
      match b64_index c, sextets t with
      | Some i, Some r => Some (i :: r)
      | _, _ => None
      end
  end.

(** Four sextets give three bytes; a tail of three gives two bytes and a
    tail of two gives one, the left-over bits being discarded. *)
Fixpoint decode_sextets (l : list Z) : list Z :=
  match l with
  | a :: b :: c :: d :: t =>
      let n := ((a * 64 + b) * 64 + c) * 64 + d in
      (n / 65536) :: (n / 256 mod 256) :: (n mod 256) :: decode_sextets t
  | [a; b; c] =>
      let n := ((a * 64 + b) * 64 + c) / 4 in
      [n / 256; n mod 256]
  | [a; b] => [(a * 64 + b) / 16]
  | _ => []
  end.

(** [atob(data)]: the binary string, or an InvalidCharacterError. *)
Definition atob (data : jsstring) : result jsstring :=
  let d := strip_padding (filter (fun c => negb (is_ascii_whitespace c)) data) in
  if (Nat.modulo (length d) 4 =? 1)%nat then Throw InvalidCharacterError
  else match sextets d with
       | Some l => Ok (decode_sextets l)
       | None => Throw InvalidCharacterError
       end.

Definition is_byte (c : Z) : bool := (0 <=? c) && (c <=? 255).

Fixpoint sextets_of_bytes (l : list Z) : list Z :=
  match l with
  | a :: b :: c :: t =>
      let n := (a * 256 + b) * 256 + c in
      (n / 262144) :: (n / 4096 mod 64) :: (n / 64 mod 64) :: (n mod 64)
        :: sextets_of_bytes t
  | [a; b] =>
      let n := (a * 256 + b) * 4 in
      [n / 4096; n / 64 mod 64; n mod 64]
  | [a] => [(a * 16) / 64; (a * 16) mod 64]
  | [] => []
  end.

Definition padding (n : nat) : jsstring :=
  match Nat.modulo n 3 with
  | 1%nat => [61; 61]
  | 2%nat => [61]
  | _ => []
  end.

(** [btoa(s)]: an InvalidCharacterError when a code unit exceeds 255. *)
Definition btoa (s : jsstring) : result jsstring :=
  if forallb is_byte s
  then Ok (map b64_char (sextets_of_bytes s) ++ padding (length s))
  else Throw InvalidCharacterError.

End Base64.
Import Base64.

(** ** UTF-8, percent-encoding and [TextDecoder] *)

Module URI.

Local Open Scope Z_scope.

Definition is_alnum (c : code_unit) : bool :=
  ((65 <=? c) && (c <=? 90)) || ((97 <=? c) && (c <=? 122))
  || ((48 <=? c) && (c <=? 57)).

(** The characters [encodeURIComponent] leaves alone:
    letters, digits and [-_.!~*'()]. *)
Definition is_unreserved (c : code_unit) : bool :=
  is_alnum c || (c =? 45) || (c =? 95) || (c =? 46) || (c =? 33)
  || (c =? 126) || (c =? 42) || (c =? 39) || (c =? 40) || (c =? 41).

Definition is_high_surrogate (c : code_unit) : bool :=
  (55296 <=? c) && (c <=? 56319).
Definition is_low_surrogate (c : code_unit) : bool :=
  (56320 <=? c) && (c <=? 57343).

Definition utf8_octets (cp : Z) : list Z :=
  if cp <? 128 then [cp]
  else if cp <? 2048 then [192 + cp / 64; 128 + cp mod 64]
  else if cp <? 65536 then
    [224 + cp / 4096; 128 + cp / 64 mod 64; 128 + cp mod 64]
  else
    [240 + cp / 262144; 128 + cp / 4096 mod 64; 128 + cp / 64 mod 64;
     128 + cp mod 64].

Definition utf16_units (cp : Z) : jsstring :=
  if cp <? 65536 then [cp]
  else [55296 + (cp - 65536) / 1024; 56320 + (cp - 65536) mod 1024].

Definition hex_digit (n : Z) : code_unit :=
  if n <? 10 then 48 + n else 55 + n.

Definition hex_value (c : code_unit) : option Z :=
  if (48 <=? c) && (c <=? 57) then Some (c - 48)
  else if (65 <=? c) && (c <=? 70) then Some (c - 55)
  else if (97 <=? c) && (c <=? 102) then Some (c - 87)
  else None.

(** ["%XX"] for one octet, upper-case digits. *)
Definition percent (b : Z) : jsstring :=
  [37; hex_digit (b / 16); hex_digit (b mod 16)].

Definition escape_octets (l : list Z) : jsstring := flat_map percent l.

(** [encodeURIComponent(s)] (ECMA-262 Encode): a URIError on an unpaired
    surrogate.  A value outside the 16-bit range is not a code unit and is
    refused in the same way. *)
Fixpoint encodeURIComponent (s : jsstring) : result jsstring :=
  match s with
  | [] => Ok []
  | c :: t =>
      if is_unreserved c then
        r <- encodeURIComponent t ;; Ok (c :: r)
      else if is_low_surrogate c then Throw URIError
      else if is_high_surrogate c then
        match t with
        | d :: t' =>
            if is_low_surrogate d then
              r <- encodeURIComponent t' ;;
              Ok (escape_octets
                    (utf8_octets ((c - 55296) * 1024 + (d - 56320) + 65536))
                  ++ r)
            else Throw URIError
        | [] => Throw URIError
        end
      else if (0 <=? c) && (c <? 65536) then
        r <- encodeURIComponent t ;; Ok (escape_octets (utf8_octets c) ++ r)
      else Throw URIError
  end.

(** [decodeURIComponent(s)] (ECMA-262 Decode with an empty preserved set).
    The text is first cut into literal units and escaped octets: every
    [%] must be followed by two hexadecimal digits. *)
Inductive token : Type :=
| Lit (c : code_unit)
| Oct (b : Z).

Fixpoint tokenize (s : jsstring) : result (list token) :=
  match s with
  | [] => Ok []
  | c :: t =>
      if c =? 37 then
        match t with
        | h :: l :: t' =>
            match hex_value h, hex_value l with
            | Some a, Some b => r <- tokenize t' ;; Ok (Oct (a * 16 + b) :: r)
            | _, _ => Throw URIError
            end
        | _ => Throw URIError
        end
      else r <- tokenize t ;; Ok (Lit c :: r)
  end.

Definition is_continuation (b : Z) : bool := (128 <=? b) && (b <=? 191).

(** An escaped octet below 0x80 is that character; a lead octet must be
    followed by its escaped continuation octets and the sequence must be
    the UTF-8 encoding of a Unicode scalar value (no overlong form, no
    surrogate, at most U+10FFFF). *)
Fixpoint decode_tokens (l : list token) : result jsstring :=
  match l with
  | [] => Ok []
  | Lit c :: t => r <- decode_tokens t ;; Ok (c :: r)
  | Oct b :: t =>
      if b <? 128 then r <- decode_tokens t ;; Ok (b :: r)
      else if (192 <=? b) && (b <=? 223) then
        match t with
        | Oct b2 :: t' =>
            let cp := (b - 192) * 64 + (b2 - 128) in
            if is_continuation b2 && (128 <=? cp) then
              r <- decode_tokens t' ;; Ok (utf16_units cp ++ r)
            else Throw URIError
        | _ => Throw URIError
        end
      else if (224 <=? b) && (b <=? 239) then
        match t with
        | Oct b2 :: Oct b3 :: t' =>
            let cp := (b - 224) * 4096 + (b2 - 128) * 64 + (b3 - 128) in
            if is_continuation b2 && is_continuation b3 && (2048 <=? cp)
               && negb ((55296 <=? cp) && (cp <=? 57343)) then
              r <- decode_tokens t' ;; Ok (utf16_units cp ++ r)
            else Throw URIError
        | _ => Throw URIError
        end
      else if (240 <=? b) && (b <=? 247) then
        match t with
        | Oct b2 :: Oct b3 :: Oct b4 :: t' =>
            let cp := (b - 240) * 262144 + (b2 - 128) * 4096
                      + (b3 - 128) * 64 + (b4 - 128) in
            if is_continuation b2 && is_continuation b3 && is_continuation b4
               && (65536 <=? cp) && (cp <=? 1114111) then
              r <- decode_tokens t' ;; Ok (utf16_units cp ++ r)
            else Throw URIError
        | _ => Throw URIError
        end
      else Throw URIError
  end.

Definition decodeURIComponent (s : jsstring) : result jsstring :=
  toks <- tokenize s ;; decode_tokens toks.

Definition hex2 (a b : code_unit) : option Z :=
  match hex_value a, hex_value b with
  | Some x, Some y => Some (x * 16 + y)
  | _, _ => None
  end.

Definition hex4 (a b c d : code_unit) : option Z :=
  match hex2 a b, hex2 c d with
  | Some x, Some y => Some (x * 256 + y)
  | _, _ => None
  end.

(** [unescape(s)] (ECMA-262 B.2.1.2): [%XX] and [%uXXXX] become the code
    unit they name, everything else is copied; never throws. *)
Fixpoint unescape (s : jsstring) : jsstring :=
  match s with
  | [] => []
  | c :: t =>
      if c =? 37 then
        match t with
        | a :: b :: t2 =>
            match hex2 a b with
            | Some v => v :: unescape t2
            | None =>
                match t2 with
                | c2 :: d :: e :: t5 =>
                    match (if a =? 117 then hex4 b c2 d e else None) with
                    | Some v => v :: unescape t5
                    | None => c :: unescape t
                    end
                | _ => c :: unescape t
                end
            end
        | _ => c :: unescape t
        end
      else c :: unescape t
  end.

(** The WHATWG UTF-8 decoder in replacement mode, as used by
    [new TextDecoder('utf-8').decode(bytes)]: the state is either the
    initial one or a pending sequence (code point so far, octets still
    needed, bounds for the next octet). *)
Inductive dstate : Type :=
| Start
| Pending (cp needed lower upper : Z).

Definition lead_octet (b : Z) : list Z * dstate :=
  if b <=? 127 then ([b], Start)
  else if (194 <=? b) && (b <=? 223) then ([], Pending (b mod 32) 1 128 191)
  else if (224 <=? b) && (b <=? 239) then
    ([], Pending (b mod 16) 2 (if b =? 224 then 160 else 128)
                 (if b =? 237 then 159 else 191))
  else if (240 <=? b) && (b <=? 244) then
    ([], Pending (b mod 8) 3 (if b =? 240 then 144 else 128)
                 (if b =? 244 then 143 else 191))
  else ([65533], Start).

Fixpoint utf8_decode (st : dstate) (bytes : list Z) : list Z :=
  match bytes with
  | [] => match st with Start => [] | Pending _ _ _ _ => [65533] end
  | b :: t =>
      match st with
      | Start => fst (lead_octet b) ++ utf8_decode (snd (lead_octet b)) t
      | Pending cp needed lower upper =>
          if (lower <=? b) && (b <=? upper) then
            let cp' := cp * 64 + b mod 64 in
            if needed =? 1 then cp' :: utf8_decode Start t
            else utf8_decode (Pending cp' (needed - 1) 128 191) t
          else
            65533 :: fst (lead_octet b) ++ utf8_decode (snd (lead_octet b)) t
      end
  end.

(** A leading U+FEFF is dropped ([ignoreBOM] is false by default). *)
Definition strip_bom (cps : list Z) : list Z :=
  match cps with
  | c :: t => if c =? 65279 then t else cps
  | [] => []
  end.

Definition TextDecoder_decode (bytes : list Z) : jsstring :=
  flat_map utf16_units (strip_bom (utf8_decode Start bytes)).

End URI.
Import URI.

(** ** Values of [JSON.parse]

    Numbers are kept abstract (they are IEEE doubles); an object is the
    list of its own properties in insertion order. *)

Unset Elimination Schemes.
Inductive JSON (num : Type) : Type :=
| JNull
| JBool (b : bool)
| JNumber (n : num)
| JString (s : jsstring)
| JArray (l : list (JSON num))
| JObject (props : list (jsstring * JSON num)).
Set Elimination Schemes.

Arguments JNull {num}.
Arguments JBool {num} b.
Arguments JNumber {num} n.
Arguments JString {num} s.
Arguments JArray {num} l.
Arguments JObject {num} props.

Module Props.

Section Props.
Variable V : Type.

Fixpoint lookup (k : jsstring) (props : list (jsstring * V)) : option V :=
  match props with
  | [] => None
  | (k', v) :: t => if str_eqb k k' then Some v else lookup k t
  end.

(** Assignment to a property: an existing key keeps its place, a new key
    goes last. *)
Fixpoint assign (k : jsstring) (v : V) (props : list (jsstring * V))
  : list (jsstring * V) :=
  match props with
  | [] => [(k, v)]
  | (k', v') :: t =>
      if str_eqb k k' then (k', v) :: t else (k', v') :: assign k v t
  end.

End Props.

Arguments lookup {V} k props.
Arguments assign {V} k v props.

End Props.

(** ** Outcome of one subscription request *)

Inductive FetchOutcome : Type :=
| Failed                                  (* time-out or transport error *)
| Response (ok : bool) (text : jsstring).

(** ** Records read from the store *)

Record Sub : Type := {
  sub_id : jsstring;
  sub_url : jsstring;
  sub_name : jsstring;         (* [''] when absent *)
  sub_enabled : bool;
  sub_exclude : jsstring       (* [''] when absent *)
}.

Record Profile : Type := {
  profile_id : jsstring;
  profile_customId : jsstring; (* [''] when absent *)
  profile_name : jsstring;
  profile_enabled : bool;
  profile_subscriptions : list jsstring;
  profile_manualNodes : list jsstring;
  profile_subConverter : jsstring;
  profile_subConfig : jsstring
}.

Record Config : Type := {
  FileName : jsstring;
  mytoken : jsstring;
  profileToken : jsstring;
  subConverter : jsstring;
  subConfig : jsstring;
  prependSubName : bool
}.

(** [new Set(a).has(x)] *)
Definition set_has (a : list jsstring) (x : jsstring) : bool :=
  existsb (str_eqb x) a.

(** [[...new Set(a)]]: insertion order, first occurrence kept. *)
Definition set_add (acc : list jsstring) (x : jsstring) : list jsstring :=
  if set_has acc x then acc else acc ++ [x].

Definition unique (a : list jsstring) : list jsstring :=
  fold_left set_add a [].

(** The literals of the source. *)
Definition VMESS : jsstring := Eval cbv in lit "vmess://".
Definition KEEP : jsstring := Eval cbv in lit "keep:".
Definition PROTO : jsstring := Eval cbv in lit "proto:".
Definition HTTP : jsstring := Eval cbv in lit "http".
Definition DASH : jsstring := Eval cbv in lit " - ".
Definition PS : jsstring := Eval cbv in lit "ps".
Definition HASH : code_unit := 35%Z.
Definition NL : code_unit := 10%Z.
Definition COMMA : code_unit := 44%Z.
Definition BAR : code_unit := 124%Z.
Definition SLASH : code_unit := 47%Z.
(** ['手动节点'] *)
Definition MANUAL_LABEL : jsstring := [25163; 21160; 33410; 28857]%Z.

(** [/^(ss|ssr|vmess|vless|trojan|hysteria2?|hy|hy2|tuic|anytls|socks5):\/\//] *)
Definition schemes : list jsstring :=
  Eval cbv in
    map lit ["ss"; "ssr"; "vmess"; "vless"; "trojan"; "hysteria"; "hysteria2";
             "hy"; "hy2"; "tuic"; "anytls"; "socks5"]%string.

Definition nodeRegex_test (line : jsstring) : bool :=
  existsb (fun sch => startsWith (sch ++ lit "://") line) schemes.

(** [nodeLink.match(/^(.*?):\/\//)]: the text before the first ["://"],
    provided no line terminator precedes it ([.] does not match one). *)
Fixpoint match_protocol (s : jsstring) : option jsstring :=
  if startsWith (lit "://") s then Some []
  else match s with
       | [] => None
       | c :: t =>
           if is_line_terminator c then None
           else option_map (cons c) (match_protocol t)
       end.

(** [/^[A-Za-z0-9+/=]+$/.test(s)] *)
Definition base64_regex_test (s : jsstring) : bool :=
  truthy s
  && forallb (fun c => is_alnum c || (c =? 43) || (c =? 47) || (c =? 61))%Z s.

(** ** Platform interfaces

    [JSON], the regular expression engine and the network are interfaces
    of the platform. *)

Class JSONImpl : Type := {
  JSNumber : Type;
  (** [ToBoolean] of a number: false on zero and NaN. *)
  Number_truthy : JSNumber -> bool;
  (** [JSON.parse(text)]: a SyntaxError on malformed text. *)
  JSON_parse : jsstring -> result (JSON JSNumber);
  JSON_stringify : JSON JSNumber -> jsstring
}.

Class RegExpImpl : Type := {
  regex : Type;
  (** [new RegExp(pattern, 'i')]: a SyntaxError on a malformed pattern. *)
  RegExp_i : jsstring -> result regex;
  (** [re.test(s)] *)
  regex_test : regex -> jsstring -> bool
}.

Class Network : Type := {
  (** [fetch] of a subscription URL with a User-Agent, raced against the
      ten-second timer, followed by [response.text()]. *)
  fetch : jsstring -> jsstring -> FetchOutcome
}.

(** ** The program *)

Section Program.

Context {J : JSONImpl} {R : RegExpImpl} {N : Network}.

#[local] Abbreviation json := (JSON JSNumber).

(** [v.ps]: a TypeError on [null]; [None] is [undefined]. *)
Definition get_ps (v : json) : result (option json) :=
  match v with
  | JNull => Throw TypeError
  | JObject props => Ok (Props.lookup PS props)
  | _ => Ok None
  end.

Definition ToBoolean (v : option json) : bool :=
  match v with
  | None => false
  | Some JNull => false
  | Some (JBool b) => b
  | Some (JNumber n) => Number_truthy n
  | Some (JString s) => truthy s
  | Some (JArray _) => true
  | Some (JObject _) => true
  end.

(** [v || ''] *)
Definition or_empty (v : option json) : json :=
  match v with
  | Some x => if ToBoolean v then x else JString []
  | None => JString []
  end.

(** The receiver of [originalPs.startsWith(prefix)]: only a string has
    the method, any other value gives a TypeError. *)
Definition string_receiver (v : json) : result jsstring :=
  match v with
  | JString s => Ok s
  | _ => Throw TypeError
  end.

(** [v.ps = x] in strict mode (the file is an ES module): a TypeError on
    a primitive.  A property [ps] set on an array is not serialised by
    [JSON.stringify], the only later use of the value, so the array is
    returned as it is. *)
Definition set_ps (v : json) (x : jsstring) : result json :=
  match v with
  | JObject props => Ok (JObject (Props.assign PS (JString x) props))
  | JArray l => Ok (JArray l)
  | _ => Throw TypeError
  end.

(** [appendToFragment] (source lines 417-426). *)
Definition appendToFragment (baseLink namePrefix : jsstring) : result jsstring :=
  let hashIndex := lastIndexOf HASH baseLink in
  originalName <- match hashIndex with
                  | Some i => decodeURIComponent (substring_from (i + 1) baseLink)
                  | None => Ok []
                  end ;;
  let base := match hashIndex with
              | Some i => substring_to i baseLink
              | None => baseLink
              end in
  if startsWith namePrefix originalName then Ok baseLink
  else
    let newName := if truthy originalName
                   then namePrefix ++ DASH ++ originalName
                   else namePrefix in
    enc <- encodeURIComponent newName ;;
    Ok (base ++ HASH :: enc).

(** The body of the [try] block of [prependNodeName]
    (source lines 429-443). *)
Definition prependNodeName_vmess (link prefix : jsstring) : result jsstring :=
  let base64Part := substring_from (length VMESS) link in
  binaryString <- atob base64Part ;;
  let jsonString := TextDecoder_decode binaryString in
  nodeConfig <- JSON_parse jsonString ;;
  ps <- get_ps nodeConfig ;;
  originalPs <- string_receiver (or_empty ps) ;;
  nodeConfig' <- (if negb (startsWith prefix originalPs) then
                    set_ps nodeConfig
                      (if truthy originalPs
                       then prefix ++ DASH ++ originalPs
                       else prefix)
                  else Ok nodeConfig) ;;
  let newJsonString := JSON_stringify nodeConfig' in
  enc <- encodeURIComponent newJsonString ;;
  newBase64Part <- btoa (unescape enc) ;;
  Ok (VMESS ++ newBase64Part).

(** [prependNodeName] (source lines 415-450). *)
Definition prependNodeName (link prefix : jsstring) : result jsstring :=
  if negb (truthy prefix) then Ok link
  else if startsWith VMESS link then
    try_catch (prependNodeName_vmess link prefix)
              (fun _ => appendToFragment link prefix)
  else appendToFragment link prefix.

(** [normalizeVmessLink] (source lines 455-470). *)
Definition normalizeVmessLink (link : jsstring) : result jsstring :=
  if negb (startsWith VMESS link) then Ok link
  else
    try_catch
      (let base64Part := substring_from (length VMESS) link in
       binaryString <- atob base64Part ;;
       let jsonString := TextDecoder_decode binaryString in
       v <- JSON_parse jsonString ;;
       let compactJsonString := JSON_stringify v in
       enc <- encodeURIComponent compactJsonString ;;
       newBase64Part <- btoa (unescape enc) ;;
       Ok (VMESS ++ newBase64Part))
      (fun _ => Ok link).

(** The decoding of a response body (source lines 490-499). *)
Definition decodeBody (text : jsstring) : result jsstring :=
  try_catch
    (let cleanedText := remove_spaces text in
     if (20 <? length cleanedText)%nat && base64_regex_test cleanedText then
       binaryString <- atob cleanedText ;;
       Ok (TextDecoder_decode binaryString)
     else Ok text)
    (fun _ => Ok text).

(** The name test shared by both filters (source lines 526-536 and
    557-567): the text after the last [#], percent-decoded; a decoding
    error is ignored. *)
Definition name_matches (nameRegex : option regex) (nodeLink : jsstring) : bool :=
  match nameRegex with
  | Some re =>
      match lastIndexOf HASH nodeLink with
      | Some hashIndex =>
          match decodeURIComponent (substring_from (hashIndex + 1) nodeLink) with
          | Ok nodeName => regex_test re nodeName
          | Throw _ => false
          end
      | None => false
      end
  | None => false
  end.

Definition protocol_of (nodeLink : jsstring) : jsstring :=
  match match_protocol nodeLink with
  | Some p => toLowerCase p
  | None => []
  end.

(** [content.substring('proto:'.length).split(',').map(p => p.trim().toLowerCase())] *)
Definition protocols_of (content : jsstring) : list jsstring :=
  map (fun p => toLowerCase (trim p))
      (split COMMA (substring_from (length PROTO) content)).

Definition is_proto_rule (r : jsstring) : bool :=
  startsWith PROTO (toLowerCase r).

Definition compile_names (nameRegexParts : list jsstring) : result (option regex) :=
  if (0 <? length nameRegexParts)%nat then
    re <- RegExp_i (join BAR nameRegexParts) ;; Ok (Some re)
  else Ok None.

(** The filter of one subscription (source lines 503-571). *)
Definition applyExclude (exclude : jsstring) (validNodes : list jsstring)
  : result (list jsstring) :=
  if truthy exclude && negb (str_eqb (trim exclude) []) then
    let rules := filter truthy (map trim (split NL (trim exclude))) in
    let keepRules :=
      filter (fun r => startsWith KEEP (toLowerCase r)) rules in
    if (0 <? length keepRules)%nat then
      let contents :=
        map (fun rule => trim (substring_from (length KEEP) rule)) keepRules in
      let protocolsToKeep :=
        flat_map protocols_of (filter is_proto_rule contents) in
      let nameRegexParts :=
        filter (fun c => negb (is_proto_rule c)) contents in
      nameRegex <- compile_names nameRegexParts ;;
      Ok (filter (fun nodeLink =>
                    if set_has protocolsToKeep (protocol_of nodeLink) then true
                    else if name_matches nameRegex nodeLink then true
                    else false)
                 validNodes)
    else
      let protocolsToExclude :=
        flat_map protocols_of (filter is_proto_rule rules) in
      let nameRegexParts :=
        filter (fun r => negb (is_proto_rule r)) rules in
      nameRegex <- compile_names nameRegexParts ;;
      Ok (filter (fun nodeLink =>
                    if set_has protocolsToExclude (protocol_of nodeLink) then false
                    else if name_matches nameRegex nodeLink then false
                    else true)
                 validNodes)
  else Ok validNodes.

Definition is_http (sub : Sub) : bool :=
  startsWith HTTP (toLowerCase (sub_url sub)).

Definition httpSubs (misubs : list Sub) : list Sub := filter is_http misubs.

Definition manualNodesContent (misubs : list Sub) : jsstring :=
  flat_map (fun sub => sub_url sub ++ [NL])
           (filter (fun sub => negb (is_http sub)) misubs).

(** [processedManualNodes] (source lines 476-481). *)
Definition processedManualNodes (config : Config) (misubs : list Sub)
  : result jsstring :=
  let lines :=
    filter nodeRegex_test (map trim (split NL (manualNodesContent misubs))) in
  normalized <- mapM normalizeVmessLink lines ;;
  nodes <- mapM (fun node =>
                   if prependSubName config
                   then prependNodeName node MANUAL_LABEL
                   else Ok node) normalized ;;
  Ok (join NL nodes).

(** One element of [subPromises] (source lines 482-576). *)
Definition processSub (config : Config) (userAgent : jsstring) (sub : Sub)
  : result jsstring :=
  try_catch
    (match fetch (sub_url sub) userAgent with
     | Failed => Throw FetchError
     | Response ok body =>
         if negb ok then Ok []
         else
           text <- decodeBody body ;;
           let validNodes :=
             filter nodeRegex_test (map trim (split NL (crlf_to_lf text))) in
           validNodes' <- applyExclude (sub_exclude sub) validNodes ;;
           if prependSubName config && truthy (sub_name sub) then
             nodes <- mapM (fun node => prependNodeName node (sub_name sub))
                           validNodes' ;;
             Ok (join NL nodes)
           else Ok (join NL validNodes')
     end)
    (fun _ => Ok []).

(** The lines kept by the last step (source line 579), before [Set]. *)
Definition content_lines (content : jsstring) : list jsstring :=
  filter truthy (map trim (split NL content)).

(** [generateCombinedNodeList] (source lines 452-585). *)
Definition generateCombinedNodeList (config : Config) (userAgent : jsstring)
    (misubs : list Sub) (prependedContent : jsstring) : result jsstring :=
  manual <- processedManualNodes config misubs ;;
  processedSubContents <- mapM (processSub config userAgent) (httpSubs misubs) ;;
  let combinedContent := manual ++ NL :: join NL processedSubContents in
  let uniqueNodesString := join NL (unique (content_lines combinedContent)) in
  if truthy prependedContent
  then Ok (prependedContent ++ NL :: uniqueNodesString)
  else Ok uniqueNodesString.

(** ** Scope resolution in [handleMisubRequest] (source lines 602-651) *)

Inductive Scope : Type :=
| Rejected (status : Z)
| Resolved (targetMisubs : list Sub) (subName : jsstring)
           (effectiveSubConverter effectiveSubConfig : jsstring).

(** [url.pathname.replace(/^\/sub\//, '/').split('/').filter(Boolean)] *)
Definition pathSegments (pathname : jsstring) : list jsstring :=
  filter truthy
    (split SLASH
       (if startsWith (lit "/sub/") pathname
        then SLASH :: substring_from 5 pathname
        else pathname)).

Definition option_truthy (o : option jsstring) : bool :=
  match o with Some s => truthy s | None => false end.

(** [token !== expected], [token] possibly [null]. *)
Definition token_differs (token : option jsstring) (expected : jsstring) : bool :=
  match token with
  | Some t => negb (str_eqb t expected)
  | None => true
  end.

(** [s && s.trim() !== '' ? s : d] *)
Definition nonblank_or (s d : jsstring) : jsstring :=
  if truthy s && negb (str_eqb (trim s) []) then s else d.

Definition profile_matches (profileIdentifier : jsstring) (p : Profile) : bool :=
  (truthy (profile_customId p) && str_eqb (profile_customId p) profileIdentifier)
  || str_eqb (profile_id p) profileIdentifier.

Definition handleMisubRequest_scope (config : Config) (allMisubs : list Sub)
    (allProfiles : list Profile) (pathname : jsstring)
    (queryToken : option jsstring) : Scope :=
  let segs := pathSegments pathname in
  let token := match segs with
               | t :: _ => Some t
               | [] => queryToken
               end in
  let profileIdentifier := match segs with
                           | _ :: p :: _ => Some p
                           | _ => None
                           end in
  let finish targetMisubs subName conv conf :=
    if negb (truthy conv) || str_eqb (trim conv) []
    then Rejected 500
    else Resolved targetMisubs subName conv conf in
  if option_truthy profileIdentifier then
    if negb (option_truthy token) || token_differs token (profileToken config)
    then Rejected 403
    else
      match find (profile_matches (match profileIdentifier with
                                   | Some p => p
                                   | None => []
                                   end)) allProfiles with
      | Some profile =>
          if profile_enabled profile then
            finish
              (filter (fun item =>
                         if startsWith HTTP (sub_url item)
                         then sub_enabled item
                              && set_has (profile_subscriptions profile) (sub_id item)
                         else sub_enabled item
                              && set_has (profile_manualNodes profile) (sub_id item))
                      allMisubs)
              (profile_name profile)
              (nonblank_or (profile_subConverter profile) (subConverter config))
              (nonblank_or (profile_subConfig profile) (subConfig config))
          else Rejected 404
      | None => Rejected 404
      end
  else
    if negb (option_truthy token) || token_differs token (mytoken config)
    then Rejected 403
    else finish (filter sub_enabled allMisubs) (FileName config)
                (subConverter config) (subConfig config).

End Program.

(** ** The rest of the request: format, response body and routing *)

(** [s.includes(needle)] *)
Fixpoint includes (needle s : jsstring) : bool :=
  startsWith needle s
  || match s with
     | [] => false
     | _ :: t => includes needle t
     end.

Definition supportedFormats : list jsstring :=
  Eval cbv in
    map lit ["clash"; "singbox"; "surge"; "loon"; "base64"; "v2ray";
             "trojan"]%string.

Definition uaMapping : list (jsstring * jsstring) :=
  Eval cbv in
    map (fun kf => (lit (fst kf), lit (snd kf)))
      [("flyclash", "clash"); ("mihomo", "clash"); ("clash.meta", "clash");
       ("clash-verge", "clash"); ("meta", "clash"); ("stash", "clash");
       ("nekoray", "clash"); ("sing-box", "singbox");
       ("shadowrocket", "base64"); ("v2rayn", "base64");
       ("v2rayng", "base64"); ("surge", "surge"); ("loon", "loon");
       ("quantumult%20x", "quanx"); ("quantumult", "quanx");
       ("clash", "clash")]%string.

(** The first loop of the format selection (source lines 654-662): the
    first supported format present as a query parameter. *)
Definition targetFormat_query (target : option jsstring)
    (has : jsstring -> bool) : option jsstring :=
  if option_truthy target then target
  else
    match find has supportedFormats with
    | Some format =>
        Some (if str_eqb format (lit "v2ray") || str_eqb format (lit "trojan")
              then lit "base64" else format)
    | None => target
    end.

(** The second loop (source lines 663-679): the first keyword of the
    mapping that the lower-cased User-Agent includes. *)
Definition targetFormat_ua (mapping : list (jsstring * jsstring))
    (targetFormat : option jsstring) (userAgentHeader : jsstring)
  : option jsstring :=
  if option_truthy targetFormat then targetFormat
  else
    let ua := toLowerCase userAgentHeader in
    match find (fun kf => includes (fst kf) ua) mapping with
    | Some kf => Some (snd kf)
    | None => targetFormat
    end.

(** The format selection (source lines 653-680), for a mapping.
    [target] is [url.searchParams.get('target')], [has] is
    [url.searchParams.has]. *)
Definition targetFormat_with (mapping : list (jsstring * jsstring))
    (target : option jsstring) (has : jsstring -> bool)
    (userAgentHeader : jsstring) : jsstring :=
  match targetFormat_ua mapping (targetFormat_query target has)
                        userAgentHeader with
  | Some f => if truthy f then f else lit "clash"
  | None => lit "clash"
  end.

Definition targetFormat : option jsstring -> (jsstring -> bool) -> jsstring
                          -> jsstring :=
  targetFormat_with uaMapping.

(** [btoa(unescape(encodeURIComponent(combinedNodeList)))]
    (source line 704), the body of the answer for the base64 format. *)
Definition base64Content (combinedNodeList : jsstring) : result jsstring :=
  enc <- encodeURIComponent combinedNodeList ;; btoa (unescape enc).

(** Routing in [onRequest] (source lines 743-759). *)
Inductive Route : Type :=
| CronTrigger
| ApiRequest
| MisubRequest
| Next.

(** [\w] *)
Definition is_word (c : code_unit) : bool := is_alnum c || (c =? 95)%Z.

(** [/\.\w+$/.test(s)]: a dot followed by word characters up to the end;
    the dot is the last one of [s], as a dot is no word character. *)
Definition has_extension (s : jsstring) : bool :=
  match lastIndexOf 46%Z s with
  | Some i =>
      let ext := substring_from (i + 1) s in
      truthy ext && forallb is_word ext
  | None => false
  end.

(** [/^\/(assets|@vite|src)\//.test(s)] *)
Definition in_asset_directory (s : jsstring) : bool :=
  startsWith (lit "/assets/") s || startsWith (lit "/@vite/") s
  || startsWith (lit "/src/") s.

(** [cron] is [request.headers.get("cf-cron")]. *)
Definition onRequest_route (cron : option jsstring) (pathname : jsstring)
  : Route :=
  if option_truthy cron then CronTrigger
  else if startsWith (lit "/api/") pathname then ApiRequest
  else
    let isStaticAsset := in_asset_directory pathname || has_extension pathname in
    if negb isStaticAsset && negb (str_eqb pathname (lit "/"))
    then MisubRequest
    else Next.

(** ** Signed session tokens (source lines 141-158) *)

(** [crypto.subtle] is an interface of the platform: the bytes of the
    HMAC-SHA-256 signature of [data] under [key], as
    [new Uint8Array(signature)] shows them. *)
Class Crypto : Type := {
  hmac_sha256 : jsstring -> jsstring -> list Z;
  hmac_sha256_bytes :
    forall key data, Forall (fun b => (0 <= b <= 255)%Z) (hmac_sha256 key data)
}.

(** A call that returns or throws an [Error]. *)
Inductive outcome (A : Type) : Type :=
| Returns (a : A)
| ThrowsError.

Arguments Returns {A} a.
Arguments ThrowsError {A}.

(** [b.toString(16).padStart(2, '0')] for a byte. *)
Definition byte_hex (b : Z) : jsstring :=
  let digit := fun n => (if n <? 10 then 48 + n else 87 + n)%Z in
  [digit (b / 16)%Z; digit (b mod 16)%Z].

Section Tokens.

Context {C : Crypto}.

(** [createSignedToken] (source lines 141-149). *)
Definition createSignedToken (key data : jsstring) : outcome jsstring :=
  if negb (truthy key) || negb (truthy data) then ThrowsError
  else Returns (data ++ 46%Z :: flat_map byte_hex (hmac_sha256 key data)).

(** [verifySignedToken] (source lines 151-158); [None] is [null]. *)
Definition verifySignedToken (key token : jsstring)
  : outcome (option jsstring) :=
  if negb (truthy key) || negb (truthy token) then Returns None
  else
    let parts := split 46%Z token in
    if negb (length parts =? 2)%nat then Returns None
    else
      let data := hd [] parts in
      match createSignedToken key data with
      | Returns expectedToken =>
          Returns (if str_eqb token expectedToken then Some data else None)
      | ThrowsError => ThrowsError
      end.

Definition COOKIE_NAME : jsstring := Eval cbv in lit "auth_session".

(** [authMiddleware] (source lines 160-168) up to [verifiedData]: the
    data of the session cookie, or [None] where the function returns a
    falsy value before it compares the times.  [cookie] is
    [request.headers.get('Cookie')]; nothing catches an exception of
    [verifySignedToken]. *)
Definition authMiddleware_verifiedData (COOKIE_SECRET : jsstring)
    (cookie : option jsstring) : outcome (option jsstring) :=
  if negb (truthy COOKIE_SECRET) then Returns None
  else
    match cookie with
    | None => Returns None
    | Some c =>
        match find (fun c => startsWith (COOKIE_NAME ++ [61%Z]) (trim c))
                   (split 59%Z c) with
        | None => Returns None
        | Some sessionCookie =>
            if negb (truthy sessionCookie) then Returns None
            else
              match nth_error (split 61%Z sessionCookie) 1 with
              | Some token => verifySignedToken COOKIE_SECRET token
              | None => Returns None
              end
        end
    end.

End Tokens.

(** ** The [subscription-userinfo] header
    (source lines 96-100 and 340-344) *)





(** ** Reference platform

    Concrete instances of the interfaces, used to run the program on
    examples. *)

(** A reference [JSON] for the part of the grammar with integer numerals:
    values are parsed and printed as the platform does, except that a
    numeral with a fraction or an exponent is refused, integers are exact,
    and the properties of an object are printed in insertion order (the
    platform moves array-index keys to the front). *)
Module RefJSON.

Local Open Scope Z_scope.

Definition hex_lower (n : Z) : code_unit :=
  if n <? 10 then 48 + n else 87 + n.

(** [\uXXXX] *)
Definition unicode_escape (c : code_unit) : jsstring :=
  [92; 117; hex_lower (c / 4096); hex_lower (c / 256 mod 16);
   hex_lower (c / 16 mod 16); hex_lower (c mod 16)].

(** QuoteJSONString on a unit that is not a surrogate. *)
Definition quote_unit (c : code_unit) : jsstring :=
  if c =? 8 then [92; 98]
  else if c =? 9 then [92; 116]
  else if c =? 10 then [92; 110]
  else if c =? 12 then [92; 102]
  else if c =? 13 then [92; 114]
  else if c =? 34 then [92; 34]
  else if c =? 92 then [92; 92]
  else if c <? 32 then unicode_escape c
  else [c].

(** A surrogate pair is copied, a lone surrogate is escaped. *)
Fixpoint quote_units (s : jsstring) : jsstring :=
  match s with
  | [] => []
  | c :: t =>
      if is_high_surrogate c then
        match t with
        | d :: t' =>
            if is_low_surrogate d then c :: d :: quote_units t'
            else unicode_escape c ++ quote_units t
        | [] => unicode_escape c
        end
      else if is_low_surrogate c then unicode_escape c ++ quote_units t
      else quote_unit c ++ quote_units t
  end.

Definition quote (s : jsstring) : jsstring := 34 :: quote_units s ++ [34].

Fixpoint digits (d : Decimal.uint) : jsstring :=
  match d with
  | Decimal.Nil => []
  | Decimal.D0 d => 48 :: digits d
  | Decimal.D1 d => 49 :: digits d
  | Decimal.D2 d => 50 :: digits d
  | Decimal.D3 d => 51 :: digits d
  | Decimal.D4 d => 52 :: digits d
  | Decimal.D5 d => 53 :: digits d
  | Decimal.D6 d => 54 :: digits d
  | Decimal.D7 d => 55 :: digits d
  | Decimal.D8 d => 56 :: digits d
  | Decimal.D9 d => 57 :: digits d
  end.

Definition Number_toString (z : Z) : jsstring :=
  match Z.to_int z with
  | Decimal.Pos d => digits d
  | Decimal.Neg d => 45 :: digits d
  end.

Fixpoint stringify (v : JSON Z) : jsstring :=
  match v with
  | JNull => lit "null"
  | JBool b => if b then lit "true" else lit "false"
  | JNumber n => Number_toString n
  | JString s => quote s
  | JArray l => 91 :: join COMMA (map stringify l) ++ [93]
  | JObject props =>
      123 :: join COMMA
               (map (fun kv => quote (fst kv) ++ 58 :: stringify (snd kv)) props)
          ++ [125]
  end.

Definition is_json_space (c : code_unit) : bool :=
  (c =? 32) || (c =? 9) || (c =? 10) || (c =? 13).

Fixpoint skip_space (s : jsstring) : jsstring :=
  match s with
  | c :: t => if is_json_space c then skip_space t else s
  | [] => []
  end.

Definition unescape_char (e : code_unit) : option code_unit :=
  if e =? 34 then Some 34
  else if e =? 92 then Some 92
  else if e =? 47 then Some 47
  else if e =? 98 then Some 8
  else if e =? 102 then Some 12
  else if e =? 110 then Some 10
  else if e =? 114 then Some 13
  else if e =? 116 then Some 9
  else None.

(** The characters of a string after its opening quote. *)
Fixpoint parse_string (s acc : jsstring) : result (jsstring * jsstring) :=
  match s with
  | [] => Throw SyntaxError
  | c :: t =>
      if c =? 34 then Ok (acc, t)
      else if c =? 92 then
        match t with
        | e :: t1 =>
            if e =? 117 then
              match t1 with
              | h1 :: h2 :: h3 :: h4 :: t5 =>
                  match hex4 h1 h2 h3 h4 with
                  | Some u => parse_string t5 (acc ++ [u])
                  | None => Throw SyntaxError
                  end
              | _ => Throw SyntaxError
              end
            else
              match unescape_char e with
              | Some u => parse_string t1 (acc ++ [u])
              | None => Throw SyntaxError
              end
        | [] => Throw SyntaxError
        end
      else if c <? 32 then Throw SyntaxError
      else parse_string t (acc ++ [c])
  end.

Definition digit_of (c : code_unit) : option (Decimal.uint -> Decimal.uint) :=
  if c =? 48 then Some Decimal.D0
  else if c =? 49 then Some Decimal.D1
  else if c =? 50 then Some Decimal.D2
  else if c =? 51 then Some Decimal.D3
  else if c =? 52 then Some Decimal.D4
  else if c =? 53 then Some Decimal.D5
  else if c =? 54 then Some Decimal.D6
  else if c =? 55 then Some Decimal.D7
  else if c =? 56 then Some Decimal.D8
  else if c =? 57 then Some Decimal.D9
  else None.

Fixpoint parse_digits (s : jsstring) : Decimal.uint * jsstring :=
  match s with
  | c :: t =>
      match digit_of c with
      | Some D => let (d, r) := parse_digits t in (D d, r)
      | None => (Decimal.Nil, s)
      end
  | [] => (Decimal.Nil, [])
  end.

(** After the digits: a fraction or an exponent is not supported. *)
Definition integer_end (r : jsstring) : bool :=
  match r with
  | c :: _ => negb ((c =? 46) || (c =? 101) || (c =? 69))
  | [] => true
  end.

Definition parse_unsigned (s : jsstring) : result (Decimal.uint * jsstring) :=
  match parse_digits s with
  | (Decimal.Nil, _) => Throw SyntaxError
  | (Decimal.D0 Decimal.Nil, r) =>
      if integer_end r then Ok (Decimal.D0 Decimal.Nil, r) else Throw SyntaxError
  | (Decimal.D0 _, _) => Throw SyntaxError
  | (d, r) => if integer_end r then Ok (d, r) else Throw SyntaxError
  end.

Definition parse_number (s : jsstring) : result (Z * jsstring) :=
  match s with
  | c :: t =>
      if c =? 45 then
        dr <- parse_unsigned t ;;
        Ok (Z.of_int (Decimal.Neg (fst dr)), snd dr)
      else
        dr <- parse_unsigned s ;;
        Ok (Z.of_int (Decimal.Pos (fst dr)), snd dr)
  | [] => Throw SyntaxError
  end.

Fixpoint parse_value (fuel : nat) (s : jsstring) : result (JSON Z * jsstring) :=
  match fuel with
  | O => Throw SyntaxError
  | S f =>
      match skip_space s with
      | [] => Throw SyntaxError
      | c :: t =>
          if c =? 123 then
            match skip_space t with
            | c' :: r => if c' =? 125 then Ok (JObject [], r)
                         else parse_members f t []
            | [] => Throw SyntaxError
            end
          else if c =? 91 then
            match skip_space t with
            | c' :: r => if c' =? 93 then Ok (JArray [], r)
                         else parse_elements f t []
            | [] => Throw SyntaxError
            end
          else if c =? 34 then
            sr <- parse_string t [] ;; Ok (JString (fst sr), snd sr)
          else if startsWith (lit "true") (c :: t) then
            Ok (JBool true, skipn 4 (c :: t))
          else if startsWith (lit "false") (c :: t) then
            Ok (JBool false, skipn 5 (c :: t))
          else if startsWith (lit "null") (c :: t) then
            Ok (JNull, skipn 4 (c :: t))
          else
            nr <- parse_number (c :: t) ;; Ok (JNumber (fst nr), snd nr)
      end
  end
with parse_elements (fuel : nat) (s : jsstring) (acc : list (JSON Z))
  : result (JSON Z * jsstring) :=
  match fuel with
  | O => Throw SyntaxError
  | S f =>
      vr <- parse_value f s ;;
      match skip_space (snd vr) with
      | c :: r =>
          if c =? 44 then parse_elements f r (acc ++ [fst vr])
          else if c =? 93 then Ok (JArray (acc ++ [fst vr]), r)
          else Throw SyntaxError
      | [] => Throw SyntaxError
      end
  end
with parse_members (fuel : nat) (s : jsstring) (acc : list (jsstring * JSON Z))
  : result (JSON Z * jsstring) :=
  match fuel with
  | O => Throw SyntaxError
  | S f =>
      match skip_space s with
      | q :: t =>
          if q =? 34 then
            kr <- parse_string t [] ;;
            match skip_space (snd kr) with
            | c :: r1 =>
                if c =? 58 then
                  vr <- parse_value f r1 ;;
                  match skip_space (snd vr) with
                  | c' :: r2 =>
                      if c' =? 44 then
                        parse_members f r2 (Props.assign (fst kr) (fst vr) acc)
                      else if c' =? 125 then
                        Ok (JObject (Props.assign (fst kr) (fst vr) acc), r2)
                      else Throw SyntaxError
                  | [] => Throw SyntaxError
                  end
                else Throw SyntaxError
            | [] => Throw SyntaxError
            end
          else Throw SyntaxError
      | [] => Throw SyntaxError
      end
  end.

Definition parse (s : jsstring) : result (JSON Z) :=
  if forallb (fun c => (0 <=? c) && (c <? 65536)) s then
    vr <- parse_value (2 * length s + 2) s ;;
    match skip_space (snd vr) with
    | [] => Ok (fst vr)
    | _ :: _ => Throw SyntaxError
    end
  else Throw SyntaxError.

Definition impl : JSONImpl := {|
  JSNumber := Z;
  Number_truthy := fun n => negb (n =? 0);
  JSON_parse := parse;
  JSON_stringify := stringify
|}.

End RefJSON.

(** A reference engine for the literal part of the pattern language:
    alternatives, separated by [|], of printable ASCII characters other
    than the syntax characters.  On such a pattern the platform's
    [new RegExp(p, 'i').test(s)] holds iff one alternative occurs in [s] up
    to the case of ASCII letters.  Every other pattern is refused with a
    SyntaxError, as the platform refuses ["("]. *)
Module LiteralRegExp.

Local Open Scope Z_scope.

Definition is_syntax_char (c : code_unit) : bool :=
  existsb (Z.eqb c) [94; 36; 92; 46; 42; 43; 63; 40; 41; 91; 93; 123; 125; 124].

Definition is_literal (c : code_unit) : bool :=
  (32 <=? c) && (c <=? 126) && negb (is_syntax_char c).

(** Canonicalize of the case-insensitive match, on ASCII. *)
Definition canonicalize (c : code_unit) : code_unit :=
  if (97 <=? c) && (c <=? 122) then c - 32 else c.

Fixpoint matches_here (alt s : jsstring) : bool :=
  match alt, s with
  | [], _ => true
  | _ :: _, [] => false
  | a :: alt', b :: s' =>
      (canonicalize a =? canonicalize b) && matches_here alt' s'
  end.

Fixpoint occurs (alt s : jsstring) : bool :=
  matches_here alt s
  || match s with
     | [] => false
     | _ :: t => occurs alt t
     end.

Definition compile (pattern : jsstring) : result (list jsstring) :=
  if forallb (fun c => is_literal c || (c =? 124)) pattern
  then Ok (split BAR pattern)
  else Throw SyntaxError.

Definition test (re : list jsstring) (s : jsstring) : bool :=
  existsb (fun alt => occurs alt s) re.

Definition impl : RegExpImpl := {|
  regex := list jsstring;
  RegExp_i := compile;
  regex_test := test
|}.

End LiteralRegExp.

(** A small network: three subscriptions that answer, one that answers
    with an error status, and nothing else. *)
Module ExampleNetwork.

Definition url_a : jsstring := Eval cbv in lit "https://a.example/sub".
Definition url_b : jsstring := Eval cbv in lit "https://b.example/sub".
Definition url_c : jsstring := Eval cbv in lit "https://c.example/sub".
Definition url_down : jsstring := Eval cbv in lit "https://down.example/sub".

Definition body_a : jsstring :=
  Eval cbv in lit "ss://YWJj@h1:1#HK%2001" ++ [13; 10]%Z
              ++ lit "vless://u@h2:2#US%2001" ++ [10]%Z.
Definition body_b : jsstring :=
  Eval cbv in lit "vless://u@h2:2#US%2001" ++ [10]%Z
              ++ lit "trojan://p@h3:3#JP%2001".

Definition body_c : jsstring :=
  Eval cbv in lit "vless://u@h4:4" ++ [10]%Z ++ lit "ss://YWJj@h5:5".

Definition answer (url userAgent : jsstring) : FetchOutcome :=
  if str_eqb url url_a then Response true body_a
  else if str_eqb url url_b then Response true body_b
  else if str_eqb url url_c then Response true body_c
  else if str_eqb url url_down then Response false (lit "Bad Gateway")
  else Failed.

Definition impl : Network := {| fetch := answer |}.

End ExampleNetwork.

(** Inputs of the examples. *)
Module Examples.

Definition config (prepend : bool) : Config := {|
  FileName := lit "MiSub";
  mytoken := lit "auto";
  profileToken := lit "profiles";
  subConverter := lit "url.v1.mk";
  subConfig := [];
  prependSubName := prepend
|}.

Definition sub (url name exclude : jsstring) : Sub := {|
  sub_id := url;
  sub_url := url;
  sub_name := name;
  sub_enabled := true;
  sub_exclude := exclude
|}.

Definition userAgent : jsstring := Eval cbv in lit "clash-verge".

Definition sub_a : Sub := sub ExampleNetwork.url_a (lit "A") [].
Definition sub_b : Sub :=
  sub ExampleNetwork.url_b []
      (lit "keep:proto:trojan" ++ [NL] ++ lit "keep:us").
Definition sub_down : Sub := sub ExampleNetwork.url_down (lit "D") [].
Definition sub_manual : Sub := sub (lit "ss://abc#MyNode") [] [].

Definition misubs : list Sub := [sub_a; sub_manual; sub_down; sub_b].

(** The summary node of [handleMisubRequest] for one gigabyte left:
    the fragment is the encoded text of U+6D41 U+91CF U+5269 U+4F59,
    a space, U+226B, and [" 1 GB"]. *)
Definition summary_node : jsstring :=
  Eval cbv in
    lit "trojan://00000000-0000-0000-0000-000000000000@127.0.0.1:443#"
    ++ lit "%E6%B5%81%E9%87%8F%E5%89%A9%E4%BD%99%20%E2%89%AB%201%20GB".

(** A vmess link: the base64 text of a configuration with
    [ps = "node"], [add = "1.2.3.4"] and [port = 443], written with
    spaces. *)
Definition vmess_link : jsstring :=
  Eval cbv in
    lit "vmess://eyAicHMiIDogIm5vZGUiLCAiYWRkIjoiMS4yLjMuNCIsInBvcnQiOjQ0M30=".

Definition profile_work : Profile := {|
  profile_id := lit "p1";
  profile_customId := lit "work";
  profile_name := lit "Work";
  profile_enabled := false;
  profile_subscriptions := [ExampleNetwork.url_a];
  profile_manualNodes := [];
  profile_subConverter := [];
  profile_subConfig := []
|}.

End Examples.

(** * Properties *)

Local Open Scope Z_scope.

(** ** Facts about strings *)

Lemma str_eqb_eq (a b : jsstring) : str_eqb a b = true <-> a = b.
Proof.
  unfold str_eqb. destruct (list_eq_dec Z.eq_dec a b); split; congruence.
Qed.

Lemma str_eqb_refl (a : jsstring) : str_eqb a a = true.
Proof. now apply str_eqb_eq. Qed.

Lemma str_eqb_neq (a b : jsstring) : str_eqb a b = false <-> a <> b.
Proof.
  unfold str_eqb. destruct (list_eq_dec Z.eq_dec a b); split; congruence.
Qed.

Lemma truthy_nonempty (s : jsstring) : truthy s = true <-> s <> [].
Proof. destruct s; simpl; split; congruence. Qed.

Lemma startsWith_app (p s : jsstring) : startsWith p (p ++ s) = true.
Proof.
  induction p as [|a p IH]; simpl; [reflexivity|].
  now rewrite Z.eqb_refl, IH.
Qed.

Lemma startsWith_prefix (p s : jsstring) :
  startsWith p s = true -> exists r, s = p ++ r.
Proof.
  revert s. induction p as [|a p IH]; intros s H; simpl in *.
  - now exists s.
  - destruct s as [|b s]; [discriminate|].
    apply andb_true_iff in H as [Hab Hp]. apply Z.eqb_eq in Hab. subst b.
    destruct (IH _ Hp) as [r ->]. now exists r.
Qed.

(** *** [trim] *)

Definition no_leading_space (s : jsstring) : Prop :=
  match s with
  | c :: _ => is_space c = false
  | [] => True
  end.

Lemma trimStart_no_leading_space s : no_leading_space (trimStart s).
Proof.
  induction s as [|c t IH]; simpl; [exact I|].
  destruct (is_space c) eqn:E; [exact IH|exact E].
Qed.

Lemma trimStart_fixed s : no_leading_space s -> trimStart s = s.
Proof. destruct s as [|c t]; simpl; [reflexivity|]. now intros ->. Qed.

Lemma trimStart_suffix s : exists pre, s = pre ++ trimStart s.
Proof.
  induction s as [|c t [pre IH]]; simpl.
  - now exists [].
  - destruct (is_space c).
    + exists (c :: pre). simpl. now rewrite <- IH.
    + now exists [].
Qed.

Lemma trimEnd_prefix s : exists suf, s = trimEnd s ++ suf.
Proof.
  unfold trimEnd. destruct (trimStart_suffix (rev s)) as [pre H].
  exists (rev pre). rewrite <- rev_app_distr, <- H. now rewrite rev_involutive.
Qed.

Lemma trimEnd_keeps_head s : no_leading_space s -> no_leading_space (trimEnd s).
Proof.
  intros H. destruct (trimEnd_prefix s) as [suf E].
  destruct (trimEnd s) as [|c u] eqn:Eu; [exact I|].
  rewrite E in H. exact H.
Qed.

Lemma trimEnd_idempotent s : trimEnd (trimEnd s) = trimEnd s.
Proof.
  unfold trimEnd. rewrite rev_involutive.
  now rewrite (trimStart_fixed _ (trimStart_no_leading_space _)).
Qed.

Lemma trim_idempotent s : trim (trim s) = trim s.
Proof.
  unfold trim.
  rewrite (trimStart_fixed _
             (trimEnd_keeps_head _ (trimStart_no_leading_space s))).
  apply trimEnd_idempotent.
Qed.

Lemma trim_incl s c : In c (trim s) -> In c s.
Proof.
  unfold trim. intros H.
  destruct (trimEnd_prefix (trimStart s)) as [suf E].
  destruct (trimStart_suffix s) as [pre E'].
  rewrite E', E. apply in_or_app. right. apply in_or_app. now left.
Qed.

(** *** [split] and [join] *)

Lemma split_nonempty sep s : split sep s <> [].
Proof.
  destruct s as [|c t]; simpl; [discriminate|].
  destruct (Z.eqb c sep); [discriminate|].
  destruct (split sep t); discriminate.
Qed.

Lemma split_app sep a b :
  split sep (a ++ sep :: b) = split sep a ++ split sep b.
Proof.
  induction a as [|c t IH]; simpl.
  - now rewrite Z.eqb_refl.
  - rewrite IH. destruct (Z.eqb c sep); [reflexivity|].
    destruct (split sep t) eqn:E; [now apply split_nonempty in E|reflexivity].
Qed.

Lemma split_no_sep sep s : ~ In sep s -> split sep s = [s].
Proof.
  induction s as [|c t IH]; simpl; intros H; [reflexivity|].
  destruct (Z.eqb_spec c sep) as [->|_]; [exfalso; now apply H; left|].
  rewrite IH; [reflexivity|]. intros Hin. apply H. now right.
Qed.

Lemma split_pieces sep s : Forall (fun x => ~ In sep x) (split sep s).
Proof.
  induction s as [|c t IH]; simpl.
  - constructor; [intros []|constructor].
  - destruct (Z.eqb_spec c sep) as [->|Hne].
    + constructor; [intros []|exact IH].
    + destruct (split sep t) as [|h r]; inversion IH; subst.
      * constructor; [|constructor]. intros [H|[]]. congruence.
      * constructor; [|assumption]. intros [H|H]; [congruence|contradiction].
Qed.

Lemma split_join sep l :
  l <> [] -> Forall (fun x => ~ In sep x) l -> split sep (join sep l) = l.
Proof.
  induction l as [|x r IH]; intros Hne Hall; [congruence|].
  inversion Hall as [|? ? Hx Hr]; subst.
  destruct r as [|y r'].
  - simpl. now apply split_no_sep.
  - change (join sep (x :: y :: r')) with (x ++ sep :: join sep (y :: r')).
    rewrite split_app, (split_no_sep _ _ Hx), IH; [reflexivity|discriminate|assumption].
Qed.

(** *** [content_lines] *)

Lemma content_lines_app a b :
  content_lines (a ++ NL :: b) = content_lines a ++ content_lines b.
Proof.
  unfold content_lines. now rewrite split_app, map_app, filter_app.
Qed.

Lemma content_lines_nil : content_lines [] = [].
Proof. reflexivity. Qed.

Lemma content_lines_join l :
  content_lines (join NL l) = flat_map content_lines l.
Proof.
  induction l as [|x r IH]; [reflexivity|].
  destruct r as [|y r'].
  - simpl. now rewrite app_nil_r.
  - change (join NL (x :: y :: r')) with (x ++ NL :: join NL (y :: r')).
    rewrite content_lines_app, IH. reflexivity.
Qed.

Definition clean_line (l : jsstring) : Prop :=
  l <> [] /\ trim l = l /\ ~ In NL l.

Lemma content_lines_clean content : Forall clean_line (content_lines content).
Proof.
  unfold content_lines. apply Forall_forall. intros l Hin.
  apply filter_In in Hin as [Hin Ht]. apply in_map_iff in Hin as [x [<- Hx]].
  repeat split.
  - now apply truthy_nonempty.
  - apply trim_idempotent.
  - intros Hnl. apply trim_incl in Hnl.
    pose proof (split_pieces NL content) as Hp.
    rewrite Forall_forall in Hp. exact (Hp _ Hx Hnl).
Qed.

(** *** [unique]: the array of a [Set] *)

Lemma set_has_In a x : set_has a x = true <-> In x a.
Proof.
  unfold set_has. rewrite existsb_exists. split.
  - intros [y [Hy E]]. apply str_eqb_eq in E. now subst.
  - intros H. exists x. split; [assumption|apply str_eqb_refl].
Qed.

Lemma set_has_not_In a x : set_has a x = false <-> ~ In x a.
Proof.
  rewrite <- set_has_In. destruct (set_has a x); split; congruence.
Qed.

(** The first occurrences of a list, in order. *)
Fixpoint first_occurrences (l : list jsstring) : list jsstring :=
  match l with
  | [] => []
  | x :: t => x :: filter (fun y => negb (str_eqb y x)) (first_occurrences t)
  end.

Lemma filter_filter {A} (f g : A -> bool) l :
  filter f (filter g l) = filter (fun x => g x && f x) l.
Proof.
  induction l as [|x t IH]; simpl; [reflexivity|].
  destruct (g x); simpl; [destruct (f x)|]; now rewrite IH.
Qed.

Lemma filter_all {A} (f : A -> bool) l :
  (forall x, f x = true) -> filter f l = l.
Proof.
  intros H. induction l as [|x t IH]; simpl; [reflexivity|].
  now rewrite H, IH.
Qed.

Lemma fold_set_add l acc :
  fold_left set_add l acc
  = acc ++ filter (fun y => negb (set_has acc y)) (first_occurrences l).
Proof.
  revert acc. induction l as [|x t IH]; intros acc; simpl.
  - now rewrite app_nil_r.
  - rewrite IH. unfold set_add. destruct (set_has acc x) eqn:E; simpl.
    + f_equal. rewrite filter_filter. apply filter_ext_in. intros y _.
      destruct (str_eqb y x) eqn:Eyx; simpl; [|reflexivity].
      apply str_eqb_eq in Eyx. subst y. now rewrite E.
    + rewrite <- app_assoc. simpl. f_equal. f_equal.
      rewrite filter_filter. apply filter_ext_in. intros y _.
      unfold set_has. rewrite existsb_app. simpl. rewrite orb_false_r.
      fold (set_has acc y). rewrite negb_orb. apply andb_comm.
Qed.

Lemma unique_first_occurrences l : unique l = first_occurrences l.
Proof.
  unfold unique. rewrite fold_set_add. simpl.
  now apply filter_all.
Qed.

Lemma first_occurrences_In l x : In x (first_occurrences l) <-> In x l.
Proof.
  induction l as [|y t IH]; simpl; [reflexivity|].
  rewrite filter_In, IH. split.
  - intros [H|[H _]]; auto.
  - intros [H|H]; [now left|].
    destruct (list_eq_dec Z.eq_dec x y) as [->|Hne]; [now left|right].
    split; [assumption|]. apply negb_true_iff. now apply str_eqb_neq.
Qed.

Lemma first_occurrences_NoDup l : NoDup (first_occurrences l).
Proof.
  induction l as [|y t IH]; simpl; constructor.
  - rewrite filter_In. intros [_ H]. now rewrite str_eqb_refl in H.
  - now apply NoDup_filter.
Qed.

Lemma first_occurrences_app a b :
  first_occurrences (a ++ b)
  = first_occurrences a
    ++ filter (fun y => negb (set_has a y)) (first_occurrences b).
Proof.
  induction a as [|x t IH]; simpl.
  - symmetry. now apply filter_all.
  - f_equal. rewrite IH, filter_app, filter_filter. f_equal.
    apply filter_ext. intros y.
    unfold set_has. simpl. rewrite negb_orb. apply andb_comm.
Qed.

(** *** [mapM] *)

Lemma mapM_total {A B} (f : A -> result B) (g : A -> B) l :
  (forall x, In x l -> f x = Ok (g x)) -> mapM f l = Ok (map g l).
Proof.
  induction l as [|a t IH]; intros H; simpl; [reflexivity|].
  rewrite (H a (or_introl eq_refl)). simpl.
  rewrite IH; [reflexivity|]. intros x Hx. apply H. now right.
Qed.

Lemma mapM_ext {A B} (f g : A -> result B) l :
  (forall x, In x l -> f x = g x) -> mapM f l = mapM g l.
Proof.
  induction l as [|a t IH]; intros H; simpl; [reflexivity|].
  rewrite (H a (or_introl eq_refl)), IH; [reflexivity|].
  intros x Hx. apply H. now right.
Qed.

(** ** Base64 round trip *)

Lemma list_ind3 {A} (P : list A -> Prop) :
  P [] -> (forall a, P [a]) -> (forall a b, P [a; b]) ->
  (forall a b c t, P t -> P (a :: b :: c :: t)) ->
  forall l, P l.
Proof.
  intros H0 H1 H2 H3. fix IH 1.
  intros [|a [|b [|c t]]];
    [exact H0 | apply H1 | apply H2 | apply H3; apply IH].
Qed.

Definition is_sextet (i : Z) : Prop := (0 <= i < 64)%Z.

Lemma is_byte_range c : is_byte c = true <-> (0 <= c <= 255)%Z.
Proof. unfold is_byte. lia. Qed.

Lemma sextets_of_bytes_range s :
  forallb is_byte s = true -> Forall is_sextet (sextets_of_bytes s).
Proof.
  induction s as [| a | a b | a b c t IH] using list_ind3; simpl; intros H;
    repeat (apply andb_true_iff in H as [?%is_byte_range H]).
  - constructor.
  - repeat constructor; unfold is_sextet; lia.
  - repeat constructor; unfold is_sextet; lia.
  - repeat (constructor; [unfold is_sextet; lia|]). now apply IH.
Qed.

Lemma sextets_of_bytes_length s :
  length (sextets_of_bytes s)
  = (4 * (length s / 3)
     + match Nat.modulo (length s) 3 with 0 => 0 | r => r + 1 end)%nat.
Proof.
  induction s as [| a | a b | a b c t IH] using list_ind3; try reflexivity.
  cbn [sextets_of_bytes length]. rewrite IH.
  replace (S (S (S (length t)))) with (length t + 1 * 3)%nat by lia.
  rewrite Nat.div_add, Nat.Div0.mod_add by lia. lia.
Qed.

Lemma decode_sextets_of_bytes s :
  forallb is_byte s = true -> decode_sextets (sextets_of_bytes s) = s.
Proof.
  induction s as [| a | a b | a b c t IH] using list_ind3; simpl; intros H;
    repeat (apply andb_true_iff in H as [?%is_byte_range H]).
  - reflexivity.
  - f_equal. lia.
  - f_equal; [lia|f_equal; lia].
  - rewrite (IH H). f_equal; [lia|f_equal; [lia|f_equal; lia]].
Qed.

Lemma b64_index_char i : is_sextet i -> b64_index (b64_char i) = Some i.
Proof.
  unfold is_sextet. intros H. unfold b64_char.
  repeat case_if; unfold b64_index; repeat case_if;
    try (f_equal; lia); try lia.
Qed.

Lemma b64_char_plain i :
  is_sextet i ->
  b64_char i <> 61%Z /\ is_ascii_whitespace (b64_char i) = false.
Proof.
  unfold is_sextet, b64_char, is_ascii_whitespace. intros H.
  repeat case_if; lia.
Qed.

Lemma sextets_map_b64_char l :
  Forall is_sextet l -> sextets (map b64_char l) = Some l.
Proof.
  induction 1 as [|i t Hi _ IH]; simpl; [reflexivity|].
  now rewrite (b64_index_char i Hi), IH.
Qed.

Lemma strip_padding_encoded l pad :
  Forall is_sextet l ->
  (pad = [] /\ Nat.modulo (length l) 4 = 0
   \/ pad = [61%Z] /\ Nat.modulo (length l) 4 = 3
   \/ pad = [61%Z; 61%Z] /\ Nat.modulo (length l) 4 = 2)%nat ->
  strip_padding (map b64_char l ++ pad) = map b64_char l.
Proof.
  intros Hl Hpad. unfold strip_padding.
  assert (Hlen : (Nat.modulo (length (map b64_char l ++ pad)) 4 =? 0)%nat = true).
  { rewrite length_app, length_map. apply Nat.eqb_eq.
    destruct Hpad as [[-> H]|[[-> H]|[-> H]]]; cbn [length]; lia. }
  rewrite Hlen, rev_app_distr.
  assert (Hhead : forall x r, rev (map b64_char l) = x :: r -> x <> 61%Z).
  { intros x r E. apply Forall_rev in Hl. rewrite <- map_rev in E.
    destruct (rev l) as [|i t]; [discriminate|]. injection E as <- _.
    inversion Hl; subst. now apply b64_char_plain. }
  destruct Hpad as [[-> H]|[[-> H]|[-> H]]]; simpl.
  - destruct (rev (map b64_char l)) as [|x [|y r]] eqn:E.
    + rewrite app_nil_r. reflexivity.
    + pose proof (Hhead _ _ eq_refl). destruct (Z.eqb_spec x 61); [contradiction|].
      now rewrite app_nil_r.
    + pose proof (Hhead _ _ eq_refl). destruct (Z.eqb_spec x 61); [contradiction|].
      now rewrite app_nil_r.
  - destruct (rev (map b64_char l)) as [|y r] eqn:E.
    + apply (f_equal (@length _)) in E. rewrite length_rev, length_map in E.
      simpl in E. rewrite E in H. discriminate.
    + pose proof (Hhead _ _ eq_refl). destruct (Z.eqb_spec y 61); [contradiction|].
      change (rev r ++ [y]) with (rev (y :: r)).
      rewrite <- E. apply rev_involutive.
  - destruct (rev (map b64_char l)) as [|y r] eqn:E.
    + apply (f_equal (@length _)) in E. rewrite length_rev, length_map in E.
      simpl in E. rewrite E in H. discriminate.
    + change (rev r ++ [y]) with (rev (y :: r)).
      rewrite <- E. apply rev_involutive.
Qed.

Lemma atob_btoa s e : btoa s = Ok e -> atob e = Ok s.
Proof.
  unfold btoa. destruct (forallb is_byte s) eqn:Hb; [|discriminate].
  intros H. injection H as <-.
  pose proof (sextets_of_bytes_range s Hb) as Hr.
  pose proof (sextets_of_bytes_length s) as Hlen.
  unfold atob.
  assert (Hf : filter (fun c => negb (is_ascii_whitespace c))
                 (map b64_char (sextets_of_bytes s) ++ padding (length s))
               = map b64_char (sextets_of_bytes s) ++ padding (length s)).
  { rewrite filter_app. f_equal.
    - clear Hlen. induction Hr as [|i t Hi _ IH]; simpl; [reflexivity|].
      destruct (b64_char_plain i Hi) as [_ ->]. simpl. now rewrite IH.
    - unfold padding. destruct (Nat.modulo (length s) 3) as [|[|[|]]]; reflexivity. }
  rewrite Hf, strip_padding_encoded; [|assumption|].
  - rewrite length_map, sextets_map_b64_char by assumption.
    rewrite decode_sextets_of_bytes by assumption.
    destruct (Nat.eqb_spec (Nat.modulo (length (sextets_of_bytes s)) 4) 1);
      [|reflexivity].
    exfalso.
    pose proof (Nat.mod_upper_bound (length s) 3 ltac:(discriminate)) as Hub.
    remember (Nat.modulo (length s) 3) as m.
    destruct m as [|[|[|]]]; cbv iota in Hlen; lia.
  - unfold padding.
    pose proof (Nat.mod_upper_bound (length s) 3 ltac:(discriminate)) as Hub.
    remember (Nat.modulo (length s) 3) as m.
    destruct m as [|[|[|]]]; cbv iota in Hlen;
      [left|right; right|right; left|lia];
      (split; [reflexivity|lia]).
Qed.

Lemma In_strip_padding c s : c <> 61%Z -> In c s -> In c (strip_padding s).
Proof.
  intros Hc Hin. unfold strip_padding.
  case_if; [|assumption].
  apply in_rev in Hin.
  destruct (rev s) as [|x [|y r]] eqn:E.
  - destruct Hin.
  - destruct (Z.eqb_spec x 61); [|now rewrite in_rev, E].
    destruct Hin as [->|[]]. contradiction.
  - destruct (Z.eqb_spec x 61) as [->|]; [|now rewrite in_rev, E].
    destruct Hin as [Hin|Hin]; [congruence|].
    destruct (Z.eqb_spec y 61) as [->|].
    + destruct Hin as [Hin|Hin]; [congruence|]. now rewrite <- in_rev.
    + now rewrite <- in_rev.
Qed.

Lemma sextets_None c s : b64_index c = None -> In c s -> sextets s = None.
Proof.
  intros Hc. induction s as [|x t IH]; intros Hin; [destruct Hin|]. simpl.
  destruct Hin as [->|Hin].
  - now rewrite Hc.
  - rewrite (IH Hin). now destruct (b64_index x).
Qed.

(** A text with a [#] in it is not base64. *)
Lemma atob_hash s : In HASH s -> atob s = Throw InvalidCharacterError.
Proof.
  intros Hin. unfold atob.
  match goal with |- context [strip_padding ?d] => set (d' := d) end.
  assert (H : In HASH (strip_padding d')).
  { apply In_strip_padding; [discriminate|]. subst d'.
    apply filter_In. split; [assumption|reflexivity]. }
  case_if; [reflexivity|].
  now rewrite (sextets_None HASH _ eq_refl H).
Qed.

(** ** Percent-encoding and UTF-8 round trips *)


Definition scalar (cp : Z) : Prop :=
  0 <= cp < 1114112 /\ ~ (55296 <= cp <= 57343).

(** What [encodeURIComponent] writes for one code point. *)
Definition encode_point (cp : Z) : jsstring :=
  if is_unreserved cp then [cp] else escape_octets (utf8_octets cp).

Lemma encodeURIComponent_points_aux n :
  forall s e, (length s <= n)%nat -> encodeURIComponent s = Ok e ->
  exists cps, Forall scalar cps
              /\ s = flat_map utf16_units cps
              /\ e = flat_map encode_point cps.
Proof.
  induction n as [|n IH]; intros s e Hlen.
  - destruct s; [|simpl in Hlen; lia]. simpl. intros H. injection H as <-.
    exists []. repeat split. constructor.
  - destruct s as [|c t]; simpl.
    { intros H. injection H as <-. exists []. repeat split. constructor. }
    simpl in Hlen.
    destruct (is_unreserved c) eqn:Eu.
    + destruct (encodeURIComponent t) as [r|] eqn:Et; [|discriminate].
      simpl. intros H. injection H as <-.
      destruct (IH t r ltac:(lia) Et) as [cps [H1 [H2 H3]]].
      exists (c :: cps). repeat split.
      * constructor; [|assumption]. unfold is_unreserved, is_alnum in Eu.
        unfold scalar. clear - Eu. lia.
      * simpl. rewrite <- H2. unfold utf16_units.
        unfold is_unreserved, is_alnum in Eu. case_if; [reflexivity|].
        clear - Eu Heqb. lia.
      * simpl. rewrite <- H3. unfold encode_point. now rewrite Eu.
    + destruct (is_low_surrogate c) eqn:El; [discriminate|].
      destruct (is_high_surrogate c) eqn:Eh.
      * destruct t as [|d t']; [discriminate|].
        destruct (is_low_surrogate d) eqn:Ed; [|discriminate].
        destruct (encodeURIComponent t') as [r|] eqn:Et; [|discriminate].
        simpl. intros H. injection H as <-. simpl in Hlen.
        destruct (IH t' r ltac:(lia) Et) as [cps [H1 [H2 H3]]].
        unfold is_high_surrogate in Eh. unfold is_low_surrogate in Ed.
        exists (((c - 55296) * 1024 + (d - 56320) + 65536) :: cps).
        repeat split.
        -- constructor; [|assumption]. unfold scalar. clear - Eh Ed. lia.
        -- simpl. rewrite <- H2. unfold utf16_units.
           case_if; [clear - Eh Ed Heqb; lia|]. cbn [app].
           clear - Eh Ed. f_equal; [lia|f_equal; lia].
        -- simpl. rewrite <- H3. unfold encode_point.
           replace (is_unreserved _) with false; [reflexivity|].
           symmetry. unfold is_unreserved, is_alnum. clear - Eh Ed. lia.
      * destruct ((0 <=? c) && (c <? 65536)) eqn:Er; [|discriminate].
        destruct (encodeURIComponent t) as [r|] eqn:Et; [|discriminate].
        simpl. intros H. injection H as <-.
        destruct (IH t r ltac:(lia) Et) as [cps [H1 [H2 H3]]].
        unfold is_high_surrogate in Eh. unfold is_low_surrogate in El.
        exists (c :: cps). repeat split.
        -- constructor; [|assumption]. unfold scalar. clear - Eh El Er. lia.
        -- simpl. rewrite <- H2. unfold utf16_units.
           case_if; [reflexivity|]. clear - Er Heqb. lia.
        -- simpl. rewrite <- H3. unfold encode_point. now rewrite Eu.
Qed.

Lemma encodeURIComponent_points s e :
  encodeURIComponent s = Ok e ->
  exists cps, Forall scalar cps
              /\ s = flat_map utf16_units cps
              /\ e = flat_map encode_point cps.
Proof. apply (encodeURIComponent_points_aux (length s)). lia. Qed.

Ltac if_true :=
  match goal with
  | |- context [if ?c then _ else _] =>
      replace c with true by (symmetry; lia)
  end.
Ltac if_false :=
  match goal with
  | |- context [if ?c then _ else _] =>
      replace c with false by (symmetry; lia)
  end.

Definition octet (b : Z) : Prop := 0 <= b <= 255.

Lemma hex_value_digit n : 0 <= n < 16 -> hex_value (hex_digit n) = Some n.
Proof.
  intros H. unfold hex_digit. case_if; unfold hex_value; repeat case_if;
    try (f_equal; lia); lia.
Qed.

Lemma hex2_percent b :
  octet b -> hex2 (hex_digit (b / 16)) (hex_digit (b mod 16)) = Some b.
Proof.
  unfold octet, hex2. intros H.
  rewrite !hex_value_digit by lia. f_equal. lia.
Qed.

Lemma hex_digit_not_percent n : 0 <= n < 16 -> hex_digit n <> 37.
Proof. unfold hex_digit. intros H. case_if; lia. Qed.

Lemma utf8_octets_range cp : scalar cp -> Forall octet (utf8_octets cp).
Proof.
  unfold scalar, utf8_octets, octet. intros H.
  repeat case_if; repeat constructor; lia.
Qed.

(** The tokens of one encoded code point. *)
Definition point_tokens (cp : Z) : list token :=
  if is_unreserved cp then [Lit cp] else map Oct (utf8_octets cp).

Lemma tokenize_escape bs rest toks :
  Forall octet bs -> tokenize rest = Ok toks ->
  tokenize (escape_octets bs ++ rest) = Ok (map Oct bs ++ toks).
Proof.
  intros Hbs Hrest. induction Hbs as [|b t Hb _ IH]; [exact Hrest|].
  cbn [escape_octets flat_map percent app map tokenize].
  change (flat_map percent t) with (escape_octets t).
  pose proof (hex2_percent b Hb) as Hh. unfold hex2 in Hh.
  destruct (hex_value (hex_digit (b / 16))) as [x|]; [|discriminate].
  destruct (hex_value (hex_digit (b mod 16))) as [y|]; [|discriminate].
  injection Hh as ->. rewrite IH. reflexivity.
Qed.

Lemma tokenize_encode_point cp rest toks :
  scalar cp -> tokenize rest = Ok toks ->
  tokenize (encode_point cp ++ rest) = Ok (point_tokens cp ++ toks).
Proof.
  intros Hcp Hrest. unfold encode_point, point_tokens.
  destruct (is_unreserved cp) eqn:Eu.
  - cbn [app tokenize]. unfold is_unreserved, is_alnum in Eu.
    replace (cp =? 37) with false by (clear - Eu; lia).
    now rewrite Hrest.
  - apply tokenize_escape; [now apply utf8_octets_range|assumption].
Qed.

Lemma decode_point_tokens cp toks s :
  scalar cp -> decode_tokens toks = Ok s ->
  decode_tokens (point_tokens cp ++ toks) = Ok (utf16_units cp ++ s).
Proof.
  intros Hcp Hrest. unfold point_tokens.
  destruct (is_unreserved cp) eqn:Eu.
  - cbn [app decode_tokens]. rewrite Hrest. cbn [bind].
    unfold utf16_units. unfold is_unreserved, is_alnum in Eu.
    replace (cp <? 65536) with true by (clear - Eu; lia). reflexivity.
  - clear Eu. unfold scalar in Hcp. unfold utf8_octets.
    repeat case_if; cbn [map app decode_tokens]; unfold is_continuation.
    + if_true. rewrite Hrest. cbn [bind]. unfold utf16_units. now if_true.
    + if_false. if_true.
      replace ((192 + cp / 64 - 192) * 64 + (128 + cp mod 64 - 128)) with cp by lia.
      if_true. now rewrite Hrest.
    + if_false. if_false. if_true.
      replace ((224 + cp / 4096 - 224) * 4096 + (128 + cp / 64 mod 64 - 128) * 64
               + (128 + cp mod 64 - 128)) with cp by lia.
      if_true. now rewrite Hrest.
    + if_false. if_false. if_false. if_true.
      replace ((240 + cp / 262144 - 240) * 262144
               + (128 + cp / 4096 mod 64 - 128) * 4096
               + (128 + cp / 64 mod 64 - 128) * 64
               + (128 + cp mod 64 - 128)) with cp by lia.
      if_true. now rewrite Hrest.
Qed.

Lemma decodeURIComponent_points cps :
  Forall scalar cps ->
  exists toks, tokenize (flat_map encode_point cps) = Ok toks
               /\ decode_tokens toks = Ok (flat_map utf16_units cps).
Proof.
  induction 1 as [|cp t Hcp _ [toks [H1 H2]]].
  - now exists [].
  - exists (point_tokens cp ++ toks). split.
    + now apply tokenize_encode_point.
    + now apply decode_point_tokens.
Qed.

(** [decodeURIComponent] undoes [encodeURIComponent]. *)
Lemma decodeURIComponent_encodeURIComponent s e :
  encodeURIComponent s = Ok e -> decodeURIComponent e = Ok s.
Proof.
  intros H. destruct (encodeURIComponent_points s e H) as [cps [Hs [-> ->]]].
  destruct (decodeURIComponent_points cps Hs) as [toks [H1 H2]].
  unfold decodeURIComponent. now rewrite H1.
Qed.

Lemma unescape_escape bs rest :
  Forall octet bs -> unescape (escape_octets bs ++ rest) = bs ++ unescape rest.
Proof.
  induction 1 as [|b t Hb _ IH]; [reflexivity|].
  cbn [escape_octets flat_map percent app unescape].
  change (flat_map percent t) with (escape_octets t).
  rewrite Z.eqb_refl, (hex2_percent b Hb), IH. reflexivity.
Qed.

Lemma unescape_encode_point cp rest :
  scalar cp ->
  unescape (encode_point cp ++ rest) = utf8_octets cp ++ unescape rest.
Proof.
  intros Hcp. unfold encode_point. destruct (is_unreserved cp) eqn:Eu.
  - unfold is_unreserved, is_alnum in Eu. cbn [app unescape].
    replace (cp =? 37) with false by (clear - Eu; lia).
    unfold utf8_octets. replace (cp <? 128) with true by (clear - Eu; lia).
    reflexivity.
  - apply unescape_escape. now apply utf8_octets_range.
Qed.

Lemma unescape_points cps :
  Forall scalar cps ->
  unescape (flat_map encode_point cps) = flat_map utf8_octets cps.
Proof.
  induction 1 as [|cp t Hcp _ IH]; [reflexivity|].
  cbn [flat_map]. now rewrite unescape_encode_point, IH.
Qed.

Lemma lead_octet_1 b : 0 <= b <= 127 -> lead_octet b = ([b], Start).
Proof. intros H. unfold lead_octet. now if_true. Qed.

Lemma lead_octet_2 b :
  194 <= b <= 223 -> lead_octet b = ([], Pending (b mod 32) 1 128 191).
Proof. intros H. unfold lead_octet. if_false. now if_true. Qed.

Lemma lead_octet_3 b :
  224 <= b <= 239 ->
  lead_octet b = ([], Pending (b mod 16) 2 (if b =? 224 then 160 else 128)
                              (if b =? 237 then 159 else 191)).
Proof. intros H. unfold lead_octet. if_false. if_false. now if_true. Qed.

Lemma lead_octet_4 b :
  240 <= b <= 244 ->
  lead_octet b = ([], Pending (b mod 8) 3 (if b =? 240 then 144 else 128)
                              (if b =? 244 then 143 else 191)).
Proof.
  intros H. unfold lead_octet. if_false. if_false. if_false. now if_true.
Qed.

Lemma utf8_decode_last cp lower upper b t :
  lower <= b <= upper ->
  utf8_decode (Pending cp 1 lower upper) (b :: t)
  = (cp * 64 + b mod 64) :: utf8_decode Start t.
Proof. intros H. cbn [utf8_decode]. now if_true. Qed.

Lemma utf8_decode_more cp needed lower upper b t :
  lower <= b <= upper -> needed <> 1 ->
  utf8_decode (Pending cp needed lower upper) (b :: t)
  = utf8_decode (Pending (cp * 64 + b mod 64) (needed - 1) 128 191) t.
Proof.
  intros H Hn. cbn [utf8_decode]. if_true.
  now destruct (Z.eqb_spec needed 1).
Qed.

Lemma utf8_decode_start b t :
  utf8_decode Start (b :: t)
  = fst (lead_octet b) ++ utf8_decode (snd (lead_octet b)) t.
Proof. reflexivity. Qed.

Lemma utf8_decode_point cp rest :
  scalar cp ->
  utf8_decode Start (utf8_octets cp ++ rest) = cp :: utf8_decode Start rest.
Proof.
  unfold scalar, utf8_octets. intros Hcp.
  repeat case_if; cbn [app]; rewrite utf8_decode_start.
  - rewrite lead_octet_1 by lia. reflexivity.
  - rewrite lead_octet_2 by lia. cbn [fst snd app].
    rewrite utf8_decode_last by lia. f_equal. lia.
  - rewrite lead_octet_3 by lia. cbn [fst snd app].
    rewrite utf8_decode_more; [|repeat case_if; lia|discriminate].
    rewrite utf8_decode_last by lia. f_equal. lia.
  - rewrite lead_octet_4 by lia. cbn [fst snd app].
    rewrite utf8_decode_more; [|repeat case_if; lia|discriminate].
    rewrite utf8_decode_more; [|lia|discriminate].
    rewrite utf8_decode_last by lia. f_equal. lia.
Qed.

Lemma utf8_decode_points cps :
  Forall scalar cps -> utf8_decode Start (flat_map utf8_octets cps) = cps.
Proof.
  induction 1 as [|cp t Hcp _ IH]; [reflexivity|].
  cbn [flat_map]. now rewrite utf8_decode_point, IH.
Qed.

(** Decoding the UTF-8 octets of a well-formed string that does not
    begin with U+FEFF gives the string back. *)
Lemma TextDecoder_decode_utf8 s e :
  encodeURIComponent s = Ok e ->
  (forall t, s <> 65279 :: t) ->
  TextDecoder_decode (unescape e) = s.
Proof.
  intros H Hbom. destruct (encodeURIComponent_points s e H) as [cps [Hs [-> ->]]].
  unfold TextDecoder_decode.
  rewrite unescape_points, utf8_decode_points by assumption.
  destruct cps as [|cp t]; [reflexivity|]. unfold strip_bom.
  destruct (Z.eqb_spec cp 65279) as [->|]; [|reflexivity].
  exfalso. eapply Hbom. reflexivity.
Qed.

(** The octets are bytes, so [btoa] accepts them. *)
Lemma btoa_unescape_encode s e :
  encodeURIComponent s = Ok e -> exists b, btoa (unescape e) = Ok b.
Proof.
  intros H. destruct (encodeURIComponent_points s e H) as [cps [Hs [-> ->]]].
  rewrite unescape_points by assumption. unfold btoa.
  replace (forallb is_byte (flat_map utf8_octets cps)) with true; [eauto|].
  symmetry. apply forallb_forall. intros b Hb.
  apply in_flat_map in Hb as [cp [Hcp Hb]].
  rewrite Forall_forall in Hs. pose proof (utf8_octets_range cp (Hs _ Hcp)) as Hr.
  rewrite Forall_forall in Hr. apply is_byte_range. exact (Hr _ Hb).
Qed.

Lemma encode_point_no_hash cp : scalar cp -> ~ In HASH (encode_point cp).
Proof.
  intros Hcp. unfold encode_point. destruct (is_unreserved cp) eqn:Eu.
  - intros [H|[]]. subst cp. discriminate.
  - pose proof (utf8_octets_range cp Hcp) as Hr. clear Eu.
    induction Hr as [|b t Hb _ IH]; [intros []|].
    cbn [escape_octets flat_map percent app].
    unfold octet in Hb. unfold hex_digit, HASH.
    intros [H|[H|[H|H]]]; [discriminate| | |now apply IH].
    + revert H. case_if; lia.
    + revert H. case_if; lia.
Qed.

Lemma encodeURIComponent_no_hash s e :
  encodeURIComponent s = Ok e -> ~ In HASH e.
Proof.
  intros H. destruct (encodeURIComponent_points s e H) as [cps [Hs [_ ->]]].
  intros Hin. apply in_flat_map in Hin as [cp [Hcp Hin]].
  rewrite Forall_forall in Hs. exact (encode_point_no_hash cp (Hs _ Hcp) Hin).
Qed.

(** ** Scope resolution *)

Lemma pathSegments_truthy pathname seg :
  In seg (pathSegments pathname) -> truthy seg = true.
Proof. unfold pathSegments. intros H. now apply filter_In in H. Qed.

Lemma profile_matches_spec pid p :
  truthy pid = true ->
  profile_matches pid p = true
  <-> profile_customId p = pid \/ profile_id p = pid.
Proof.
  intros Hpid. unfold profile_matches.
  rewrite orb_true_iff, andb_true_iff, !str_eqb_eq. split.
  - intros [[_ H]|H]; auto.
  - intros [H|H]; [left|now right]. split; [|assumption]. now rewrite H.
Qed.

Lemma find_none_no_match pid profiles :
  truthy pid = true ->
  (forall p, In p profiles -> profile_customId p <> pid /\ profile_id p <> pid) ->
  find (profile_matches pid) profiles = None.
Proof.
  intros Hpid H. induction profiles as [|p t IH]; [reflexivity|]. simpl.
  destruct (profile_matches pid p) eqn:E.
  - apply profile_matches_spec in E; [|assumption].
    destruct (H p (or_introl eq_refl)) as [H1 H2]. destruct E; contradiction.
  - apply IH. intros q Hq. apply H. now right.
Qed.

(** C3. With a profile identifier in the path, the answer is 403 exactly
    when the token differs from the profile token; with the right token,
    an identifier that no profile carries, or whose profile is disabled,
    gives 404. *)
Theorem profile_scope_403_404
    config allMisubs allProfiles pathname queryToken token pid rest :
  pathSegments pathname = token :: pid :: rest ->
  (handleMisubRequest_scope config allMisubs allProfiles pathname queryToken
   = Rejected 403
   <-> token <> profileToken config)
  /\ (token = profileToken config ->
      (forall p, In p allProfiles ->
                 profile_customId p <> pid /\ profile_id p <> pid)
      \/ (exists p, find (profile_matches pid) allProfiles = Some p
                    /\ profile_enabled p = false) ->
      handleMisubRequest_scope config allMisubs allProfiles pathname queryToken
      = Rejected 404).
Proof.
  intros Hseg.
  assert (Htok : truthy token = true)
    by (apply (pathSegments_truthy pathname); rewrite Hseg; now left).
  assert (Hpid : truthy pid = true)
    by (apply (pathSegments_truthy pathname); rewrite Hseg; right; now left).
  unfold handleMisubRequest_scope. rewrite Hseg. simpl. rewrite Hpid, Htok. simpl.
  destruct (str_eqb token (profileToken config)) eqn:E; simpl.
  - apply str_eqb_eq in E. split.
    + split; [|intros H; contradiction].
      destruct (find (profile_matches pid) allProfiles) as [p|]; [|discriminate].
      destruct (profile_enabled p); [|discriminate].
      match goal with |- context [if ?c then _ else _] => destruct c end;
        discriminate.
    + intros _ [Hnone|[p [Hp Hdis]]].
      * now rewrite (find_none_no_match pid allProfiles Hpid Hnone).
      * now rewrite Hp, Hdis.
  - apply str_eqb_neq in E. split; [split; auto|]. intros H. contradiction.
Qed.

(** ** The payload decoder *)

Definition is_base64_alphabet (c : code_unit) : bool :=
  is_alnum c || (c =? 43) || (c =? 47) || (c =? 61).

(** The decoder in the words of the specification: whitespace is removed
    from a copy; when the copy is longer than 20 and made of base64
    characters only, it is decoded and the bytes are read as UTF-8; when
    the decoding fails, and in every other case, the body stays as it is. *)
Definition decode_spec (rawBody : jsstring) : jsstring :=
  let compact := filter (fun c => negb (is_space c)) rawBody in
  if (20 <? length compact)%nat && forallb is_base64_alphabet compact then
    match atob compact with
    | Ok bytes => TextDecoder_decode bytes
    | Throw _ => rawBody
    end
  else rawBody.

(** C5. The decoder of the source never throws and computes what the
    specification describes. *)
Theorem decodeBody_spec body : decodeBody body = Ok (decode_spec body).
Proof.
  unfold decodeBody, decode_spec, remove_spaces, base64_regex_test.
  set (compact := filter _ body).
  destruct (20 <? length compact)%nat eqn:Elen; [|reflexivity].
  assert (Ht : truthy compact = true).
  { destruct compact; [discriminate|reflexivity]. }
  rewrite Ht. cbn [andb].
  change (fun c => is_alnum c || (c =? 43) || (c =? 47) || (c =? 61))
    with is_base64_alphabet.
  destruct (forallb is_base64_alphabet compact); [|reflexivity].
  destruct (atob compact); reflexivity.
Qed.

(** *** [lastIndexOf] *)

Lemma lastIndexOf_None c s : lastIndexOf c s = None -> ~ In c s.
Proof.
  induction s as [|x t IH]; simpl; [intros _ []|].
  destruct (lastIndexOf c t); [discriminate|].
  destruct (Z.eqb_spec x c); [discriminate|].
  intros _ [H|H]; [contradiction|]. now apply IH.
Qed.

Lemma lastIndexOf_Some c s i :
  lastIndexOf c s = Some i ->
  s = firstn i s ++ c :: skipn (S i) s /\ ~ In c (skipn (S i) s).
Proof.
  revert i. induction s as [|x t IH]; simpl; [discriminate|]. intros i.
  destruct (lastIndexOf c t) as [j|] eqn:E.
  - intros H. injection H as <-. destruct (IH j eq_refl) as [H1 H2].
    split; [|exact H2]. cbn [firstn app]. f_equal. exact H1.
  - destruct (Z.eqb_spec x c) as [->|]; [|discriminate].
    intros H. injection H as <-. cbn [firstn skipn app]. split; [reflexivity|].
    now apply lastIndexOf_None.
Qed.

Lemma lastIndexOf_last c base suffix :
  ~ In c suffix -> lastIndexOf c (base ++ c :: suffix) = Some (length base).
Proof.
  intros H. induction base as [|x t IH]; simpl.
  - destruct (lastIndexOf c suffix) eqn:E.
    + apply lastIndexOf_Some in E as [E _]. exfalso. apply H. rewrite E.
      apply in_or_app. right. now left.
    + now rewrite Z.eqb_refl.
  - now rewrite IH.
Qed.

Lemma startsWith_before c p base rest :
  ~ In c p -> startsWith p (base ++ c :: rest) = startsWith p base.
Proof.
  revert base. induction p as [|a p IH]; intros base H; [reflexivity|].
  destruct base as [|b base]; simpl.
  - destruct (Z.eqb_spec a c) as [->|]; [|reflexivity].
    exfalso. apply H. now left.
  - rewrite IH; [reflexivity|]. intros Hin. apply H. now right.
Qed.

Lemma startsWith_refl p : startsWith p p = true.
Proof.
  induction p as [|a p IH]; simpl; [reflexivity|]. now rewrite Z.eqb_refl.
Qed.

Lemma startsWith_length p s : startsWith p s = true -> (length p <= length s)%nat.
Proof.
  intros H. apply startsWith_prefix in H as [r ->]. rewrite length_app. lia.
Qed.

(** *** [appendToFragment] *)

(** The two ways [appendToFragment] returns: the link itself, or a base
    of the link followed by the encoded new name. *)
Inductive fragment_result (link prefix r : jsstring) : Prop :=
| Unchanged :
    r = link -> fragment_result link prefix r
| Renamed (base newName enc : jsstring) :
    r = base ++ HASH :: enc ->
    encodeURIComponent newName = Ok enc ->
    startsWith prefix newName = true ->
    (link = base \/ exists rest, link = base ++ HASH :: rest) ->
    fragment_result link prefix r.

Lemma appendToFragment_result link prefix r :
  appendToFragment link prefix = Ok r -> fragment_result link prefix r.
Proof.
  unfold appendToFragment.
  destruct (lastIndexOf HASH link) as [i|] eqn:Ei.
  - destruct (decodeURIComponent _) as [name|]; [|discriminate]. cbn [bind].
    destruct (startsWith prefix name) eqn:Es.
    + intros H. injection H as <-. now apply Unchanged.
    + destruct (encodeURIComponent _) as [enc|] eqn:Ee; [|discriminate].
      cbn [bind]. intros H. injection H as <-.
      eapply Renamed; [reflexivity|exact Ee| |].
      * destruct (truthy name); [apply startsWith_app|apply startsWith_refl].
      * right. apply lastIndexOf_Some in Ei as [Ei _]. eauto.
  - cbn [bind]. destruct (startsWith prefix []) eqn:Es.
    + intros H. injection H as <-. now apply Unchanged.
    + cbn [truthy]. destruct (encodeURIComponent prefix) as [enc|] eqn:Ee;
        [|discriminate].
      cbn [bind]. intros H. injection H as <-.
      eapply Renamed; [reflexivity|exact Ee| |now left].
      apply startsWith_refl.
Qed.

Lemma appendToFragment_renamed base enc newName prefix :
  encodeURIComponent newName = Ok enc ->
  startsWith prefix newName = true ->
  appendToFragment (base ++ HASH :: enc) prefix = Ok (base ++ HASH :: enc).
Proof.
  intros He Hs. unfold appendToFragment.
  rewrite (lastIndexOf_last HASH base enc (encodeURIComponent_no_hash _ _ He)).
  unfold substring_from.
  replace (skipn (length base + 1) (base ++ HASH :: enc)) with enc.
  - rewrite (decodeURIComponent_encodeURIComponent _ _ He). cbn [bind].
    now rewrite Hs.
  - rewrite skipn_app, skipn_all2 by lia.
    replace (length base + 1 - length base)%nat with 1%nat by lia. reflexivity.
Qed.

Lemma appendToFragment_idempotent link prefix r :
  appendToFragment link prefix = Ok r -> appendToFragment r prefix = Ok r.
Proof.
  intros H. destruct (appendToFragment_result _ _ _ H) as [->|base n enc -> He Hs _].
  - exact H.
  - now apply (appendToFragment_renamed base enc n).
Qed.

Lemma appendToFragment_scheme link prefix r :
  appendToFragment link prefix = Ok r ->
  startsWith VMESS r = startsWith VMESS link.
Proof.
  intros H.
  assert (Hv : ~ In HASH VMESS) by (cbv; intuition discriminate).
  destruct (appendToFragment_result _ _ _ H)
    as [->|base n enc -> He Hs [->|[rest ->]]]; [reflexivity| |].
  - now apply startsWith_before.
  - now rewrite !startsWith_before.
Qed.

Section Aggregation.

Context {J : JSONImpl} {R : RegExpImpl} {N : Network}.

Set Default Proof Using "Type".

(** ** The aggregation pipeline *)

Definition processSub_text (config : Config) (userAgent : jsstring) (sub : Sub)
  : jsstring :=
  match processSub config userAgent sub with
  | Ok r => r
  | Throw _ => []
  end.

(** The [catch] of a subscription swallows every exception. *)
Lemma processSub_total config userAgent sub :
  processSub config userAgent sub = Ok (processSub_text config userAgent sub).
Proof.
  unfold processSub_text, processSub.
  match goal with |- try_catch ?m _ = _ => destruct m end; reflexivity.
Qed.

Lemma processSub_failed config userAgent sub :
  fetch (sub_url sub) userAgent = Failed
  \/ (exists body, fetch (sub_url sub) userAgent = Response false body) ->
  processSub config userAgent sub = Ok [].
Proof.
  unfold processSub. intros [H|[body H]]; rewrite H; reflexivity.
Qed.

(** All lines of a run before duplicates are removed: the manual nodes,
    then each HTTP subscription in the order of [misubs]. *)
Definition all_lines (manual : jsstring) (contents : list jsstring)
  : list jsstring :=
  content_lines manual ++ flat_map content_lines contents.

Lemma generateCombinedNodeList_eq config userAgent misubs prependedContent :
  generateCombinedNodeList config userAgent misubs prependedContent
  = manual <- processedManualNodes config misubs ;;
    let u := unique (all_lines manual
                       (map (processSub_text config userAgent) (httpSubs misubs))) in
    Ok (if truthy prependedContent
        then prependedContent ++ NL :: join NL u
        else join NL u).
Proof.
  unfold generateCombinedNodeList.
  destruct (processedManualNodes config misubs) as [manual|e]; [|reflexivity].
  simpl.
  rewrite (mapM_total _ (processSub_text config userAgent));
    [|intros; apply processSub_total].
  simpl. unfold all_lines. rewrite content_lines_app, content_lines_join.
  destruct (truthy prependedContent); reflexivity.
Qed.

Lemma manualNodesContent_app a b :
  manualNodesContent (a ++ b) = manualNodesContent a ++ manualNodesContent b.
Proof. unfold manualNodesContent. now rewrite filter_app, flat_map_app. Qed.

Lemma processedManualNodes_skip_http config l1 s l2 :
  is_http s = true ->
  processedManualNodes config (l1 ++ s :: l2)
  = processedManualNodes config (l1 ++ l2).
Proof.
  intros H. unfold processedManualNodes.
  rewrite !manualNodesContent_app.
  replace (manualNodesContent (s :: l2)) with (manualNodesContent l2);
    [reflexivity|].
  unfold manualNodesContent. simpl. now rewrite H.
Qed.

Lemma unique_clean l : Forall clean_line l -> Forall clean_line (unique l).
Proof.
  rewrite unique_first_occurrences, !Forall_forall. intros H x Hx.
  apply H. now apply first_occurrences_In.
Qed.

Lemma all_lines_clean manual contents : Forall clean_line (all_lines manual contents).
Proof.
  unfold all_lines. apply Forall_app. split; [apply content_lines_clean|].
  apply Forall_forall. intros x Hx. apply in_flat_map in Hx as [c [_ Hc]].
  pose proof (content_lines_clean c) as H. rewrite Forall_forall in H. auto.
Qed.

(** C10. Without a summary node, the output is the newline-join of lines
    each of which is non-empty and equal to its own trim; when there is at
    least one line, splitting the output on newlines gives exactly these
    lines back. *)
Theorem output_lines_trimmed_nonempty config userAgent misubs out :
  generateCombinedNodeList config userAgent misubs [] = Ok out ->
  exists lines,
    out = join NL lines
    /\ Forall (fun l => l <> [] /\ trim l = l) lines
    /\ (lines <> [] -> split NL out = lines).
Proof.
  rewrite generateCombinedNodeList_eq.
  destruct (processedManualNodes config misubs) as [manual|e]; [|discriminate].
  simpl. intros H. injection H as <-.
  set (u := unique _).
  assert (Hu : Forall clean_line u)
    by (apply unique_clean, all_lines_clean).
  exists u. split; [reflexivity|]. split.
  - eapply Forall_impl; [|exact Hu]. intros l [H1 [H2 _]]. now split.
  - intros Hne. apply split_join; [assumption|].
    eapply Forall_impl; [|exact Hu]. intros l [_ [_ H3]]. exact H3.
Qed.

(** C4. A subscription whose request fails (time-out, transport error) or
    answers with a non-OK status contributes the empty text, and the whole
    output is the one obtained without that subscription. *)
Theorem failed_source_contributes_nothing
    config userAgent l1 s l2 prependedContent :
  is_http s = true ->
  fetch (sub_url s) userAgent = Failed
  \/ (exists body, fetch (sub_url s) userAgent = Response false body) ->
  processSub config userAgent s = Ok []
  /\ generateCombinedNodeList config userAgent (l1 ++ s :: l2) prependedContent
     = generateCombinedNodeList config userAgent (l1 ++ l2) prependedContent.
Proof.
  intros Hs Hf. pose proof (processSub_failed config _ _ Hf) as Hp.
  split; [exact Hp|].
  rewrite !generateCombinedNodeList_eq, processedManualNodes_skip_http by assumption.
  destruct (processedManualNodes config (l1 ++ l2)) as [manual|e]; [|reflexivity].
  simpl. unfold httpSubs. rewrite !filter_app. simpl. rewrite Hs.
  unfold all_lines. rewrite !map_app, !flat_map_app. simpl.
  replace (processSub_text config userAgent s) with (@nil code_unit)
    by (unfold processSub_text; now rewrite Hp).
  rewrite content_lines_nil. reflexivity.
Qed.

(** C2 (as amended). The lines after the optional summary line are the
    first occurrences, in order, of: the manual lines, then the lines of
    each HTTP subscription in the order of the subscriptions; they contain
    no duplicate.  The summary line is put in front of them as it is. *)
Theorem merged_lines_unique_first_seen
    config userAgent misubs prependedContent out :
  generateCombinedNodeList config userAgent misubs prependedContent = Ok out ->
  exists manual contents,
    processedManualNodes config misubs = Ok manual
    /\ mapM (processSub config userAgent) (httpSubs misubs) = Ok contents
    /\ let u := unique (all_lines manual contents) in
       out = (if truthy prependedContent
              then prependedContent ++ NL :: join NL u
              else join NL u)
       /\ NoDup u
       /\ (forall x, In x u <-> In x (all_lines manual contents))
       /\ u = first_occurrences (all_lines manual contents).
Proof.
  rewrite generateCombinedNodeList_eq.
  destruct (processedManualNodes config misubs) as [manual|e]; [|discriminate].
  simpl. intros H. injection H as <-.
  exists manual, (map (processSub_text config userAgent) (httpSubs misubs)).
  split; [reflexivity|]. split.
  - apply mapM_total. intros; apply processSub_total.
  - simpl. rewrite unique_first_occurrences. repeat split.
    + apply first_occurrences_NoDup.
    + apply first_occurrences_In.
    + apply first_occurrences_In.
Qed.

End Aggregation.

Section NodeNames.

Context {J : JSONImpl}.

Set Default Proof Using "Type".

#[local] Abbreviation json := (JSON JSNumber).

(** ** [prependNodeName] *)

(** C6. A link whose fragment is not valid percent-encoding makes
    [prependNodeName] throw: the URIError of [decodeURIComponent] in
    [appendToFragment] is not caught. *)
Theorem prependNodeName_raises_URIError :
  prependNodeName (lit "ss://abc#%") MANUAL_LABEL = Throw URIError.
Proof. reflexivity. Qed.

Lemma prependNodeName_fragment_error link prefix i e :
  truthy prefix = true ->
  startsWith VMESS link = false ->
  lastIndexOf HASH link = Some i ->
  decodeURIComponent (substring_from (i + 1) link) = Throw e ->
  prependNodeName link prefix = Throw e.
Proof.
  intros Hp Hv Hi He. unfold prependNodeName, appendToFragment.
  now rewrite Hp, Hv, Hi, He.
Qed.

(** ** Laws of [JSON] *)

Definition is_unit (c : code_unit) : bool := (0 <=? c) && (c <? 65536).

(** A JavaScript string: every element is a 16-bit code unit. *)
Definition str_ok (s : jsstring) : Prop := forallb is_unit s = true.

(** A value as [JSON.parse] builds it: strings are strings, and the keys
    of an object are pairwise distinct. *)
Fixpoint json_wf (v : json) : Prop :=
  match v with
  | JString s => str_ok s
  | JArray l =>
      (fix all (l : list json) : Prop :=
         match l with
         | [] => True
         | x :: t => json_wf x /\ all t
         end) l
  | JObject props =>
      NoDup (map fst props)
      /\ (fix all (l : list (jsstring * json)) : Prop :=
            match l with
            | [] => True
            | (k, x) :: t => str_ok k /\ json_wf x /\ all t
            end) props
  | _ => True
  end.

(** What survives a round trip through text at the top of a value: an
    array stays an array, an object stays an object and keeps a string
    stored under [ps]. *)
Definition same_shape (v v' : json) : Prop :=
  match v with
  | JArray _ => exists l', v' = JArray l'
  | JObject props =>
      exists props', v' = JObject props'
        /\ forall s, Props.lookup PS props = Some (JString s) ->
                     Props.lookup PS props' = Some (JString s)
  | _ => True
  end.

(** [JSON.parse] builds well-formed values. *)
Hypothesis JSON_parse_wf :
  forall s v, JSON_parse s = Ok v -> json_wf v.

(** The text of a value never begins with U+FEFF. *)
Hypothesis JSON_stringify_no_bom :
  forall v t, JSON_stringify v <> 65279 :: t.

(** Parsing the text of a value succeeds, and the value obtained has the
    same text and the same shape. *)
Hypothesis JSON_reparse :
  forall v, json_wf v ->
  exists v', JSON_parse (JSON_stringify v) = Ok v'
             /\ JSON_stringify v' = JSON_stringify v
             /\ same_shape v v'.

(** The tail of both [try] blocks: from a value to the vmess link. *)
Definition encode_config (v : json) : result jsstring :=
  enc <- encodeURIComponent (JSON_stringify v) ;;
  newBase64Part <- btoa (unescape enc) ;;
  Ok (VMESS ++ newBase64Part).

(** The head of both [try] blocks: from the vmess link to a value. *)
Definition decode_config (link : jsstring) : result json :=
  binaryString <- atob (substring_from (length VMESS) link) ;;
  JSON_parse (TextDecoder_decode binaryString).

Lemma decode_encode_config v link :
  json_wf v -> encode_config v = Ok link ->
  startsWith VMESS link = true
  /\ exists v', decode_config link = Ok v'
                /\ encode_config v' = Ok link
                /\ same_shape v v'.
Proof using JSON_reparse JSON_stringify_no_bom.
  intros Hwf. unfold encode_config.
  destruct (encodeURIComponent (JSON_stringify v)) as [enc|] eqn:Eenc;
    [|discriminate].
  cbn [bind].
  destruct (btoa (unescape enc)) as [b|] eqn:Eb; [|discriminate].
  cbn [bind]. intros H.
  assert (Hl : link = VMESS ++ b) by congruence. clear H. subst link.
  split; [apply startsWith_app|].
  destruct (JSON_reparse v Hwf) as [v' [Hp [Hs Hshape]]].
  exists v'. split; [|split; [|assumption]].
  - unfold decode_config, substring_from.
    rewrite skipn_app, skipn_all, Nat.sub_diag. cbn [app skipn].
    rewrite (atob_btoa _ _ Eb). cbn [bind].
    rewrite (TextDecoder_decode_utf8 _ _ Eenc (JSON_stringify_no_bom v)).
    exact Hp.
  - rewrite Hs, Eenc. cbn [bind]. now rewrite Eb.
Qed.

Lemma JSON_parse_wf_config link v : decode_config link = Ok v -> json_wf v.
Proof using JSON_parse_wf.
  unfold decode_config. destruct (atob _); [|discriminate]. cbn [bind].
  apply JSON_parse_wf.
Qed.

Lemma normalizeVmessLink_eq link :
  normalizeVmessLink link
  = if negb (startsWith VMESS link) then Ok link
    else try_catch (v <- decode_config link ;; encode_config v)
                   (fun _ => Ok link).
Proof.
  unfold normalizeVmessLink, decode_config, encode_config.
  destruct (negb (startsWith VMESS link)); [reflexivity|].
  destruct (atob _); [|reflexivity]. cbn [bind].
  destruct (JSON_parse _); reflexivity.
Qed.

(** C9. Normalising a normalised link changes nothing, and a link of
    another scheme is returned as it is. *)
Theorem normalizeVmessLink_idempotent link :
  (exists y, normalizeVmessLink link = Ok y /\ normalizeVmessLink y = Ok y)
  /\ (startsWith VMESS link = false -> normalizeVmessLink link = Ok link).
Proof using JSON_parse_wf JSON_reparse JSON_stringify_no_bom.
  split.
  - rewrite normalizeVmessLink_eq.
    destruct (startsWith VMESS link) eqn:Ev; cbn [negb].
    + destruct (decode_config link) as [v|] eqn:Ed; cbn [bind try_catch].
      * destruct (encode_config v) as [y|] eqn:Ee.
        -- exists y. split; [reflexivity|].
           apply JSON_parse_wf_config in Ed.
           destruct (decode_encode_config v y Ed Ee) as [Hy [v' [H1 [H2 _]]]].
           rewrite normalizeVmessLink_eq, Hy, H1. cbn [negb bind].
           now rewrite H2.
        -- exists link. split; [reflexivity|].
           rewrite normalizeVmessLink_eq, Ev, Ed. cbn [negb bind].
           now rewrite Ee.
      * exists link. split; [reflexivity|].
        rewrite normalizeVmessLink_eq, Ev, Ed. reflexivity.
    + exists link. split; [reflexivity|].
      rewrite normalizeVmessLink_eq, Ev. reflexivity.
  - intros Ev. rewrite normalizeVmessLink_eq, Ev. reflexivity.
Qed.

(** *** Well-formed objects *)

Definition props_wf (props : list (jsstring * json)) : Prop :=
  Forall (fun kv => str_ok (fst kv) /\ json_wf (snd kv)) props.

Lemma json_wf_object props :
  json_wf (JObject props) <-> NoDup (map fst props) /\ props_wf props.
Proof.
  cbn [json_wf]. apply and_iff_compat_l. unfold props_wf.
  induction props as [|[k x] t IH].
  - split; [constructor|reflexivity].
  - rewrite IH. split.
    + intros [H1 [H2 H3]]. now constructor.
    + intros H. inversion H as [|? ? [H1 H2] H3]; subst. auto.
Qed.

Lemma lookup_In {V} k (props : list (jsstring * V)) x :
  Props.lookup k props = Some x -> In (k, x) props.
Proof.
  induction props as [|[k' x'] t IH]; simpl; [discriminate|].
  destruct (str_eqb k k') eqn:E.
  - apply str_eqb_eq in E. subst. intros H. injection H as ->. now left.
  - intros H. right. now apply IH.
Qed.

Lemma lookup_assign {V} k (x : V) props :
  Props.lookup k (Props.assign k x props) = Some x.
Proof.
  induction props as [|[k' x'] t IH]; simpl.
  - now rewrite str_eqb_refl.
  - destruct (str_eqb k k') eqn:E; simpl; rewrite E; [reflexivity|exact IH].
Qed.

Lemma assign_keys {V} k (x : V) props k' :
  In k' (map fst (Props.assign k x props)) <-> In k' (map fst props) \/ k' = k.
Proof.
  induction props as [|[k0 x0] t IH]; simpl.
  - intuition.
  - destruct (str_eqb k k0) eqn:E; simpl.
    + apply str_eqb_eq in E. subst. intuition.
    + rewrite IH. intuition.
Qed.

Lemma assign_NoDup {V} k (x : V) props :
  NoDup (map fst props) -> NoDup (map fst (Props.assign k x props)).
Proof.
  induction props as [|[k0 x0] t IH]; simpl; intros H.
  - constructor; [intros []|constructor].
  - inversion H as [|? ? H1 H2]; subst.
    destruct (str_eqb k k0) eqn:E; simpl.
    + now constructor.
    + constructor; [|now apply IH]. rewrite assign_keys. intros [Hin| ->].
      * contradiction.
      * now rewrite str_eqb_refl in E.
Qed.

Lemma assign_wf k x props :
  str_ok k -> json_wf x -> props_wf props ->
  props_wf (Props.assign k x props).
Proof.
  intros Hk Hx. unfold props_wf.
  induction props as [|[k0 x0] t IH]; simpl; intros H.
  - constructor; [now split|constructor].
  - inversion H as [|? ? [H1 H2] H3]; subst.
    destruct (str_eqb k k0); constructor; auto.
Qed.

Lemma str_ok_app a b : str_ok a -> str_ok b -> str_ok (a ++ b).
Proof. unfold str_ok. intros Ha Hb. now rewrite forallb_app, Ha, Hb. Qed.

(** *** The vmess branch *)

(** The renaming of the configuration (source lines 437-440). *)
Definition rename_config (nodeConfig : json) (prefix : jsstring) : result json :=
  ps <- get_ps nodeConfig ;;
  originalPs <- string_receiver (or_empty ps) ;;
  if negb (startsWith prefix originalPs) then
    set_ps nodeConfig
      (if truthy originalPs then prefix ++ DASH ++ originalPs else prefix)
  else Ok nodeConfig.

Lemma prependNodeName_vmess_eq link prefix :
  prependNodeName_vmess link prefix
  = nodeConfig <- decode_config link ;;
    nodeConfig' <- rename_config nodeConfig prefix ;;
    encode_config nodeConfig'.
Proof.
  unfold prependNodeName_vmess, decode_config, rename_config, encode_config.
  destruct (atob _); [|reflexivity]. cbn [bind].
  destruct (JSON_parse _) as [v|]; [|reflexivity]. cbn [bind].
  destruct (get_ps v) as [ps|]; [|reflexivity]. cbn [bind].
  destruct (string_receiver _) as [s|]; [|reflexivity]. cbn [bind].
  reflexivity.
Qed.

(** A configuration whose display name, if it can carry one, starts with
    the prefix. *)
Definition named (prefix : jsstring) (v : json) : Prop :=
  match v with
  | JArray _ => True
  | JObject props =>
      exists s, Props.lookup PS props = Some (JString s)
                /\ startsWith prefix s = true
  | _ => False
  end.

Lemma startsWith_nil p : truthy p = true -> startsWith p [] = false.
Proof. destruct p; [discriminate|reflexivity]. Qed.

Lemma set_ps_named v prefix x v1 :
  str_ok x -> startsWith prefix x = true -> json_wf v ->
  set_ps v x = Ok v1 -> json_wf v1 /\ named prefix v1.
Proof.
  intros Hx Hs Hwf. destruct v; cbn [set_ps]; try discriminate.
  - intros H. injection H as <-. split; [exact Hwf|exact I].
  - intros H. injection H as <-. apply json_wf_object in Hwf as [H1 H2]. split.
    + apply json_wf_object. split; [now apply assign_NoDup|].
      apply assign_wf; [reflexivity|exact Hx|exact H2].
    + exists x. split; [apply lookup_assign|exact Hs].
Qed.

Lemma rename_config_named v prefix v1 :
  truthy prefix = true -> str_ok prefix -> json_wf v ->
  rename_config v prefix = Ok v1 -> json_wf v1 /\ named prefix v1.
Proof.
  intros Hp Hok Hwf. unfold rename_config.
  destruct (get_ps v) as [ps|] eqn:Eps; [|discriminate]. cbn [bind].
  destruct (string_receiver (or_empty ps)) as [s|] eqn:Es; [|discriminate].
  cbn [bind].
  assert (Hs : str_ok s /\ (s = [] \/ exists props,
                 v = JObject props /\ Props.lookup PS props = Some (JString s))).
  { destruct ps as [x|]; cbn [or_empty] in Es.
    - destruct (ToBoolean (Some x)) eqn:Et.
      + destruct x; try discriminate. injection Es as ->.
        destruct v; try discriminate. cbn [get_ps] in Eps. injection Eps as Eps.
        split; [|right; eauto].
        apply json_wf_object in Hwf as [_ Hwf].
        apply lookup_In in Eps. unfold props_wf in Hwf.
        rewrite Forall_forall in Hwf. exact (proj2 (Hwf _ Eps)).
      + injection Es as <-. split; [reflexivity|now left].
    - injection Es as <-. split; [reflexivity|now left]. }
  destruct Hs as [Hsok Hs].
  destruct (startsWith prefix s) eqn:Esw; cbn [negb].
  - intros H. injection H as <-. split; [exact Hwf|].
    destruct Hs as [->|[props [-> Hl]]].
    + now rewrite startsWith_nil in Esw.
    + exists s. now split.
  - apply set_ps_named; [| |exact Hwf].
    + destruct (truthy s); [|exact Hok].
      apply str_ok_app; [exact Hok|]. apply str_ok_app; [reflexivity|exact Hsok].
    + destruct (truthy s); [apply startsWith_app|apply startsWith_refl].
Qed.

Lemma rename_config_fixed v prefix :
  truthy prefix = true -> named prefix v -> rename_config v prefix = Ok v.
Proof.
  intros Hp Hn. unfold rename_config. destruct v; try contradiction.
  - cbn [get_ps bind or_empty string_receiver].
    now rewrite (startsWith_nil prefix Hp).
  - destruct Hn as [s [Hl Hs]]. cbn [get_ps bind]. rewrite Hl.
    assert (Ht : truthy s = true).
    { destruct s; [|reflexivity]. now rewrite startsWith_nil in Hs. }
    cbn [or_empty ToBoolean]. rewrite Ht. cbn [string_receiver bind].
    now rewrite Hs.
Qed.

Lemma named_same_shape prefix v v' :
  named prefix v -> same_shape v v' -> named prefix v'.
Proof.
  destruct v; try contradiction; cbn [named same_shape].
  - intros _ [l' ->]. exact I.
  - intros [s [Hl Hs]] [props' [-> H]]. exists s. split; [now apply H|exact Hs].
Qed.

Lemma prependNodeName_vmess_idempotent link prefix r :
  truthy prefix = true -> str_ok prefix ->
  prependNodeName_vmess link prefix = Ok r ->
  startsWith VMESS r = true /\ prependNodeName_vmess r prefix = Ok r.
Proof using JSON_parse_wf JSON_reparse JSON_stringify_no_bom.
  intros Hp Hok. rewrite !prependNodeName_vmess_eq.
  destruct (decode_config link) as [v|] eqn:Ed; [|discriminate]. cbn [bind].
  destruct (rename_config v prefix) as [v1|] eqn:Er; [|discriminate]. cbn [bind].
  intros He.
  destruct (rename_config_named v prefix v1 Hp Hok
              (JSON_parse_wf_config _ _ Ed) Er) as [Hwf Hn].
  destruct (decode_encode_config v1 r Hwf He) as [Hr [v' [H1 [H2 Hsh]]]].
  split; [exact Hr|]. rewrite H1. cbn [bind].
  rewrite (rename_config_fixed v' prefix Hp (named_same_shape _ _ _ Hn Hsh)).
  exact H2.
Qed.

Lemma prependNodeName_vmess_hash base enc prefix :
  startsWith VMESS base = true ->
  exists e, prependNodeName_vmess (base ++ HASH :: enc) prefix = Throw e.
Proof.
  intros Hb. unfold prependNodeName_vmess, substring_from.
  apply startsWith_length in Hb.
  rewrite skipn_app.
  replace (length VMESS - length base)%nat with 0%nat by lia. cbn [skipn].
  rewrite atob_hash; [eexists; reflexivity|].
  apply in_or_app. right. now left.
Qed.

(** C8. With a non-empty prefix, prefixing a prefixed line returns it as
    it is; a line whose fragment already starts with the prefix is
    returned unchanged, and a vmess configuration whose [ps] already
    starts with the prefix is serialised unchanged. *)
Theorem prependNodeName_idempotent link prefix :
  truthy prefix = true -> str_ok prefix ->
  (r <- prependNodeName link prefix ;; prependNodeName r prefix)
  = prependNodeName link prefix
  /\ (forall i name,
        startsWith VMESS link = false ->
        lastIndexOf HASH link = Some i ->
        decodeURIComponent (substring_from (i + 1) link) = Ok name ->
        startsWith prefix name = true ->
        prependNodeName link prefix = Ok link)
  /\ (forall props s r,
        startsWith VMESS link = true ->
        decode_config link = Ok (JObject props) ->
        Props.lookup PS props = Some (JString s) ->
        startsWith prefix s = true ->
        encode_config (JObject props) = Ok r ->
        prependNodeName link prefix = Ok r).
Proof using JSON_parse_wf JSON_reparse JSON_stringify_no_bom.
  intros Hp Hok. split; [|split].
  - unfold prependNodeName at 1 3. rewrite Hp. cbn [negb].
    destruct (startsWith VMESS link) eqn:Ev.
    + destruct (prependNodeName_vmess link prefix) as [r|e] eqn:E1;
        cbn [try_catch].
      * cbn [bind].
        destruct (prependNodeName_vmess_idempotent _ _ _ Hp Hok E1) as [Hr H2].
        unfold prependNodeName. rewrite Hp, Hr, H2. reflexivity.
      * destruct (appendToFragment link prefix) as [r|e'] eqn:E2;
          [|reflexivity].
        cbn [bind]. unfold prependNodeName. rewrite Hp. cbn [negb].
        pose proof (appendToFragment_scheme _ _ _ E2) as Hs. rewrite Ev in Hs.
        rewrite Hs.
        assert (Hthrow : exists e0, prependNodeName_vmess r prefix = Throw e0).
        { destruct (appendToFragment_result _ _ _ E2)
            as [->|base n enc -> He Hsw _]; [eauto|].
          apply prependNodeName_vmess_hash.
          rewrite startsWith_before in Hs; [exact Hs|].
          cbv; intuition discriminate. }
        destruct Hthrow as [e0 ->]. cbn [try_catch].
        exact (appendToFragment_idempotent _ _ _ E2).
    + destruct (appendToFragment link prefix) as [r|e'] eqn:E2; [|reflexivity].
      cbn [bind]. unfold prependNodeName. rewrite Hp. cbn [negb].
      pose proof (appendToFragment_scheme _ _ _ E2) as Hs. rewrite Ev in Hs.
      rewrite Hs. exact (appendToFragment_idempotent _ _ _ E2).
  - intros i name Ev Hi Hd Hs. unfold prependNodeName, appendToFragment.
    rewrite Hp, Ev, Hi, Hd. cbn [negb bind]. now rewrite Hs.
  - intros props s r Ev Hd Hl Hs He. unfold prependNodeName.
    rewrite Hp, Ev, prependNodeName_vmess_eq, Hd. cbn [negb bind].
    rewrite rename_config_fixed; [|exact Hp|exists s; now split].
    cbn [bind]. now rewrite He.
Qed.

End NodeNames.

(** ** The filter *)

(** The scheme of a line in the words of the specification: the text
    before the first ["://"], lower-cased ([''] when there is none). *)
Fixpoint before_separator (s : jsstring) : option jsstring :=
  if startsWith (lit "://") s then Some []
  else match s with
       | [] => None
       | c :: t => option_map (cons c) (before_separator t)
       end.

Definition scheme_of (line : jsstring) : jsstring :=
  match before_separator line with
  | Some p => toLowerCase p
  | None => []
  end.

Definition plain_unit (c : code_unit) : bool :=
  negb (c =? 58) && negb (is_line_terminator c).

Lemma startsWith_separator_head c x :
  (c =? 58) = false -> startsWith (lit "://") (c :: x) = false.
Proof.
  intros H. change (lit "://") with [58; 47; 47]. cbn [startsWith].
  now rewrite Z.eqb_sym, H.
Qed.

Lemma match_protocol_scheme sch rest :
  forallb plain_unit sch = true ->
  match_protocol (sch ++ lit "://" ++ rest) = Some sch
  /\ before_separator (sch ++ lit "://" ++ rest) = Some sch.
Proof.
  induction sch as [|c t IH]; intros H; [split; reflexivity|].
  cbn [forallb] in H. apply andb_true_iff in H as [Hc Ht].
  unfold plain_unit in Hc. apply andb_true_iff in Hc as [Hc1 Hc2].
  apply negb_true_iff in Hc1, Hc2.
  destruct (IH Ht) as [IH1 IH2].
  cbn [app match_protocol before_separator].
  rewrite (startsWith_separator_head c _ Hc1).
  now rewrite Hc2, IH1, IH2.
Qed.

Lemma nodeRegex_test_scheme line :
  nodeRegex_test line = true ->
  exists sch rest, In sch schemes /\ line = sch ++ lit "://" ++ rest.
Proof.
  unfold nodeRegex_test. rewrite existsb_exists. intros [sch [Hin Hs]].
  apply startsWith_prefix in Hs as [rest ->].
  exists sch, rest. split; [assumption|]. now rewrite <- app_assoc.
Qed.

(** On a line accepted by [nodeRegex], the protocol read by the filter is
    the scheme of the specification. *)
Lemma protocol_of_valid line :
  nodeRegex_test line = true -> protocol_of line = scheme_of line.
Proof.
  intros H. destruct (nodeRegex_test_scheme line H) as [sch [rest [Hin ->]]].
  assert (Hp : forallb plain_unit sch = true).
  { clear H. revert sch Hin. apply Forall_forall. repeat constructor. }
  destruct (match_protocol_scheme sch rest Hp) as [H1 H2].
  unfold protocol_of, scheme_of. now rewrite H1, H2.
Qed.

Section Filter.

Context {R : RegExpImpl}.

Set Default Proof Using "Type".

(** The rules of an exclude text: its non-empty trimmed lines. *)
Definition rules_of (exclude : jsstring) : list jsstring :=
  filter truthy (map trim (split NL (trim exclude))).

Definition is_keep_rule (r : jsstring) : bool :=
  startsWith KEEP (toLowerCase r).

(** A [keep:] rule without its prefix. *)
Definition keep_content (rule : jsstring) : jsstring :=
  trim (substring_from (length KEEP) rule).

(** Deny-list mode in the words of the specification. *)
Definition deny_dropped (excluded : list jsstring) (nameRegex : option regex)
    (line : jsstring) : bool :=
  set_has excluded (scheme_of line) || name_matches nameRegex line.

(** Allow-list mode in the words of the specification. *)
Definition allow_kept (kept : list jsstring) (nameRegex : option regex)
    (line : jsstring) : bool :=
  set_has kept (scheme_of line) || name_matches nameRegex line.

Lemma trim_nil : trim [] = [].
Proof. reflexivity. Qed.

Lemma applyExclude_guard exclude :
  trim exclude <> [] ->
  truthy exclude && negb (str_eqb (trim exclude) []) = true.
Proof.
  intros H. apply andb_true_iff. split.
  - destruct exclude; [now rewrite trim_nil in H|reflexivity].
  - apply negb_true_iff. now apply str_eqb_neq.
Qed.

Lemma filter_nil_length {A} (f : A -> bool) l :
  (0 <? length (filter f l))%nat = false <-> Forall (fun x => f x = false) l.
Proof.
  rewrite Nat.ltb_ge. split.
  - intros H. apply Forall_forall. intros x Hx.
    destruct (f x) eqn:E; [|reflexivity].
    assert (Hin : In x (filter f l)) by (apply filter_In; now split).
    destruct (filter f l); [destruct Hin|simpl in H; lia].
  - intros H. rewrite Forall_forall in H.
    destruct (filter f l) as [|y t] eqn:E; [simpl; lia|].
    assert (Hy : In y (filter f l)) by (rewrite E; now left).
    apply filter_In in Hy as [Hy1 Hy2]. rewrite (H _ Hy1) in Hy2. discriminate.
Qed.

(** C7 (as amended). Without a [keep:] rule, and when the joined name
    rules compile, a valid line is dropped iff its scheme is in the
    excluded set or its decoded fragment matches the name regex.  With the
    text ["proto:ss,ssr"] exactly the ss and ssr lines are dropped. *)
Theorem deny_list_filter exclude validNodes nameRegex :
  Forall (fun line => nodeRegex_test line = true) validNodes ->
  trim exclude <> [] ->
  Forall (fun r => is_keep_rule r = false) (rules_of exclude) ->
  compile_names (filter (fun r => negb (is_proto_rule r)) (rules_of exclude))
  = Ok nameRegex ->
  applyExclude exclude validNodes
  = Ok (filter (fun line =>
                  negb (deny_dropped
                          (flat_map protocols_of
                             (filter is_proto_rule (rules_of exclude)))
                          nameRegex line))
               validNodes)
  /\ applyExclude (lit "proto:ss,ssr") validNodes
     = Ok (filter (fun line =>
                     negb (str_eqb (scheme_of line) (lit "ss")
                           || str_eqb (scheme_of line) (lit "ssr")))
                  validNodes).
Proof.
  intros Hvalid Hne Hkeep Hre.
  rewrite Forall_forall in Hvalid. split.
  - unfold applyExclude. rewrite (applyExclude_guard _ Hne).
    fold (rules_of exclude). fold is_keep_rule.
    rewrite (proj2 (filter_nil_length is_keep_rule (rules_of exclude)) Hkeep).
    rewrite Hre. cbn [bind]. f_equal. apply filter_ext_in. intros line Hin.
    unfold deny_dropped. rewrite (protocol_of_valid line (Hvalid _ Hin)).
    destruct (set_has _ (scheme_of line)); [reflexivity|].
    destruct (name_matches nameRegex line); reflexivity.
  - unfold applyExclude.
    change (truthy (lit "proto:ss,ssr")
            && negb (str_eqb (trim (lit "proto:ss,ssr")) [])) with true.
    cbv iota.
    change (filter truthy (map trim (split NL (trim (lit "proto:ss,ssr")))))
      with [lit "proto:ss,ssr"].
    change (filter (fun r => startsWith KEEP (toLowerCase r)) [lit "proto:ss,ssr"])
      with (@nil jsstring).
    cbn [length Nat.ltb Nat.leb].
    change (flat_map protocols_of (filter is_proto_rule [lit "proto:ss,ssr"]))
      with [lit "ss"; lit "ssr"].
    change (filter (fun r => negb (is_proto_rule r)) [lit "proto:ss,ssr"])
      with (@nil jsstring).
    cbn [compile_names length Nat.ltb Nat.leb bind].
    f_equal. apply filter_ext_in. intros line Hin.
    rewrite (protocol_of_valid line (Hvalid _ Hin)).
    unfold name_matches, set_has. cbn [existsb]. rewrite orb_false_r.
    destruct (str_eqb (scheme_of line) (lit "ss")); [reflexivity|].
    destruct (str_eqb (scheme_of line) (lit "ssr")); reflexivity.
Qed.

(** C1 (as amended). With at least one [keep:] rule, only the [keep:]
    rules count: among their contents, those starting with [proto:] give
    the kept schemes and the others are OR-joined into the name regex.
    When that pattern compiles, a valid line is kept iff its scheme is
    kept or its decoded fragment matches; when it does not compile, the
    filter throws. *)
Theorem allow_list_filter exclude validNodes :
  Forall (fun line => nodeRegex_test line = true) validNodes ->
  trim exclude <> [] ->
  filter is_keep_rule (rules_of exclude) <> [] ->
  let contents := map keep_content (filter is_keep_rule (rules_of exclude)) in
  let kept := flat_map protocols_of (filter is_proto_rule contents) in
  let names := filter (fun c => negb (is_proto_rule c)) contents in
  (forall nameRegex,
     compile_names names = Ok nameRegex ->
     applyExclude exclude validNodes
     = Ok (filter (allow_kept kept nameRegex) validNodes))
  /\ (forall e, compile_names names = Throw e ->
                applyExclude exclude validNodes = Throw e).
Proof.
  intros Hvalid Hne Hkeep contents kept names.
  rewrite Forall_forall in Hvalid.
  assert (Hlen : (0 <? length (filter is_keep_rule (rules_of exclude)))%nat = true).
  { destruct (filter is_keep_rule (rules_of exclude)); [contradiction|reflexivity]. }
  split.
  - intros nameRegex Hre. unfold applyExclude.
    rewrite (applyExclude_guard _ Hne).
    fold (rules_of exclude). fold is_keep_rule. rewrite Hlen.
    fold keep_content. fold contents. fold names. rewrite Hre. cbn [bind].
    f_equal. apply filter_ext_in. intros line Hin.
    unfold allow_kept. rewrite (protocol_of_valid line (Hvalid _ Hin)).
    fold kept. destruct (set_has kept (scheme_of line)); [reflexivity|].
    destruct (name_matches nameRegex line); reflexivity.
  - intros e Hre. unfold applyExclude.
    rewrite (applyExclude_guard _ Hne).
    fold (rules_of exclude). fold is_keep_rule. rewrite Hlen.
    fold keep_content. fold contents. fold names. now rewrite Hre.
Qed.

End Filter.


(** ** The reference [JSON] satisfies the laws *)

Module RefJSONFacts.

Import RefJSON.

#[local] Existing Instance RefJSON.impl.

(** *** Induction on values *)

Section Induction.

Variable P : JSON Z -> Prop.
Hypothesis Pnull : P JNull.
Hypothesis Pbool : forall b, P (JBool b).
Hypothesis Pnumber : forall n, P (JNumber n).
Hypothesis Pstring : forall s, P (JString s).
Hypothesis Parray : forall l, Forall P l -> P (JArray l).
Hypothesis Pobject :
  forall props, Forall (fun kv => P (snd kv)) props -> P (JObject props).

Fixpoint value_ind (v : JSON Z) : P v :=
  match v with
  | JNull => Pnull
  | JBool b => Pbool b
  | JNumber n => Pnumber n
  | JString s => Pstring s
  | JArray l =>
      Parray l
        ((fix go (l : list (JSON Z)) : Forall P l :=
            match l with
            | [] => Forall_nil P
            | x :: t => Forall_cons x (value_ind x) (go t)
            end) l)
  | JObject props =>
      Pobject props
        ((fix go (l : list (jsstring * JSON Z))
            : Forall (fun kv => P (snd kv)) l :=
            match l with
            | [] => Forall_nil _
            | kv :: t => Forall_cons kv (value_ind (snd kv)) (go t)
            end) props)
  end.

End Induction.

Lemma json_wf_array (l : list (JSON Z)) :
  json_wf (JArray l) <-> Forall json_wf l.
Proof.
  cbn [json_wf]. induction l as [|x t IH].
  - split; [constructor|reflexivity].
  - rewrite IH. split.
    + intros [H1 H2]. now constructor.
    + intros H. inversion H; subst. auto.
Qed.

(** *** Strings *)

Definition raw_unit (c : code_unit) : Prop :=
  32 <= c < 65536 /\ c <> 34 /\ c <> 92.

Lemma parse_string_raw c t acc :
  raw_unit c -> parse_string (c :: t) acc = parse_string t (acc ++ [c]).
Proof.
  intros [H1 [H2 H3]]. cbn [parse_string].
  replace (c =? 34) with false by lia. replace (c =? 92) with false by lia.
  replace (c <? 32) with false by lia. reflexivity.
Qed.

Lemma hex_value_lower n : 0 <= n < 16 -> hex_value (hex_lower n) = Some n.
Proof.
  intros H. unfold hex_lower. case_if; unfold hex_value; repeat case_if;
    try (f_equal; lia); lia.
Qed.

Lemma parse_string_escape c t acc :
  0 <= c < 65536 ->
  parse_string (unicode_escape c ++ t) acc = parse_string t (acc ++ [c]).
Proof.
  intros H. unfold unicode_escape. cbn [app parse_string].
  cbn [Z.eqb Pos.eqb]. unfold hex4, hex2.
  rewrite !hex_value_lower by lia.
  replace ((c / 4096 * 16 + c / 256 mod 16) * 256 + (c / 16 mod 16 * 16 + c mod 16))
    with c by lia.
  reflexivity.
Qed.

Lemma parse_string_quote_unit c t acc :
  0 <= c < 65536 ->
  is_high_surrogate c = false -> is_low_surrogate c = false ->
  parse_string (quote_unit c ++ t) acc = parse_string t (acc ++ [c]).
Proof.
  intros H Hh Hl. unfold quote_unit.
  repeat case_if;
    repeat match goal with
           | E : (_ =? _) = true |- _ => apply Z.eqb_eq in E; subst
           end;
    try reflexivity.
  - now apply parse_string_escape.
  - apply parse_string_raw. unfold raw_unit. lia.
Qed.

Lemma str_ok_cons c t : str_ok (c :: t) <-> 0 <= c < 65536 /\ str_ok t.
Proof.
  unfold str_ok. cbn [forallb]. rewrite andb_true_iff.
  assert (H : is_unit c = true <-> 0 <= c < 65536) by (unfold is_unit; lia).
  rewrite H. reflexivity.
Qed.

Lemma parse_string_quote_units_aux n :
  forall s acc rest, (length s <= n)%nat -> str_ok s ->
  parse_string (quote_units s ++ 34 :: rest) acc = Ok (acc ++ s, rest).
Proof.
  induction n as [|n IH]; intros s acc rest Hlen Hok.
  - destruct s; [|simpl in Hlen; lia]. cbn [quote_units app parse_string].
    now rewrite Z.eqb_refl, app_nil_r.
  - destruct s as [|c t].
    { cbn [quote_units app parse_string]. now rewrite Z.eqb_refl, app_nil_r. }
    apply str_ok_cons in Hok as [Hc Ht]. cbn [length] in Hlen.
    cbn [quote_units].
    destruct (is_high_surrogate c) eqn:Eh.
    + destruct t as [|d t'].
      * rewrite parse_string_escape by lia. cbn [parse_string].
        now rewrite Z.eqb_refl.
      * apply str_ok_cons in Ht as [Hd Ht']. cbn [length] in Hlen.
        destruct (is_low_surrogate d) eqn:El.
        -- cbn [app].
           unfold is_high_surrogate in Eh. unfold is_low_surrogate in El.
           rewrite parse_string_raw by (unfold raw_unit; lia).
           rewrite parse_string_raw by (unfold raw_unit; lia).
           rewrite IH by (assumption || lia).
           now rewrite <- !app_assoc.
        -- rewrite <- app_assoc, parse_string_escape by lia.
           rewrite IH; [now rewrite <- app_assoc| cbn [length]; lia|].
           apply str_ok_cons. now split.
    + destruct (is_low_surrogate c) eqn:El.
      * rewrite <- app_assoc, parse_string_escape by lia.
        rewrite IH by (assumption || lia). now rewrite <- app_assoc.
      * rewrite <- app_assoc, parse_string_quote_unit by (assumption || lia).
        rewrite IH by (assumption || lia). now rewrite <- app_assoc.
Qed.

Lemma parse_string_quote s rest :
  str_ok s -> parse_string (quote_units s ++ 34 :: rest) [] = Ok (s, rest).
Proof. intros H. now apply (parse_string_quote_units_aux (length s)). Qed.

(** *** Numbers *)

Definition is_digit (c : code_unit) : bool := (48 <=? c) && (c <=? 57).

(** What may follow a value in a printed text. *)
Definition stop (rest : jsstring) : Prop :=
  match rest with
  | [] => True
  | c :: _ => c = 44 \/ c = 93 \/ c = 125
  end.

Lemma parse_digits_digits d rest :
  stop rest -> parse_digits (digits d ++ rest) = (d, rest).
Proof.
  intros Hs. induction d; cbn [digits app parse_digits digit_of Z.eqb Pos.eqb];
    try (rewrite IHd; reflexivity).
  destruct rest as [|c t]; [reflexivity|]. cbn [parse_digits].
  unfold digit_of. cbn [stop] in Hs.
  repeat case_if; try reflexivity; lia.
Qed.

Lemma nzhead_not_D0 u w : Decimal.nzhead u <> Decimal.D0 w.
Proof. induction u; cbn [Decimal.nzhead]; try discriminate. exact IHu. Qed.

Lemma to_uint_head p w : Pos.to_uint p <> Decimal.D0 w.
Proof.
  intros H.
  pose proof (DecimalPos.Unsigned.to_of (Pos.to_uint p)) as E.
  rewrite DecimalPos.Unsigned.of_to in E. cbn [N.to_uint] in E.
  rewrite H in E. unfold Decimal.unorm in E. cbn [Decimal.nzhead] in E.
  destruct (Decimal.nzhead w) eqn:Ew;
    try (symmetry in E; rewrite <- Ew in E; exact (nzhead_not_D0 _ _ E)).
  injection E as ->. apply (DecimalPos.Unsigned.to_uint_nonzero p). exact H.
Qed.

Lemma integer_end_stop rest : stop rest -> integer_end rest = true.
Proof.
  destruct rest as [|c t]; [reflexivity|]. cbn [stop integer_end]. lia.
Qed.

Lemma parse_unsigned_to_uint p rest :
  stop rest ->
  parse_unsigned (digits (Pos.to_uint p) ++ rest) = Ok (Pos.to_uint p, rest).
Proof.
  intros Hs. unfold parse_unsigned. rewrite (parse_digits_digits _ _ Hs).
  rewrite (integer_end_stop _ Hs).
  pose proof (DecimalPos.Unsigned.to_uint_nonnil p) as Hn.
  pose proof (to_uint_head p) as Hh.
  destruct (Pos.to_uint p) as [|u|u|u|u|u|u|u|u|u|u]; try reflexivity.
  - contradiction.
  - exfalso. exact (Hh u eq_refl).
Qed.

Lemma digits_range d : Forall (fun c => 48 <= c <= 57) (digits d).
Proof. induction d; cbn [digits]; constructor; (lia || assumption). Qed.

Lemma Number_toString_range z :
  Forall (fun c => 45 <= c <= 57) (Number_toString z).
Proof.
  unfold Number_toString.
  destruct (Z.to_int z) as [d|d]; [|constructor; [lia|]];
    (eapply Forall_impl; [|apply digits_range]); cbn beta; lia.
Qed.

Lemma Number_toString_nonempty z : Number_toString z <> [].
Proof.
  unfold Number_toString. destruct z as [|p|p]; cbn [Z.to_int].
  - discriminate.
  - pose proof (DecimalPos.Unsigned.to_uint_nonnil p).
    destruct (Pos.to_uint p); (contradiction || discriminate).
  - discriminate.
Qed.

Lemma parse_number_toString z rest :
  stop rest -> parse_number (Number_toString z ++ rest) = Ok (z, rest).
Proof.
  intros Hs. unfold Number_toString. destruct z as [|p|p]; cbn [Z.to_int].
  - cbn [digits app parse_number Z.eqb].
    unfold parse_unsigned.
    change (48 :: rest) with (digits (Decimal.D0 Decimal.Nil) ++ rest).
    rewrite (parse_digits_digits _ _ Hs), (integer_end_stop _ Hs). reflexivity.
  - pose proof (DecimalPos.Unsigned.to_uint_nonnil p) as Hn.
    pose proof (digits_range (Pos.to_uint p)) as Hr.
    destruct (digits (Pos.to_uint p)) as [|c t] eqn:E.
    { destruct (Pos.to_uint p); (contradiction || discriminate). }
    cbn [app parse_number]. inversion Hr; subst.
    replace (c =? 45) with false by lia.
    change (c :: t ++ rest) with ((c :: t) ++ rest). rewrite <- E.
    rewrite (parse_unsigned_to_uint _ _ Hs). cbn [bind fst snd].
    f_equal. f_equal. exact (DecimalZ.of_to (Z.pos p)).
  - cbn [app parse_number Z.eqb Pos.eqb].
    rewrite (parse_unsigned_to_uint _ _ Hs). cbn [bind fst snd].
    f_equal. f_equal. exact (DecimalZ.of_to (Z.neg p)).
Qed.

(** *** Values *)

Definition cost_list (cost : JSON Z -> nat) (l : list (JSON Z)) : nat :=
  fold_right (fun x n => S (cost x + n)) O l.

Definition cost_props (cost : JSON Z -> nat) (l : list (jsstring * JSON Z)) : nat :=
  fold_right (fun kv n => S (cost (snd kv) + n)) O l.

(** The fuel [parse_value] needs for the text of a value. *)
Fixpoint cost (v : JSON Z) : nat :=
  match v with
  | JArray l =>
      S ((fix go (l : list (JSON Z)) : nat :=
            match l with
            | [] => O
            | x :: t => S (cost x + go t)
            end) l)
  | JObject props =>
      S ((fix go (l : list (jsstring * JSON Z)) : nat :=
            match l with
            | [] => O
            | kv :: t => S (cost (snd kv) + go t)
            end) props)
  | _ => O
  end.

Lemma cost_array l : cost (JArray l) = S (cost_list cost l).
Proof.
  reflexivity.
Qed.

Lemma cost_object props : cost (JObject props) = S (cost_props cost props).
Proof.
  reflexivity.
Qed.

Definition member (kv : jsstring * JSON Z) : jsstring :=
  quote (fst kv) ++ 58 :: stringify (snd kv).

Lemma stringify_array l :
  stringify (JArray l) = 91 :: join COMMA (map stringify l) ++ [93].
Proof. reflexivity. Qed.

Lemma stringify_object props :
  stringify (JObject props) = 123 :: join COMMA (map member props) ++ [125].
Proof. reflexivity. Qed.

(** The first character of a printed value. *)
Definition opening (c : code_unit) : Prop :=
  c = 110 \/ c = 116 \/ c = 102 \/ c = 34 \/ c = 91 \/ c = 123 \/ 45 <= c <= 57.

Lemma stringify_opening v : exists c t, stringify v = c :: t /\ opening c.
Proof.
  destruct v as [| b | n | s | l | props].
  - exists 110, [117; 108; 108]. split; [reflexivity|unfold opening; lia].
  - destruct b.
    + exists 116, [114; 117; 101]. split; [reflexivity|unfold opening; lia].
    + exists 102, [97; 108; 115; 101]. split; [reflexivity|unfold opening; lia].
  - pose proof (Number_toString_range n) as Hr.
    pose proof (Number_toString_nonempty n) as Hn.
    cbn [stringify]. destruct (Number_toString n) as [|c t]; [contradiction|].
    inversion Hr; subst. exists c, t. split; [reflexivity|].
    unfold opening. lia.
  - exists 34, (quote_units s ++ [34]). split; [reflexivity|unfold opening; lia].
  - exists 91, (join COMMA (map stringify l) ++ [93]).
    split; [reflexivity|unfold opening; lia].
  - exists 123, (join COMMA (map member props) ++ [125]).
    split; [reflexivity|unfold opening; lia].
Qed.

Lemma skip_space_head c t :
  is_json_space c = false -> skip_space (c :: t) = c :: t.
Proof. intros H. cbn [skip_space]. now rewrite H. Qed.

Lemma opening_not_space c : opening c -> is_json_space c = false.
Proof. unfold opening, is_json_space. lia. Qed.

Lemma stop_not_space rest :
  stop rest -> skip_space rest = rest.
Proof.
  destruct rest as [|c t]; [reflexivity|]. cbn [stop]. intros H.
  apply skip_space_head. unfold is_json_space. lia.
Qed.

Lemma parse_value_string f s rest :
  str_ok s -> parse_value (S f) (quote s ++ rest) = Ok (JString s, rest).
Proof.
  intros H. unfold quote. cbn [app parse_value skip_space is_json_space Z.eqb
                                 Pos.eqb orb].
  rewrite <- app_assoc. cbn [app]. now rewrite (parse_string_quote s rest H).
Qed.

Lemma parse_value_number f n rest :
  stop rest ->
  parse_value (S f) (Number_toString n ++ rest) = Ok (JNumber n, rest).
Proof.
  intros Hs. pose proof (parse_number_toString n rest Hs) as Hp.
  pose proof (Number_toString_range n) as Hr.
  pose proof (Number_toString_nonempty n) as Hn.
  destruct (Number_toString n) as [|c t]; [contradiction|].
  inversion Hr; subst. cbn [app] in *. cbn [parse_value].
  rewrite skip_space_head by (unfold is_json_space; lia).
  replace (c =? 123) with false by lia. replace (c =? 91) with false by lia.
  replace (c =? 34) with false by lia.
  change (lit "true"%string) with [116; 114; 117; 101].
  change (lit "false"%string) with [102; 97; 108; 115; 101].
  change (lit "null"%string) with [110; 117; 108; 108].
  cbn [startsWith].
  replace (116 =? c) with false by lia. replace (102 =? c) with false by lia.
  replace (110 =? c) with false by lia. cbn [andb].
  now rewrite Hp.
Qed.

Definition parses (v : JSON Z) : Prop :=
  json_wf v ->
  forall f rest, (cost v < f)%nat -> stop rest ->
  parse_value f (stringify v ++ rest) = Ok (v, rest).

Lemma parse_elements_printed l :
  Forall parses l -> Forall json_wf l -> l <> [] ->
  forall f acc rest,
    (cost_list cost l < f)%nat ->
    parse_elements f (join COMMA (map stringify l) ++ 93 :: rest) acc
    = Ok (JArray (acc ++ l), rest).
Proof.
  induction 1 as [|x t Hx Ht IH]; intros Hwf Hne f acc rest Hf; [contradiction|].
  inversion Hwf as [|? ? Hwx Hwt]; subst.
  cbn [cost_list fold_right] in Hf. fold (cost_list cost t) in Hf.
  destruct f as [|f]; [lia|]. cbn [parse_elements].
  destruct t as [|y t'].
  - cbn [map join].
    rewrite (Hx Hwx f (93 :: rest)) by (lia || (cbn [stop]; lia)).
    cbn [bind fst snd]. rewrite skip_space_head by reflexivity.
    reflexivity.
  - change (join COMMA (map stringify (x :: y :: t')))
      with (stringify x ++ COMMA :: join COMMA (map stringify (y :: t'))).
    rewrite <- app_assoc. cbn [app].
    rewrite (Hx Hwx f) by (lia || (cbn [stop]; unfold COMMA; lia)).
    cbn [bind fst snd]. rewrite skip_space_head by reflexivity.
    change (COMMA =? 44) with true. cbv iota.
    rewrite IH by (assumption || discriminate || lia).
    now rewrite <- app_assoc.
Qed.

Lemma assign_fresh {V} k (x : V) acc :
  ~ In k (map fst acc) -> Props.assign k x acc = acc ++ [(k, x)].
Proof.
  induction acc as [|[k' x'] t IH]; intros H; [reflexivity|].
  cbn [Props.assign]. destruct (str_eqb k k') eqn:E.
  - apply str_eqb_eq in E. subst. exfalso. apply H. now left.
  - cbn [app]. f_equal. apply IH. intros Hin. apply H. now right.
Qed.

Lemma parse_members_printed props :
  Forall (fun kv => parses (snd kv)) props -> props_wf props -> props <> [] ->
  forall f acc rest,
    NoDup (map fst (acc ++ props)) ->
    (cost_props cost props < f)%nat ->
    parse_members f (join COMMA (map member props) ++ 125 :: rest) acc
    = Ok (JObject (acc ++ props), rest).
Proof.
  induction 1 as [|[k x] t Hx Ht IH]; intros Hwf Hne f acc rest Hnd Hf;
    [contradiction|].
  inversion Hwf as [|? ? [Hk Hwx] Hwt]; subst. cbn [fst snd] in *.
  cbn [cost_props fold_right snd] in Hf. fold (cost_props cost t) in Hf.
  destruct f as [|f]; [lia|].
  assert (Hfresh : ~ In k (map fst acc)).
  { rewrite map_app in Hnd. apply NoDup_remove_2 in Hnd.
    intros Hin. apply Hnd. apply in_or_app. now left. }
  assert (Hstep : forall tail, stop tail ->
            parse_members (S f) (member (k, x) ++ tail) acc
            = match skip_space tail with
              | c' :: r2 =>
                  if c' =? 44 then parse_members f r2 (acc ++ [(k, x)])
                  else if c' =? 125 then Ok (JObject (acc ++ [(k, x)]), r2)
                  else Throw SyntaxError
              | [] => Throw SyntaxError
              end).
  { intros tail Hs. unfold member, quote. cbn [fst snd].
    cbn [app parse_members]. rewrite skip_space_head by reflexivity.
    cbn [Z.eqb Pos.eqb]. rewrite <- !app_assoc. cbn [app].
    rewrite (parse_string_quote k _ Hk). cbn [bind fst snd].
    rewrite skip_space_head by reflexivity. cbn [Z.eqb Pos.eqb].
    rewrite (Hx Hwx f tail) by (lia || assumption). cbn [bind fst snd].
    now rewrite (assign_fresh k x acc Hfresh). }
  destruct t as [|y t'].
  - cbn [map join]. rewrite Hstep by (cbn [stop]; lia).
    rewrite skip_space_head by reflexivity. reflexivity.
  - change (join COMMA (map member ((k, x) :: y :: t')))
      with (member (k, x) ++ COMMA :: join COMMA (map member (y :: t'))).
    rewrite <- app_assoc. cbn [app].
    rewrite Hstep by (cbn [stop]; unfold COMMA; lia).
    rewrite skip_space_head by reflexivity.
    change (COMMA =? 44) with true. cbv iota.
    rewrite IH; [now rewrite <- app_assoc|assumption|discriminate| |lia].
    now rewrite <- app_assoc.
Qed.

Lemma parse_value_stringify v : parses v.
Proof.
  induction v as [| b | n | s | l IH | props IH] using value_ind;
    intros Hwf f rest Hf Hs; (destruct f as [|f]; [lia|]).
  - reflexivity.
  - destruct b; reflexivity.
  - now apply parse_value_number.
  - now apply parse_value_string.
  - apply json_wf_array in Hwf. rewrite cost_array in Hf.
    rewrite stringify_array. cbn [app parse_value].
    rewrite skip_space_head by reflexivity. cbn [Z.eqb Pos.eqb].
    rewrite <- app_assoc. cbn [app].
    destruct l as [|x t].
    + cbn [map join app]. rewrite skip_space_head by reflexivity. reflexivity.
    + destruct (stringify_opening x) as [c [u [Ec Hc]]].
      assert (Hhead : exists w, join COMMA (map stringify (x :: t)) ++ 93 :: rest
                                = c :: w).
      { cbn [map]. destruct t; cbn [join map]; rewrite Ec; cbn [app]; eauto. }
      destruct Hhead as [w Hw]. rewrite Hw.
      rewrite skip_space_head by now apply opening_not_space.
      replace (c =? 93) with false by (unfold opening in Hc; lia).
      rewrite <- Hw.
      rewrite parse_elements_printed by (assumption || discriminate || lia).
      reflexivity.
  - apply json_wf_object in Hwf as [Hnd Hwf]. rewrite cost_object in Hf.
    rewrite stringify_object. cbn [app parse_value].
    rewrite skip_space_head by reflexivity. cbn [Z.eqb Pos.eqb].
    rewrite <- app_assoc. cbn [app].
    destruct props as [|kv t].
    + cbn [map join app]. rewrite skip_space_head by reflexivity. reflexivity.
    + assert (Hhead : exists w, join COMMA (map member (kv :: t)) ++ 125 :: rest
                                = 34 :: w).
      { cbn [map]. destruct t; cbn [join map]; unfold member, quote;
          cbn [app]; eauto. }
      destruct Hhead as [w Hw]. rewrite Hw.
      rewrite skip_space_head by reflexivity. cbn [Z.eqb Pos.eqb].
      rewrite <- Hw.
      rewrite parse_members_printed by (assumption || discriminate || lia).
      reflexivity.
Qed.

(** *** Code units *)

Definition units (s : jsstring) : Prop := Forall (fun c => 0 <= c < 65536) s.

Lemma str_ok_units s : str_ok s <-> units s.
Proof.
  induction s as [|c t IH]; [split; [constructor|reflexivity]|].
  rewrite str_ok_cons, IH. split.
  - intros [H1 H2]. now constructor.
  - intros H. inversion H; subst. now split.
Qed.

Lemma units_app a b : units a -> units b -> units (a ++ b).
Proof. intros Ha Hb. apply Forall_app. now split. Qed.

Lemma hex_lower_unit n : 0 <= n < 16 -> 0 <= hex_lower n < 65536.
Proof. unfold hex_lower. intros H. destruct (n <? 10); lia. Qed.

Lemma unicode_escape_units c : 0 <= c < 65536 -> units (unicode_escape c).
Proof.
  intros H. unfold unicode_escape.
  repeat (constructor; [try apply hex_lower_unit; lia|]). constructor.
Qed.

Lemma quote_unit_units c : 0 <= c < 65536 -> units (quote_unit c).
Proof.
  intros H. unfold quote_unit.
  repeat case_if; try solve [repeat (constructor; [lia|]); constructor].
  now apply unicode_escape_units.
Qed.

Lemma quote_units_units_aux n :
  forall s, (length s <= n)%nat -> units s -> units (quote_units s).
Proof.
  induction n as [|n IH]; intros s Hlen Hs.
  - destruct s; [constructor|simpl in Hlen; lia].
  - destruct s as [|c t]; [constructor|].
    inversion Hs as [|? ? Hc Ht]; subst. cbn [length] in Hlen.
    cbn [quote_units].
    destruct (is_high_surrogate c).
    + destruct t as [|d t']; [now apply unicode_escape_units|].
      inversion Ht as [|? ? Hd Ht']; subst. cbn [length] in Hlen.
      destruct (is_low_surrogate d).
      * constructor; [assumption|]. constructor; [assumption|].
        apply IH; [lia|assumption].
      * apply units_app; [now apply unicode_escape_units|].
        apply IH; [cbn [length]; lia|assumption].
    + destruct (is_low_surrogate c).
      * apply units_app; [now apply unicode_escape_units|].
        apply IH; [lia|assumption].
      * apply units_app; [now apply quote_unit_units|].
        apply IH; [lia|assumption].
Qed.

Lemma quote_units_units s : units s -> units (quote s).
Proof.
  intros H. unfold quote. constructor; [lia|].
  apply units_app; [|constructor; [lia|constructor]].
  now apply (quote_units_units_aux (length s)).
Qed.

Lemma Number_toString_units n : units (Number_toString n).
Proof.
  eapply Forall_impl; [|apply Number_toString_range]. cbn beta. lia.
Qed.

Lemma join_units l : Forall units l -> units (join COMMA l).
Proof.
  induction 1 as [|x t Hx Ht IH]; [constructor|].
  destruct t as [|y t']; [exact Hx|].
  change (join COMMA (x :: y :: t')) with (x ++ COMMA :: join COMMA (y :: t')).
  apply units_app; [assumption|]. constructor; [unfold COMMA; lia|assumption].
Qed.

Lemma stringify_units v : json_wf v -> units (stringify v).
Proof.
  induction v as [| b | n | s | l IH | props IH] using value_ind; intros Hwf.
  - change (stringify JNull) with [110; 117; 108; 108].
    repeat (constructor; [lia|]). constructor.
  - destruct b;
      [change (stringify (JBool true)) with [116; 114; 117; 101]
      |change (stringify (JBool false)) with [102; 97; 108; 115; 101]];
      repeat (constructor; [lia|]); constructor.
  - apply Number_toString_units.
  - apply quote_units_units. now apply str_ok_units.
  - apply json_wf_array in Hwf. rewrite stringify_array.
    constructor; [lia|]. apply units_app; [|constructor; [lia|constructor]].
    apply join_units. apply Forall_map.
    rewrite Forall_forall in *. auto.
  - apply json_wf_object in Hwf as [_ Hwf]. rewrite stringify_object.
    constructor; [lia|]. apply units_app; [|constructor; [lia|constructor]].
    apply join_units. apply Forall_map.
    unfold props_wf in Hwf. rewrite Forall_forall in *.
    intros kv Hin. destruct (Hwf kv Hin) as [Hk Hx]. unfold member.
    apply units_app; [apply quote_units_units; now apply str_ok_units|].
    constructor; [lia|]. now apply IH.
Qed.

(** *** Fuel *)

Lemma cost_list_join l :
  Forall (fun x => (cost x <= length (stringify x))%nat) l ->
  (cost_list cost l <= length (join COMMA (map stringify l)) + 1)%nat.
Proof.
  induction 1 as [|x t Hx Ht IH]; [cbn; lia|].
  cbn [cost_list fold_right]. fold (cost_list cost t).
  destruct t as [|y t'].
  - cbn [map join cost_list fold_right]. lia.
  - change (join COMMA (map stringify (x :: y :: t')))
      with (stringify x ++ COMMA :: join COMMA (map stringify (y :: t'))).
    rewrite length_app. cbn [length]. lia.
Qed.

Lemma cost_props_join props :
  Forall (fun kv => (cost (snd kv) <= length (stringify (snd kv)))%nat) props ->
  (cost_props cost props <= length (join COMMA (map member props)) + 1)%nat.
Proof.
  induction 1 as [|x t Hx Ht IH]; [cbn; lia|].
  cbn [cost_props fold_right]. fold (cost_props cost t).
  assert (Hm : (length (stringify (snd x)) <= length (member x))%nat).
  { unfold member. rewrite length_app. cbn [length]. lia. }
  destruct t as [|y t'].
  - cbn [map join cost_props fold_right]. lia.
  - change (join COMMA (map member (x :: y :: t')))
      with (member x ++ COMMA :: join COMMA (map member (y :: t'))).
    rewrite length_app. cbn [length]. lia.
Qed.

Lemma cost_length v : (cost v <= length (stringify v))%nat.
Proof.
  induction v as [| b | n | s | l IH | props IH] using value_ind;
    try (cbn [cost]; lia).
  - rewrite cost_array, stringify_array. cbn [length]. rewrite length_app.
    cbn [length]. pose proof (cost_list_join l IH). lia.
  - rewrite cost_object, stringify_object. cbn [length]. rewrite length_app.
    cbn [length]. pose proof (cost_props_join props IH). lia.
Qed.

(** *** The laws of [JSON.parse] and [JSON.stringify] *)

Lemma units_precheck s :
  units s -> forallb (fun c => (0 <=? c) && (c <? 65536)) s = true.
Proof.
  intros H. apply forallb_forall. unfold units in H.
  rewrite Forall_forall in H. intros c Hc. specialize (H c Hc). lia.
Qed.

Lemma parse_stringify v : json_wf v -> parse (stringify v) = Ok v.
Proof.
  intros Hwf. unfold parse.
  rewrite (units_precheck _ (stringify_units v Hwf)).
  pose proof (parse_value_stringify v Hwf
                (2 * length (stringify v) + 2)%nat []) as H.
  rewrite app_nil_r in H. rewrite H; [reflexivity| |exact I].
  pose proof (cost_length v). lia.
Qed.

Lemma stringify_no_bom v t : stringify v <> 65279 :: t.
Proof.
  destruct (stringify_opening v) as [c [u [E Hc]]]. rewrite E.
  intros H. injection H as H _. unfold opening in Hc. lia.
Qed.

Lemma same_shape_refl (v : JSON Z) : same_shape v v.
Proof. destruct v; cbn [same_shape]; eauto. Qed.

(** *** What the parser builds *)

Lemma units_tail c t : units (c :: t) -> units t.
Proof. intros H. now inversion H. Qed.

Lemma skip_space_units s : units s -> units (skip_space s).
Proof.
  induction s as [|c t IH]; intros H; [constructor|].
  cbn [skip_space]. destruct (is_json_space c); [|assumption].
  apply IH. now apply units_tail in H.
Qed.

Lemma skipn_units n s : units s -> units (skipn n s).
Proof.
  revert s. induction n as [|n IH]; intros s H; [assumption|].
  destruct s as [|c t]; [constructor|]. cbn [skipn]. apply IH.
  now apply units_tail in H.
Qed.

Lemma hex_value_range c x : hex_value c = Some x -> 0 <= x < 16.
Proof.
  unfold hex_value. repeat case_if; intros H; inversion H; subst; lia.
Qed.

Lemma hex4_range a b c d u : hex4 a b c d = Some u -> 0 <= u < 65536.
Proof.
  unfold hex4, hex2.
  destruct (hex_value a) as [x1|] eqn:E1; [|discriminate].
  destruct (hex_value b) as [x2|] eqn:E2; [|discriminate].
  destruct (hex_value c) as [x3|] eqn:E3; [|discriminate].
  destruct (hex_value d) as [x4|] eqn:E4; [|discriminate].
  apply hex_value_range in E1, E2, E3, E4.
  intros H. inversion H; subst. lia.
Qed.

Lemma unescape_char_range e u : unescape_char e = Some u -> 0 <= u < 65536.
Proof.
  unfold unescape_char. repeat case_if; intros H; inversion H; subst; lia.
Qed.

Lemma units_snoc acc c : units acc -> 0 <= c < 65536 -> units (acc ++ [c]).
Proof. intros Ha Hc. apply units_app; [assumption|]. now constructor. Qed.

Lemma parse_string_units n :
  forall s acc k r, (length s <= n)%nat -> units s -> units acc ->
  parse_string s acc = Ok (k, r) -> units k /\ units r.
Proof.
  induction n as [|n IH]; intros s acc k r Hlen Hs Ha.
  - destruct s; [discriminate|simpl in Hlen; lia].
  - destruct s as [|c t]; [discriminate|].
    inversion Hs as [|? ? Hc Ht]; subst. cbn [length] in Hlen.
    cbn [parse_string].
    destruct (c =? 34); [intros H; inversion H; subst; now split|].
    destruct (c =? 92).
    + destruct t as [|e t1]; [discriminate|].
      inversion Ht as [|? ? He Ht1]; subst. cbn [length] in Hlen.
      destruct (e =? 117).
      * destruct t1 as [|h1 [|h2 [|h3 [|h4 t5]]]]; try discriminate.
        destruct (hex4 h1 h2 h3 h4) as [u|] eqn:Eu; [|discriminate].
        apply hex4_range in Eu.
        apply IH; [cbn [length] in Hlen; lia| |now apply units_snoc].
        now do 4 apply units_tail in Ht1.
      * destruct (unescape_char e) as [u|] eqn:Eu; [|discriminate].
        apply unescape_char_range in Eu.
        apply IH; [lia|assumption|now apply units_snoc].
    + destruct (c <? 32); [discriminate|].
      apply IH; [lia|assumption|now apply units_snoc].
Qed.

Lemma parse_digits_units s : units s -> units (snd (parse_digits s)).
Proof.
  induction s as [|c t IH]; intros H; [constructor|].
  cbn [parse_digits]. destruct (digit_of c); [|assumption].
  specialize (IH (units_tail _ _ H)).
  destruct (parse_digits t) as [d r]. exact IH.
Qed.

Lemma parse_unsigned_units s d r :
  units s -> parse_unsigned s = Ok (d, r) -> units r.
Proof.
  intros Hs. unfold parse_unsigned.
  pose proof (parse_digits_units s Hs) as H.
  destruct (parse_digits s) as [d0 r0]. cbn [snd] in H.
  destruct d0 as [|d1|d1|d1|d1|d1|d1|d1|d1|d1|d1]; try discriminate;
    try (destruct (integer_end r0); [|discriminate];
         intros E; inversion E; subst; assumption).
  destruct d1; try discriminate.
  destruct (integer_end r0); [|discriminate].
  intros E. inversion E; subst. assumption.
Qed.

Lemma parse_number_units s n r :
  units s -> parse_number s = Ok (n, r) -> units r.
Proof.
  intros Hs. unfold parse_number. destruct s as [|c t]; [discriminate|].
  destruct (c =? 45).
  - destruct (parse_unsigned t) as [[d r0]|] eqn:E; [|discriminate].
    cbn [bind fst snd]. intros H. injection H as Hn' Hr'. subst n r.
    eapply parse_unsigned_units; [|exact E]. now apply units_tail in Hs.
  - destruct (parse_unsigned (c :: t)) as [[d r0]|] eqn:E; [|discriminate].
    cbn [bind fst snd]. intros H. injection H as Hn' Hr'. subst n r.
    eapply parse_unsigned_units; [|exact E]. assumption.
Qed.

Definition builds_value (f : nat) : Prop :=
  forall s v r, units s -> parse_value f s = Ok (v, r) ->
                json_wf v /\ units r.

Definition builds_elements (f : nat) : Prop :=
  forall s acc v r, units s -> Forall json_wf acc ->
                    parse_elements f s acc = Ok (v, r) ->
                    json_wf v /\ units r.

Definition builds_members (f : nat) : Prop :=
  forall s acc v r, units s -> NoDup (map fst acc) -> props_wf acc ->
                    parse_members f s acc = Ok (v, r) ->
                    json_wf v /\ units r.

Lemma parser_builds f : builds_value f /\ builds_elements f /\ builds_members f.
Proof.
  unfold builds_value, builds_elements, builds_members.
  induction f as [|f [IHv [IHe IHm]]];
    [split; [|split]; intros; discriminate|].
  split; [|split].
  - intros s v r Hs. cbn [parse_value].
    pose proof (skip_space_units s Hs) as Hsk.
    destruct (skip_space s) as [|c t]; [discriminate|].
    pose proof (units_tail _ _ Hsk) as Ht.
    destruct (c =? 123).
    { pose proof (skip_space_units t Ht) as Hsk2.
      destruct (skip_space t) as [|c' r']; [discriminate|].
      destruct (c' =? 125).
      - intros H. injection H as Hv' Hr'. subst v r. split; [|now apply units_tail in Hsk2].
        apply json_wf_object. split; constructor.
      - apply IHm; [assumption|constructor|constructor]. }
    destruct (c =? 91).
    { pose proof (skip_space_units t Ht) as Hsk2.
      destruct (skip_space t) as [|c' r']; [discriminate|].
      destruct (c' =? 93).
      - intros H. injection H as Hv' Hr'. subst v r. split; [|now apply units_tail in Hsk2].
        apply json_wf_array. constructor.
      - apply IHe; [assumption|constructor]. }
    destruct (c =? 34).
    { destruct (parse_string t []) as [[k r0]|] eqn:E; [|discriminate].
      cbn [bind fst snd]. intros H. injection H as Hv' Hr'. subst v r.
      destruct (parse_string_units (length t) t [] k r0) as [Hk Hr];
        [lia|assumption|constructor|assumption|].
      split; [|assumption]. cbn [json_wf]. now apply str_ok_units. }
    destruct (startsWith (lit "true") (c :: t)).
    { intros H. injection H as Hv' Hr'. subst v r.
      split; [exact I|exact (skipn_units 4 (c :: t) Hsk)]. }
    destruct (startsWith (lit "false") (c :: t)).
    { intros H. injection H as Hv' Hr'. subst v r.
      split; [exact I|exact (skipn_units 5 (c :: t) Hsk)]. }
    destruct (startsWith (lit "null") (c :: t)).
    { intros H. injection H as Hv' Hr'. subst v r.
      split; [exact I|exact (skipn_units 4 (c :: t) Hsk)]. }
    destruct (parse_number (c :: t)) as [[n r0]|] eqn:E; [|discriminate].
    cbn [bind fst snd]. intros H. injection H as Hv' Hr'. subst v r.
    split; [exact I|]. eapply parse_number_units; [|exact E]. assumption.
  - intros s acc v r Hs Hacc. cbn [parse_elements].
    destruct (parse_value f s) as [[x r0]|] eqn:E; [|discriminate].
    cbn [bind fst snd]. destruct (IHv s x r0 Hs E) as [Hx Hr0].
    pose proof (skip_space_units r0 Hr0) as Hsk.
    destruct (skip_space r0) as [|c r1]; [discriminate|].
    pose proof (units_tail _ _ Hsk) as Hr1.
    assert (Hacc' : Forall json_wf (acc ++ [x])).
    { apply Forall_app. split; [assumption|]. now constructor. }
    destruct (c =? 44); [now apply IHe|].
    destruct (c =? 93); [|discriminate].
    intros H. injection H as Hv' Hr'. subst v r. split; [|assumption].
    now apply json_wf_array.
  - intros s acc v r Hs Hnd Hacc. cbn [parse_members].
    pose proof (skip_space_units s Hs) as Hsk.
    destruct (skip_space s) as [|q t]; [discriminate|].
    pose proof (units_tail _ _ Hsk) as Ht.
    destruct (q =? 34); [|discriminate].
    destruct (parse_string t []) as [[k r0]|] eqn:Ek; [|discriminate].
    cbn [bind fst snd].
    destruct (parse_string_units (length t) t [] k r0) as [Hk Hr0];
      [lia|assumption|constructor|assumption|].
    pose proof (skip_space_units r0 Hr0) as Hsk0.
    destruct (skip_space r0) as [|c r1]; [discriminate|].
    pose proof (units_tail _ _ Hsk0) as Hr1.
    destruct (c =? 58); [|discriminate].
    destruct (parse_value f r1) as [[x r2]|] eqn:Ex; [|discriminate].
    cbn [bind fst snd]. destruct (IHv r1 x r2 Hr1 Ex) as [Hx Hr2].
    pose proof (skip_space_units r2 Hr2) as Hsk2.
    destruct (skip_space r2) as [|c' r3]; [discriminate|].
    pose proof (units_tail _ _ Hsk2) as Hr3.
    assert (Hnd' : NoDup (map fst (Props.assign k x acc)))
      by now apply assign_NoDup.
    assert (Hacc' : props_wf (Props.assign k x acc)).
    { apply (@assign_wf impl k x acc);
        [now apply str_ok_units|assumption|assumption]. }
    destruct (c' =? 44); [now apply IHm|].
    destruct (c' =? 125); [|discriminate].
    intros H. injection H as Hv' Hr'. subst v r. split; [|assumption].
    apply json_wf_object. now split.
Qed.

Lemma parse_wf s v : parse s = Ok v -> json_wf v.
Proof.
  unfold parse.
  destruct (forallb (fun c => (0 <=? c) && (c <? 65536)) s) eqn:Eu;
    [|discriminate].
  assert (Hs : units s).
  { apply Forall_forall. intros c Hc.
    rewrite forallb_forall in Eu. specialize (Eu c Hc). lia. }
  destruct (parse_value (2 * length s + 2) s) as [[x r]|] eqn:E; [|discriminate].
  cbn [bind fst snd]. destruct (skip_space r); [|discriminate].
  intros H. inversion H; subst.
  now destruct (parser_builds (2 * length s + 2)) as [Hv _];
    destruct (Hv s v r Hs E).
Qed.

(** The reference implementation satisfies the three laws the node-name
    properties assume. *)
Lemma reference_reparse (v : JSON Z) :
  json_wf v ->
  exists v', parse (stringify v) = Ok v'
             /\ stringify v' = stringify v /\ same_shape v v'.
Proof.
  intros Hwf. exists v. split; [now apply parse_stringify|].
  split; [reflexivity|apply same_shape_refl].
Qed.

End RefJSONFacts.

(** ** Further properties of the node-name functions *)

Lemma encodeURIComponent_error_aux n :
  forall s e, (length s <= n)%nat -> encodeURIComponent s = Throw e -> e = URIError.
Proof.
  induction n as [|n IH]; intros s e Hlen.
  - destruct s; [discriminate|simpl in Hlen; lia].
  - destruct s as [|c t]; [discriminate|]. cbn [length] in Hlen.
    cbn [encodeURIComponent].
    destruct (is_unreserved c).
    { destruct (encodeURIComponent t) eqn:E; [discriminate|].
      cbn [bind]. intros H. injection H as <-. apply (IH t); [lia|exact E]. }
    destruct (is_low_surrogate c); [congruence|].
    destruct (is_high_surrogate c).
    { destruct t as [|d t']; [congruence|]. cbn [length] in Hlen.
      destruct (is_low_surrogate d); [|congruence].
      destruct (encodeURIComponent t') eqn:E; [discriminate|].
      cbn [bind]. intros H. injection H as <-. apply (IH t'); [lia|exact E]. }
    destruct ((0 <=? c) && (c <? 65536)); [|congruence].
    destruct (encodeURIComponent t) eqn:E; [discriminate|].
    cbn [bind]. intros H. injection H as <-. apply (IH t); [lia|exact E].
Qed.

Lemma encodeURIComponent_error s e :
  encodeURIComponent s = Throw e -> e = URIError.
Proof. apply (encodeURIComponent_error_aux (length s)). lia. Qed.

Lemma tokenize_error_aux n :
  forall s e, (length s <= n)%nat -> tokenize s = Throw e -> e = URIError.
Proof.
  induction n as [|n IH]; intros s e Hlen.
  - destruct s; [discriminate|simpl in Hlen; lia].
  - destruct s as [|c t]; [discriminate|]. cbn [length] in Hlen.
    cbn [tokenize]. destruct (c =? 37).
    + destruct t as [|h [|l t']]; try congruence. cbn [length] in Hlen.
      destruct (hex_value h); [|congruence].
      destruct (hex_value l); [|congruence].
      destruct (tokenize t') eqn:E; [discriminate|].
      cbn [bind]. intros H. injection H as <-. apply (IH t'); [lia|exact E].
    + destruct (tokenize t) eqn:E; [discriminate|].
      cbn [bind]. intros H. injection H as <-. apply (IH t); [lia|exact E].
Qed.

Lemma decode_tokens_error_aux n :
  forall l e, (length l <= n)%nat -> decode_tokens l = Throw e -> e = URIError.
Proof.
  induction n as [|n IH]; intros l e Hlen.
  - destruct l; [discriminate|simpl in Hlen; lia].
  - assert (Hk : forall (t : list token) (f : jsstring -> result jsstring),
               (length t <= n)%nat ->
               (forall r, f r <> Throw e) ->
               (r <- decode_tokens t ;; f r) = Throw e -> e = URIError).
    { intros t f Ht Hf. destruct (decode_tokens t) eqn:E; cbn [bind].
      - intros H. now apply Hf in H.
      - intros H. injection H as <-. apply (IH t); [lia|exact E]. }
    destruct l as [|[c|b] t]; [discriminate| |]; cbn [length] in Hlen;
      cbn [decode_tokens].
    + apply Hk; [lia|discriminate].
    + destruct (b <? 128); [apply Hk; [lia|discriminate]|].
      destruct ((192 <=? b) && (b <=? 223)).
      { destruct t as [|[c2|b2] t']; try congruence. cbn [length] in Hlen.
        destruct (is_continuation b2 && _); [|congruence].
        apply Hk; [lia|discriminate]. }
      destruct ((224 <=? b) && (b <=? 239)).
      { destruct t as [|[c2|b2] [|[c3|b3] t']]; try congruence.
        cbn [length] in Hlen.
        destruct (is_continuation b2 && _ && _ && _); [|congruence].
        apply Hk; [lia|discriminate]. }
      destruct ((240 <=? b) && (b <=? 247)); [|congruence].
      destruct t as [|[c2|b2] [|[c3|b3] [|[c4|b4] t']]]; try congruence.
      cbn [length] in Hlen.
      destruct (is_continuation b2 && _ && _ && _ && _); [|congruence].
      apply Hk; [lia|discriminate].
Qed.

Lemma decodeURIComponent_error s e :
  decodeURIComponent s = Throw e -> e = URIError.
Proof.
  unfold decodeURIComponent. destruct (tokenize s) as [toks|e'] eqn:E;
    cbn [bind].
  - apply (decode_tokens_error_aux (length toks)). lia.
  - intros H. injection H as <-.
    apply (tokenize_error_aux (length s) s); [lia|exact E].
Qed.

Lemma appendToFragment_error link prefix e :
  appendToFragment link prefix = Throw e -> e = URIError.
Proof.
  unfold appendToFragment.
  destruct (lastIndexOf HASH link) as [i|].
  - destruct (decodeURIComponent _) as [name|e'] eqn:E; cbn [bind].
    + destruct (startsWith prefix name); [discriminate|].
      destruct (encodeURIComponent _) eqn:E2; cbn [bind]; [discriminate|].
      intros H. injection H as <-. now apply encodeURIComponent_error in E2.
    + intros H. injection H as <-. now apply decodeURIComponent_error in E.
  - cbn [bind]. destruct (startsWith prefix []); [discriminate|].
    destruct (encodeURIComponent _) eqn:E2; cbn [bind]; [discriminate|].
    intros H. injection H as <-. now apply encodeURIComponent_error in E2.
Qed.

Section NodeNameErrors.

Context {J : JSONImpl}.

Lemma prependNodeName_error link prefix e :
  prependNodeName link prefix = Throw e -> e = URIError.
Proof.
  unfold prependNodeName. destruct (negb (truthy prefix)); [discriminate|].
  destruct (startsWith VMESS link).
  - destruct (prependNodeName_vmess link prefix); cbn [try_catch];
      [discriminate|apply appendToFragment_error].
  - apply appendToFragment_error.
Qed.

(** X1. Whatever the link and the prefix, [prependNodeName] returns or
    throws a URIError, and nothing else: every error of the vmess branch
    ([atob], [JSON.parse], a [ps] that is not a string, ...) is caught, and
    the fragment branch only calls [decodeURIComponent] and
    [encodeURIComponent]. *)
Theorem prependNodeName_returns_or_URIError link prefix :
  (exists r, prependNodeName link prefix = Ok r)
  \/ prependNodeName link prefix = Throw URIError.
Proof.
  destruct (prependNodeName link prefix) as [r|e] eqn:E.
  - left. now exists r.
  - right. f_equal. exact (prependNodeName_error link prefix e E).
Qed.

(** The display name read from the fragment of a link, as the filters
    read it (source lines 526-531): the text after the last [#],
    percent-decoded. *)
Definition fragment_name (link : jsstring) : option jsstring :=
  match lastIndexOf HASH link with
  | Some i =>
      match decodeURIComponent (substring_from (i + 1) link) with
      | Ok name => Some name
      | Throw _ => None
      end
  | None => None
  end.

Lemma appendToFragment_named link prefix r :
  truthy prefix = true ->
  appendToFragment link prefix = Ok r ->
  exists name, fragment_name r = Some name /\ startsWith prefix name = true.
Proof.
  intros Hp. unfold appendToFragment, fragment_name.
  assert (Hnew : forall base newName enc,
             encodeURIComponent newName = Ok enc ->
             startsWith prefix newName = true ->
             exists name,
               match lastIndexOf HASH (base ++ HASH :: enc) with
               | Some i =>
                   match decodeURIComponent
                           (substring_from (i + 1) (base ++ HASH :: enc)) with
                   | Ok name => Some name
                   | Throw _ => None
                   end
               | None => None
               end = Some name /\ startsWith prefix name = true).
  { intros base newName enc He Hs. exists newName.
    rewrite (lastIndexOf_last HASH base enc (encodeURIComponent_no_hash _ _ He)).
    unfold substring_from. rewrite skipn_app.
    rewrite skipn_all2 by lia.
    replace (length base + 1 - length base)%nat with 1%nat by lia.
    cbn [skipn app].
    rewrite (decodeURIComponent_encodeURIComponent _ _ He). now split. }
  destruct (lastIndexOf HASH link) as [i|] eqn:Ei.
  - destruct (decodeURIComponent (substring_from (i + 1) link))
      as [name|] eqn:Ed; cbn [bind]; [|discriminate].
    destruct (startsWith prefix name) eqn:Es.
    + intros H. injection H as <-. exists name. now rewrite Ei, Ed.
    + destruct (encodeURIComponent _) as [enc|] eqn:He; cbn [bind];
        [|discriminate].
      intros H. injection H as <-. apply (Hnew _ _ _ He).
      destruct (truthy name); [apply startsWith_app|apply startsWith_refl].
  - cbn [bind]. destruct prefix as [|p0 p']; [discriminate|].
    cbn [startsWith truthy].
    destruct (encodeURIComponent (p0 :: p')) as [enc|] eqn:He; cbn [bind];
      [|discriminate].
    intros H. injection H as <-. apply (Hnew _ _ _ He). apply startsWith_refl.
Qed.

(** X2. After [prependNodeName] has returned on a link of another scheme
    than vmess, the display name read from the fragment of the result
    starts with the prefix. *)
Theorem prependNodeName_fragment_named link prefix r :
  truthy prefix = true ->
  startsWith VMESS link = false ->
  prependNodeName link prefix = Ok r ->
  exists name, fragment_name r = Some name /\ startsWith prefix name = true.
Proof.
  intros Hp Hv. unfold prependNodeName. rewrite Hp, Hv. cbn [negb].
  now apply appendToFragment_named.
Qed.

End NodeNameErrors.

(** ** Node lines through the pipeline *)

(** The code units [encodeURIComponent] writes. *)
Definition uri_unit (c : code_unit) : bool := is_unreserved c || (c =? 37).

Lemma hex_digit_unreserved n : 0 <= n < 16 -> is_unreserved (hex_digit n) = true.
Proof.
  intros H. unfold is_unreserved, is_alnum, hex_digit.
  destruct (n <? 10) eqn:E; lia.
Qed.

Lemma encode_point_units cp :
  scalar cp -> forallb uri_unit (encode_point cp) = true.
Proof.
  intros Hcp. unfold encode_point. destruct (is_unreserved cp) eqn:Eu.
  - cbn [forallb]. unfold uri_unit. now rewrite Eu.
  - pose proof (utf8_octets_range cp Hcp) as Hr. clear Eu.
    induction Hr as [|b t Hb _ IH]; [reflexivity|].
    cbn [escape_octets flat_map percent app forallb].
    fold (escape_octets t). rewrite IH. unfold octet in Hb.
    unfold uri_unit at 2 3.
    rewrite !hex_digit_unreserved by lia. reflexivity.
Qed.

Lemma encodeURIComponent_units s e :
  encodeURIComponent s = Ok e -> forallb uri_unit e = true.
Proof.
  intros H. destruct (encodeURIComponent_points s e H) as [cps [Hs [_ ->]]].
  apply forallb_forall. intros c Hin.
  apply in_flat_map in Hin as [cp [Hcp Hin]].
  rewrite Forall_forall in Hs.
  pose proof (encode_point_units cp (Hs _ Hcp)) as Hu.
  rewrite forallb_forall in Hu. now apply Hu.
Qed.

Lemma uri_unit_not_NL c : uri_unit c = true -> c <> NL.
Proof. unfold uri_unit, is_unreserved, is_alnum, NL. lia. Qed.

Lemma encodeURIComponent_no_NL s e : encodeURIComponent s = Ok e -> ~ In NL e.
Proof.
  intros H Hin. apply encodeURIComponent_units in H.
  rewrite forallb_forall in H. exact (uri_unit_not_NL _ (H _ Hin) eq_refl).
Qed.

Lemma b64_char_alphabet i : is_sextet i -> is_base64_alphabet (b64_char i) = true.
Proof.
  unfold is_sextet, is_base64_alphabet, is_alnum, b64_char. intros H.
  repeat case_if; lia.
Qed.

(** [btoa] writes base64 characters only. *)
Lemma btoa_alphabet s b : btoa s = Ok b -> forallb is_base64_alphabet b = true.
Proof.
  unfold btoa. destruct (forallb is_byte s) eqn:E; [|discriminate].
  intros H. injection H as <-. rewrite forallb_app. apply andb_true_iff. split.
  - apply forallb_forall. intros c Hc. apply in_map_iff in Hc as [i [<- Hi]].
    pose proof (sextets_of_bytes_range s E) as Hr. rewrite Forall_forall in Hr.
    apply b64_char_alphabet. now apply Hr.
  - unfold padding. destruct (Nat.modulo (length s) 3) as [|[|[|k]]]; reflexivity.
Qed.

Lemma base64_alphabet_not_NL c : is_base64_alphabet c = true -> c <> NL.
Proof. unfold is_base64_alphabet, is_alnum, NL. lia. Qed.

(** A line one of the accepted schemes starts, holding no newline. *)
Definition node_line (l : jsstring) : Prop :=
  nodeRegex_test l = true /\ ~ In NL l.

Lemma schemes_no_hash :
  Forall (fun sch => ~ In HASH (sch ++ lit "://")) schemes.
Proof.
  unfold schemes. repeat constructor;
    (vm_compute; intros H;
     repeat (destruct H as [H|H]; [discriminate H|]); exact H).
Qed.

Lemma nodeRegex_test_before_hash base rest :
  nodeRegex_test (base ++ HASH :: rest) = nodeRegex_test base.
Proof.
  unfold nodeRegex_test. pose proof schemes_no_hash as H.
  induction H as [|sch l Hs _ IH]; [reflexivity|].
  cbn [existsb]. rewrite IH. f_equal. now apply startsWith_before.
Qed.

Lemma vmess_node_line b :
  forallb is_base64_alphabet b = true -> node_line (VMESS ++ b).
Proof.
  intros H. split.
  - unfold nodeRegex_test, schemes. cbn [existsb].
    change (lit "vmess" ++ lit "://") with VMESS.
    rewrite startsWith_app. now rewrite !orb_true_r.
  - intros Hin. apply in_app_or in Hin as [Hin|Hin].
    + vm_compute in Hin.
      repeat (destruct Hin as [Hin|Hin]; [discriminate Hin|]). exact Hin.
    + rewrite forallb_forall in H.
      exact (base64_alphabet_not_NL _ (H _ Hin) eq_refl).
Qed.

Lemma appendToFragment_node_line link prefix r :
  node_line link -> appendToFragment link prefix = Ok r -> node_line r.
Proof.
  intros [Hn Hl] H. apply appendToFragment_result in H.
  destruct H as [->|base newName enc -> He _ Hb]; [now split|].
  split.
  - rewrite nodeRegex_test_before_hash.
    destruct Hb as [<-|[rest ->]]; [assumption|].
    now rewrite nodeRegex_test_before_hash in Hn.
  - intros Hin. apply in_app_or in Hin as [Hin|[Hin|Hin]].
    + apply Hl. destruct Hb as [<-|[rest ->]]; [assumption|].
      apply in_or_app. now left.
    + discriminate Hin.
    + exact (encodeURIComponent_no_NL _ _ He Hin).
Qed.

Section NodeLines.

Context {J : JSONImpl}.

Lemma encode_config_node_line v r : encode_config v = Ok r -> node_line r.
Proof.
  unfold encode_config.
  destruct (encodeURIComponent (JSON_stringify v)) as [enc|]; [|discriminate].
  cbn [bind]. destruct (btoa (unescape enc)) as [b|] eqn:Eb; [|discriminate].
  cbn [bind]. intros H. injection H as <-.
  apply vmess_node_line. now apply btoa_alphabet in Eb.
Qed.

Lemma prependNodeName_node_line link prefix r :
  node_line link -> prependNodeName link prefix = Ok r -> node_line r.
Proof.
  intros Hl. unfold prependNodeName.
  destruct (negb (truthy prefix)); [intros H; injection H as <-; assumption|].
  destruct (startsWith VMESS link); [|now apply appendToFragment_node_line].
  rewrite prependNodeName_vmess_eq.
  destruct (decode_config link) as [v|]; cbn [bind try_catch];
    [|now apply appendToFragment_node_line].
  destruct (rename_config v prefix) as [v1|]; cbn [bind try_catch];
    [|now apply appendToFragment_node_line].
  destruct (encode_config v1) as [y|] eqn:Ee; cbn [try_catch];
    [|now apply appendToFragment_node_line].
  intros H. injection H as <-. now apply encode_config_node_line in Ee.
Qed.

Lemma normalizeVmessLink_node_line link r :
  node_line link -> normalizeVmessLink link = Ok r -> node_line r.
Proof.
  intros Hl. rewrite normalizeVmessLink_eq.
  destruct (negb (startsWith VMESS link));
    [intros H; injection H as <-; assumption|].
  destruct (decode_config link) as [v|]; cbn [bind try_catch];
    [|intros H; injection H as <-; assumption].
  destruct (encode_config v) as [y|] eqn:Ee; cbn [try_catch];
    [|intros H; injection H as <-; assumption].
  intros H. injection H as <-. now apply encode_config_node_line in Ee.
Qed.

End NodeLines.

Lemma trimStart_app_keep a b :
  b <> [] -> no_leading_space b -> exists x, trimStart (a ++ b) = x ++ b.
Proof.
  intros Hne Hb. induction a as [|h a IH].
  - exists []. cbn [app]. now apply trimStart_fixed.
  - cbn [app trimStart]. destruct (is_space h); [exact IH|].
    now exists (h :: a).
Qed.

Lemma trimEnd_keeps q z rest :
  is_space z = false ->
  exists x, trimEnd ((q ++ [z]) ++ rest) = (q ++ [z]) ++ x.
Proof.
  intros Hz. unfold trimEnd. rewrite !rev_app_distr. cbn [rev app].
  destruct (trimStart_app_keep (rev rest) (z :: rev q)) as [x Hx];
    [discriminate|exact Hz|].
  rewrite Hx. exists (rev x). rewrite rev_app_distr. cbn [rev].
  now rewrite rev_involutive.
Qed.

Lemma schemes_no_leading_space : Forall no_leading_space schemes.
Proof. unfold schemes. repeat constructor. Qed.

Lemma nodeRegex_test_trim r :
  nodeRegex_test r = true -> nodeRegex_test (trim r) = true.
Proof.
  intros H. destruct (nodeRegex_test_scheme r H) as [sch [rest [Hin ->]]].
  unfold trim.
  assert (Hs : no_leading_space (sch ++ lit "://" ++ rest)).
  { pose proof schemes_no_leading_space as Hf. rewrite Forall_forall in Hf.
    specialize (Hf sch Hin). destruct sch; [reflexivity|exact Hf]. }
  rewrite (trimStart_fixed _ Hs).
  change (lit "://") with (lit ":/" ++ [47]).
  rewrite <- app_assoc. rewrite (app_assoc sch), (app_assoc (sch ++ lit ":/")).
  destruct (trimEnd_keeps (sch ++ lit ":/") 47 rest eq_refl) as [x ->].
  unfold nodeRegex_test. apply existsb_exists. exists sch.
  split; [assumption|].
  rewrite <- (app_assoc sch (lit ":/") [47]).
  change (lit ":/" ++ [47]) with (lit "://"). apply startsWith_app.
Qed.

Definition accepted (l : jsstring) : Prop := nodeRegex_test l = true.

Lemma content_lines_node_line r :
  node_line r -> Forall accepted (content_lines r).
Proof.
  intros [Hn Hl]. unfold content_lines. rewrite (split_no_sep NL r Hl).
  cbn [map filter]. destruct (truthy (trim r)); constructor; [|constructor].
  now apply nodeRegex_test_trim.
Qed.

Lemma content_lines_node_lines nodes :
  Forall node_line nodes -> Forall accepted (content_lines (join NL nodes)).
Proof.
  intros H. rewrite content_lines_join. apply Forall_forall. intros l Hl.
  apply in_flat_map in Hl as [r [Hr Hl]]. rewrite Forall_forall in H.
  pose proof (content_lines_node_line r (H r Hr)) as Hc.
  rewrite Forall_forall in Hc. now apply Hc.
Qed.

Lemma mapM_Forall {A B} (f : A -> result B) (P : A -> Prop) (Q : B -> Prop) l :
  (forall a b, P a -> f a = Ok b -> Q b) ->
  forall r, Forall P l -> mapM f l = Ok r -> Forall Q r.
Proof.
  intros Hf. induction l as [|a t IH]; intros r Hl; cbn [mapM].
  - intros H. injection H as <-. constructor.
  - inversion Hl as [|? ? Ha Ht]; subst.
    destruct (f a) as [b|] eqn:Eb; [|discriminate]. cbn [bind].
    destruct (mapM f t) as [r'|]; [|discriminate]. cbn [bind].
    intros H. injection H as <-. constructor; [now apply (Hf a)|now apply IH].
Qed.

Lemma valid_lines_node_line text :
  Forall node_line (filter nodeRegex_test (map trim (split NL text))).
Proof.
  apply Forall_forall. intros l Hl. apply filter_In in Hl as [Hin Hn].
  split; [exact Hn|]. apply in_map_iff in Hin as [x [<- Hx]].
  intros Hc. apply trim_incl in Hc.
  pose proof (split_pieces NL text) as Hp. rewrite Forall_forall in Hp.
  exact (Hp x Hx Hc).
Qed.

Section ExcludeShape.

Context {R : RegExpImpl}.

(** The filter of a subscription keeps or drops each line on its own: the
    result is the input filtered by a test on the line. *)
Lemma applyExclude_filter exclude validNodes r :
  applyExclude exclude validNodes = Ok r ->
  exists keep, r = filter keep validNodes.
Proof.
  unfold applyExclude.
  destruct (truthy exclude && negb (str_eqb (trim exclude) []));
    [|intros H; injection H as <-; exists (fun _ => true);
      symmetry; apply filter_all; now intros].
  match goal with |- context [if ?c then _ else _] => destruct c end;
    (match goal with |- context [compile_names ?p] =>
       destruct (compile_names p) as [re|] end; [|discriminate]);
    cbn [bind]; intros H; injection H as <-; eexists; reflexivity.
Qed.

(** X3. The filter of a subscription never adds, repeats or reorders a
    line: its result is the input filtered by a test that looks at one
    line at a time; and a rule text that is blank filters nothing. *)
Theorem applyExclude_sublist exclude validNodes r :
  applyExclude exclude validNodes = Ok r ->
  (exists keep, r = filter keep validNodes)
  /\ (trim exclude = [] -> r = validNodes).
Proof.
  intros H. split; [now apply applyExclude_filter in H|].
  intros Hb. revert H. unfold applyExclude. rewrite Hb.
  change (str_eqb [] []) with true. rewrite andb_false_r. congruence.
Qed.

End ExcludeShape.

Section ValidOutput.

Context {J : JSONImpl} {R : RegExpImpl} {N : Network}.

Lemma processedManualNodes_node_lines config misubs manual :
  processedManualNodes config misubs = Ok manual ->
  exists nodes, manual = join NL nodes /\ Forall node_line nodes.
Proof.
  unfold processedManualNodes.
  destruct (mapM normalizeVmessLink _) as [normalized|] eqn:En; [|discriminate].
  cbn [bind].
  destruct (mapM _ normalized) as [nodes|] eqn:Ep; [|discriminate].
  cbn [bind]. intros H. injection H as <-. exists nodes. split; [reflexivity|].
  apply (mapM_Forall _ node_line node_line normalized) in Ep; [exact Ep| |].
  - intros a b Ha. destruct (prependSubName config).
    + now apply prependNodeName_node_line.
    + intros H. injection H as <-. exact Ha.
  - apply (mapM_Forall _ node_line node_line _
             normalizeVmessLink_node_line _ (valid_lines_node_line _) En).
Qed.

Lemma processSub_text_node_lines config userAgent sub :
  exists nodes,
    processSub_text config userAgent sub = join NL nodes
    /\ Forall node_line nodes.
Proof.
  unfold processSub_text, processSub.
  assert (Hnil : exists nodes : list jsstring,
             [] = join NL nodes /\ Forall node_line nodes)
    by (exists []; split; [reflexivity|constructor]).
  destruct (fetch (sub_url sub) userAgent) as [|ok body]; [exact Hnil|].
  destruct ok; cbn [negb try_catch]; [|exact Hnil].
  destruct (decodeBody body) as [text|]; cbn [bind try_catch]; [|exact Hnil].
  set (validNodes := filter nodeRegex_test _).
  assert (Hv : Forall node_line validNodes) by apply valid_lines_node_line.
  destruct (applyExclude (sub_exclude sub) validNodes) as [kept|] eqn:Ea;
    cbn [bind try_catch]; [|exact Hnil].
  assert (Hk : Forall node_line kept).
  { apply applyExclude_filter in Ea as [keep ->].
    rewrite Forall_forall in *. intros l Hl. apply filter_In in Hl as [Hl _].
    now apply Hv. }
  destruct (prependSubName config && truthy (sub_name sub)).
  - destruct (mapM _ kept) as [nodes|] eqn:Ep; cbn [bind try_catch];
      [|exact Hnil].
    exists nodes. split; [reflexivity|].
    apply (mapM_Forall _ node_line node_line kept) in Ep; [exact Ep| |exact Hk].
    intros a b Ha. now apply prependNodeName_node_line.
  - cbn [try_catch]. exists kept. now split.
Qed.

(** X4. Every line of the output after the optional summary line starts
    with one of the accepted schemes: the lines are [lines], each passes
    the scheme test of the source, and the output is their newline-join
    (after the summary line, when there is one).  Neither the vmess
    re-encoding nor the prefixing of names breaks a line. *)
Theorem output_lines_accepted config userAgent misubs prependedContent out :
  generateCombinedNodeList config userAgent misubs prependedContent = Ok out ->
  exists lines,
    Forall (fun l => nodeRegex_test l = true) lines
    /\ out = (if truthy prependedContent
              then prependedContent ++ NL :: join NL lines
              else join NL lines)
    /\ (lines <> [] -> split NL (join NL lines) = lines).
Proof.
  rewrite generateCombinedNodeList_eq.
  destruct (processedManualNodes config misubs) as [manual|e] eqn:Em;
    [|discriminate].
  cbn [bind]. intros H. injection H as <-.
  set (all := all_lines manual _).
  exists (unique all). split; [|split; [reflexivity|]].
  - assert (Hall : Forall accepted all).
    { unfold all, all_lines. apply Forall_app. split.
      - apply processedManualNodes_node_lines in Em as [nodes [-> Hn]].
        now apply content_lines_node_lines.
      - apply Forall_forall. intros l Hl.
        apply in_flat_map in Hl as [c [Hc Hl]].
        apply in_map_iff in Hc as [sub [<- _]].
        destruct (processSub_text_node_lines config userAgent sub)
          as [nodes [E Hn]].
        rewrite E in Hl.
        pose proof (content_lines_node_lines nodes Hn) as Hf.
        rewrite Forall_forall in Hf. now apply Hf. }
    rewrite unique_first_occurrences. rewrite Forall_forall in *.
    intros l Hl. apply Hall. now apply first_occurrences_In.
  - intros Hne. apply split_join; [assumption|].
    pose proof (unique_clean all (all_lines_clean _ _)) as Hu.
    eapply Forall_impl; [|exact Hu]. intros l [_ [_ H3]]. exact H3.
Qed.

End ValidOutput.

Section NodeNamesMore.

Context {J : JSONImpl}.

Set Default Proof Using "Type".

(** X5. [normalizeVmessLink] and [prependNodeName] map a line that
    starts with an accepted scheme and holds no newline to such a line:
    the pipeline never turns a node line into something the scheme test
    would refuse, and never into two lines. *)
Theorem node_line_preserved link prefix r :
  nodeRegex_test link = true -> ~ In NL link ->
  normalizeVmessLink link = Ok r \/ prependNodeName link prefix = Ok r ->
  nodeRegex_test r = true /\ ~ In NL r.
Proof.
  intros Hn Hl [H|H].
  - exact (normalizeVmessLink_node_line link r (conj Hn Hl) H).
  - exact (prependNodeName_node_line link prefix r (conj Hn Hl) H).
Qed.

Hypothesis JSON_parse_wf :
  forall s v, JSON_parse s = Ok v -> json_wf v.

Hypothesis JSON_stringify_no_bom :
  forall v t, JSON_stringify v <> 65279 :: t.

Hypothesis JSON_reparse :
  forall v, json_wf v ->
    exists v', JSON_parse (JSON_stringify v) = Ok v'
               /\ JSON_stringify v' = JSON_stringify v
               /\ same_shape v v'.

Lemma prependNodeName_vmess_decodes link prefix r :
  truthy prefix = true -> str_ok prefix ->
  prependNodeName_vmess link prefix = Ok r ->
  startsWith VMESS r = true
  /\ exists v, decode_config r = Ok v /\ named prefix v.
Proof using JSON_parse_wf JSON_stringify_no_bom JSON_reparse.
  intros Hp Hok. rewrite prependNodeName_vmess_eq.
  destruct (decode_config link) as [v0|] eqn:Ed; [|discriminate].
  cbn [bind].
  destruct (rename_config v0 prefix) as [v1|] eqn:Er; [|discriminate].
  cbn [bind]. intros Ee.
  pose proof (JSON_parse_wf_config JSON_parse_wf _ _ Ed) as Hwf0.
  destruct (rename_config_named _ _ _ Hp Hok Hwf0 Er) as [Hwf1 Hn1].
  destruct (decode_encode_config JSON_stringify_no_bom JSON_reparse
              v1 r Hwf1 Ee) as [Hv [v' [Hd [_ Hs]]]].
  split; [exact Hv|]. exists v'. split; [exact Hd|].
  exact (named_same_shape _ _ _ Hn1 Hs).
Qed.

(** X6. After [prependNodeName] has returned on a vmess link, the name
    is in place: either the result is a vmess link whose configuration
    decodes to an object with a string [ps] that starts with the prefix
    (or to an array, which has no [ps]), or the [catch] branch was taken
    and the fragment of the result starts with the prefix. *)
Theorem prependNodeName_vmess_named link prefix r :
  truthy prefix = true -> str_ok prefix ->
  startsWith VMESS link = true ->
  prependNodeName link prefix = Ok r ->
  startsWith VMESS r = true
  /\ ((exists v, decode_config r = Ok v /\ named prefix v)
      \/ (exists name, fragment_name r = Some name
                       /\ startsWith prefix name = true)).
Proof using JSON_parse_wf JSON_stringify_no_bom JSON_reparse.
  intros Hp Hok Hv. unfold prependNodeName. rewrite Hp, Hv. cbn [negb].
  destruct (prependNodeName_vmess link prefix) as [y|] eqn:Ey; cbn [try_catch].
  - intros H. injection H as <-.
    destruct (prependNodeName_vmess_decodes _ _ _ Hp Hok Ey) as [H1 H2].
    split; [exact H1|now left].
  - intros H. split.
    + now rewrite (appendToFragment_scheme _ _ _ H).
    + right. exact (appendToFragment_named _ _ _ Hp H).
Qed.

End NodeNamesMore.

(** ** Errors of the aggregation *)

Lemma mapM_returns_or {A B} (f : A -> result B) (e0 : exn) l :
  (forall x e, f x = Throw e -> e = e0) ->
  (exists r, mapM f l = Ok r) \/ mapM f l = Throw e0.
Proof.
  intros Hf. induction l as [|a t IH]; cbn [mapM]; [left; now eexists|].
  destruct (f a) as [y|e] eqn:Ea; cbn [bind];
    [|right; f_equal; exact (Hf a e Ea)].
  destruct IH as [[r ->]| ->]; cbn [bind]; [left; now eexists|now right].
Qed.

Lemma mapM_throws {A B} (f : A -> result B) (e0 : exn) l a :
  (forall x e, f x = Throw e -> e = e0) ->
  In a l -> f a = Throw e0 -> mapM f l = Throw e0.
Proof.
  intros Hf Hin Ha. induction l as [|b t IH]; [contradiction|].
  cbn [mapM]. destruct Hin as [->|Hin].
  - now rewrite Ha.
  - destruct (f b) as [y|e] eqn:Eb; cbn [bind];
      [|f_equal; exact (Hf b e Eb)].
    now rewrite (IH Hin).
Qed.

Lemma mapM_In {A B} (f : A -> result B) l r a :
  mapM f l = Ok r -> In a l -> exists b, f a = Ok b /\ In b r.
Proof.
  revert r. induction l as [|x t IH]; intros r; [contradiction|].
  cbn [mapM]. destruct (f x) as [y|] eqn:Ey; [|discriminate]. cbn [bind].
  destruct (mapM f t) as [r'|]; [|discriminate]. cbn [bind].
  intros H [->|Hin]; injection H as <-.
  - exists y. split; [assumption|now left].
  - destruct (IH r' eq_refl Hin) as [b [Hb Hr]]. exists b.
    split; [assumption|now right].
Qed.

Lemma manual_line_In misubs sub :
  In sub misubs -> is_http sub = false -> ~ In NL (sub_url sub) ->
  In (sub_url sub) (split NL (manualNodesContent misubs)).
Proof.
  intros Hin Hh Hn. unfold manualNodesContent.
  induction misubs as [|s t IH]; [contradiction|].
  cbn [filter]. destruct Hin as [->|Hin].
  - rewrite Hh. cbn [negb flat_map]. rewrite <- app_assoc. cbn [app].
    rewrite split_app, (split_no_sep NL _ Hn). now left.
  - destruct (negb (is_http s)); [|now apply IH].
    cbn [flat_map]. rewrite <- app_assoc. cbn [app]. rewrite split_app.
    apply in_or_app. right. now apply IH.
Qed.

Lemma manualNodesContent_http misubs :
  forallb is_http misubs = true -> manualNodesContent misubs = [].
Proof.
  unfold manualNodesContent. induction misubs as [|s t IH]; [reflexivity|].
  cbn [forallb]. intros Hc. apply andb_true_iff in Hc as [Hs Ht].
  cbn [filter]. rewrite Hs. cbn [negb]. now apply IH.
Qed.

Section AggregationErrors.

Context {J : JSONImpl} {R : RegExpImpl} {N : Network}.

Lemma normalizeVmessLink_returns link :
  exists y, normalizeVmessLink link = Ok y
            /\ (startsWith VMESS link = false -> y = link).
Proof.
  rewrite normalizeVmessLink_eq. destruct (startsWith VMESS link); cbn [negb].
  - destruct (v <- decode_config link ;; encode_config v) as [y|];
      cbn [try_catch]; eexists; (split; [reflexivity|discriminate]).
  - exists link. now split.
Qed.

Lemma mapM_normalize_returns lines :
  exists normalized, mapM normalizeVmessLink lines = Ok normalized.
Proof.
  destruct (mapM_returns_or normalizeVmessLink URIError lines) as [H|H].
  - intros x e He. destruct (normalizeVmessLink_returns x) as [y [Hy _]].
    congruence.
  - exact H.
  - exfalso. revert H. induction lines as [|a t IH]; cbn [mapM]; [discriminate|].
    destruct (normalizeVmessLink_returns a) as [y [-> _]]. cbn [bind].
    destruct (mapM normalizeVmessLink t); cbn [bind]; [discriminate|].
    intros H. now apply IH.
Qed.

Lemma generateCombinedNodeList_manual config userAgent misubs prependedContent :
  (exists manual out,
     processedManualNodes config misubs = Ok manual
     /\ generateCombinedNodeList config userAgent misubs prependedContent
        = Ok out)
  \/ (exists e,
        processedManualNodes config misubs = Throw e
        /\ generateCombinedNodeList config userAgent misubs prependedContent
           = Throw e).
Proof.
  rewrite generateCombinedNodeList_eq.
  destruct (processedManualNodes config misubs) as [manual|e]; cbn [bind].
  - left. now do 2 eexists.
  - right. now eexists.
Qed.

Lemma generateCombinedNodeList_error
    config userAgent misubs prependedContent e :
  generateCombinedNodeList config userAgent misubs prependedContent = Throw e ->
  e = URIError /\ processedManualNodes config misubs = Throw URIError.
Proof.
  intros He.
  destruct (generateCombinedNodeList_manual config userAgent misubs
              prependedContent) as [[manual [out [_ H]]]|[e' [Hm H]]];
    [congruence|].
  assert (e' = e) by congruence. subst e'. clear H He.
  enough (e = URIError) by (subst; now split).
  revert Hm. unfold processedManualNodes.
  destruct (mapM_normalize_returns
              (filter nodeRegex_test
                 (map trim (split NL (manualNodesContent misubs)))))
    as [normalized ->].
  cbn [bind].
  destruct (mapM_returns_or
              (fun node => if prependSubName config
                           then prependNodeName node MANUAL_LABEL
                           else Ok node) URIError normalized) as [[r ->]| ->].
  - intros x e0. destruct (prependSubName config); [|discriminate].
    apply prependNodeName_error.
  - discriminate.
  - cbn [bind]. congruence.
Qed.

(** X7. The aggregation returns or throws a URIError, and nothing else;
    only the manual nodes can make it throw: the work on an HTTP
    subscription is wrapped in [try]/[catch]. *)
Theorem generateCombinedNodeList_returns_or_URIError
    config userAgent misubs prependedContent :
  (exists out,
     generateCombinedNodeList config userAgent misubs prependedContent = Ok out)
  \/ (generateCombinedNodeList config userAgent misubs prependedContent
      = Throw URIError
      /\ processedManualNodes config misubs = Throw URIError).
Proof.
  destruct (generateCombinedNodeList config userAgent misubs prependedContent)
    as [out|e] eqn:E.
  - left. now exists out.
  - right.
    destruct (generateCombinedNodeList_error _ _ _ _ _ E) as [-> Hm].
    now split.
Qed.

(** X8. With name prefixing switched off, or with HTTP subscriptions
    only, the aggregation always returns. *)
Theorem generateCombinedNodeList_returns
    config userAgent misubs prependedContent :
  prependSubName config = false \/ forallb is_http misubs = true ->
  exists out,
    generateCombinedNodeList config userAgent misubs prependedContent = Ok out.
Proof.
  intros Hc.
  destruct (generateCombinedNodeList_manual config userAgent misubs
              prependedContent) as [[manual [out [_ H]]]|[e [Hm H]]];
    [now exists out|].
  exfalso. revert Hm. unfold processedManualNodes.
  destruct Hc as [Hc|Hc].
  - destruct (mapM_normalize_returns
                (filter nodeRegex_test
                   (map trim (split NL (manualNodesContent misubs)))))
      as [normalized ->].
    cbn [bind]. rewrite Hc.
    rewrite (mapM_total _ (fun node => node)) by reflexivity.
    discriminate.
  - rewrite (manualNodesContent_http misubs Hc). discriminate.
Qed.

(** X9. With name prefixing on, a manual node of another scheme than
    vmess whose fragment is not valid percent-encoding makes the whole
    aggregation throw, whatever the other entries are. *)
Theorem manual_node_error_aborts
    config userAgent misubs prependedContent sub i e :
  prependSubName config = true ->
  In sub misubs -> is_http sub = false ->
  ~ In NL (sub_url sub) ->
  nodeRegex_test (trim (sub_url sub)) = true ->
  startsWith VMESS (trim (sub_url sub)) = false ->
  lastIndexOf HASH (trim (sub_url sub)) = Some i ->
  decodeURIComponent (substring_from (i + 1) (trim (sub_url sub))) = Throw e ->
  generateCombinedNodeList config userAgent misubs prependedContent
  = Throw URIError.
Proof.
  intros Hc Hin Hh Hnl Hn Hv Hi Hd.
  destruct (generateCombinedNodeList config userAgent misubs prependedContent)
    as [out|e0] eqn:H;
    [exfalso
    |f_equal; exact (proj1 (generateCombinedNodeList_error _ _ _ _ _ H))].
  destruct (generateCombinedNodeList_manual config userAgent misubs
              prependedContent) as [[manual [out' [Hm _]]]|[e' [_ H']]];
    [|congruence].
  clear H. revert Hm. unfold processedManualNodes.
  destruct (mapM normalizeVmessLink _) as [normalized|] eqn:En; [|discriminate].
  cbn [bind]. rewrite Hc.
  set (line := trim (sub_url sub)) in *.
  assert (Hline : In line
            (filter nodeRegex_test
               (map trim (split NL (manualNodesContent misubs))))).
  { apply filter_In. split; [|exact Hn]. apply in_map.
    now apply manual_line_In. }
  destruct (mapM_In _ _ _ _ En Hline) as [y [Hy Hyn]].
  destruct (normalizeVmessLink_returns line) as [y' [Hy' Hsame]].
  assert (y = line) by (rewrite Hy in Hy'; injection Hy' as ->; auto).
  subst y.
  assert (Ht : prependNodeName line MANUAL_LABEL = Throw URIError).
  { pose proof (prependNodeName_fragment_error line MANUAL_LABEL i e
                  eq_refl Hv Hi Hd) as Hp.
    rewrite Hp. f_equal.
    exact (prependNodeName_error line MANUAL_LABEL e Hp). }
  rewrite (mapM_throws _ URIError normalized line
             (fun x => prependNodeName_error x MANUAL_LABEL)
             Hyn Ht).
  discriminate.
Qed.

End AggregationErrors.

(** ** The scope of a request *)

(** X10. A request is resolved only with the right token: the profile
    token when the path carries a profile identifier, the main token
    otherwise, read from the path or, when the path has no segment, from
    the query. *)
Theorem resolved_scope_authorized
    config allMisubs allProfiles pathname queryToken subs name conv conf :
  handleMisubRequest_scope config allMisubs allProfiles pathname queryToken
  = Resolved subs name conv conf ->
  match pathSegments pathname with
  | token :: _ :: _ => token = profileToken config
  | [token] => token = mytoken config
  | [] => queryToken = Some (mytoken config)
  end.
Proof.
  unfold handleMisubRequest_scope.
  pose proof (pathSegments_truthy pathname) as Ht.
  destruct (pathSegments pathname) as [|token [|pid rest]].
  - cbn [option_truthy]. destruct queryToken as [t|]; [|discriminate].
    cbn [option_truthy token_differs]. destruct (truthy t); [|discriminate].
    cbn [negb orb]. destruct (str_eqb t (mytoken config)) eqn:E; [|discriminate].
    apply str_eqb_eq in E. now subst.
  - cbn [option_truthy token_differs].
    rewrite (Ht token) by now left. cbn [negb orb].
    destruct (str_eqb token (mytoken config)) eqn:E; [|discriminate].
    now apply str_eqb_eq in E.
  - cbn [option_truthy token_differs].
    rewrite (Ht pid) by (right; now left).
    rewrite (Ht token) by now left. cbn [negb orb].
    destruct (str_eqb token (profileToken config)) eqn:E; [|discriminate].
    now apply str_eqb_eq in E.
Qed.

(** X11. Whatever the branch, a resolved scope serves enabled entries
    only, taken from the stored list in its order, and its converter is
    not blank. *)
Theorem resolved_scope_enabled_only
    config allMisubs allProfiles pathname queryToken subs name conv conf :
  handleMisubRequest_scope config allMisubs allProfiles pathname queryToken
  = Resolved subs name conv conf ->
  Forall (fun s => sub_enabled s = true) subs
  /\ (exists keep, subs = filter keep allMisubs)
  /\ trim conv <> [].
Proof.
  unfold handleMisubRequest_scope.
  set (finish := fun targetMisubs subName conv0 conf0 =>
                   if negb (truthy conv0) || str_eqb (trim conv0) []
                   then Rejected 500
                   else Resolved targetMisubs subName conv0 conf0).
  assert (Hfinish : forall keep name0 conv0 conf0,
             (forall s, keep s = true -> sub_enabled s = true) ->
             finish (filter keep allMisubs) name0 conv0 conf0
             = Resolved subs name conv conf ->
             Forall (fun s => sub_enabled s = true) subs
             /\ (exists keep, subs = filter keep allMisubs)
             /\ trim conv <> []).
  { intros keep name0 conv0 conf0 Hk. unfold finish.
    destruct (negb (truthy conv0)); [discriminate|]. cbn [orb].
    destruct (str_eqb (trim conv0) []) eqn:E; [discriminate|].
    apply str_eqb_neq in E. intros H. injection H as <- _ <- _.
    split; [|split; [now exists keep|exact E]].
    apply Forall_forall. intros s Hs. apply filter_In in Hs as [_ Hs].
    now apply Hk. }
  destruct (option_truthy _).
  - destruct (_ || _); [discriminate|].
    destruct (find _ allProfiles) as [profile|]; [|discriminate].
    destruct (profile_enabled profile); [|discriminate].
    apply Hfinish. intros s.
    destruct (startsWith HTTP (sub_url s)); intros H;
      now apply andb_true_iff in H as [H _].
  - destruct (_ || _); [discriminate|].
    apply Hfinish. now intros s.
Qed.

(** ** The format of the answer *)

Lemma includes_spec needle s :
  includes needle s = true <-> exists pre post, s = pre ++ needle ++ post.
Proof.
  split.
  - induction s as [|c t IH]; cbn [includes]; rewrite orb_true_iff.
    + intros [H|H]; [|discriminate].
      apply startsWith_prefix in H as [r ->]. now exists [], r.
    + intros [H|H].
      * apply startsWith_prefix in H as [r ->]. now exists [], r.
      * destruct (IH H) as [pre [post ->]]. now exists (c :: pre), post.
  - intros [pre [post ->]]. induction pre as [|c pre IH].
    + cbn [app]. destruct (needle ++ post) eqn:E; cbn [includes];
        rewrite <- E, startsWith_app; reflexivity.
    + cbn [app includes]. rewrite IH. apply orb_true_r.
Qed.

Lemma includes_infix a k b s :
  includes (a ++ k ++ b) s = true -> includes k s = true.
Proof.
  rewrite !includes_spec. intros [pre [post ->]].
  exists (pre ++ a), (b ++ post). now rewrite <- !app_assoc.
Qed.

Definition knownFormats : list jsstring :=
  Eval cbv in
    map lit ["clash"; "singbox"; "surge"; "loon"; "base64"; "quanx"]%string.

Ltac next_test :=
  match goal with
  | |- context [match (if ?c then _ else _) with _ => _ end] =>
      destruct c eqn:?
  | |- context [if ?c then _ else _] => destruct c eqn:?
  end.

(** X12. The format is the [target] parameter when it is not empty, and
    otherwise one of six names - never the empty string, and never
    [v2ray] or [trojan], which the query flags turn into [base64]. *)
Theorem targetFormat_known target has userAgentHeader :
  (option_truthy target = true
   /\ target = Some (targetFormat target has userAgentHeader))
  \/ (option_truthy target = false
      /\ In (targetFormat target has userAgentHeader) knownFormats).
Proof.
  unfold targetFormat, targetFormat_with, targetFormat_query.
  destruct (option_truthy target) eqn:Et.
  - left. split; [reflexivity|]. unfold targetFormat_ua. rewrite Et.
    destruct target as [t|]; [|discriminate]. cbn [option_truthy] in Et.
    now rewrite Et.
  - right. split; [reflexivity|].
    assert (Hua : forall t0, option_truthy t0 = false ->
              In match targetFormat_ua uaMapping t0 userAgentHeader with
                 | Some f => if truthy f then f else lit "clash"
                 | None => lit "clash"
                 end knownFormats).
    { intros t0 H0. unfold targetFormat_ua. rewrite H0.
      unfold uaMapping. cbn [find fst snd].
      repeat (match goal with
              | |- context [includes ?k ?u] => destruct (includes k u)
              end; [vm_compute; tauto|]).
      destruct t0 as [f|]; [|vm_compute; tauto].
      cbn [option_truthy] in H0. rewrite H0. vm_compute; tauto. }
    unfold supportedFormats. cbn [find].
    repeat (match goal with
            | |- context [has ?k] => destruct (has k)
            end; [vm_compute; tauto|]).
    now apply Hua.
Qed.

(** Keywords of the mapping that never decide. *)
Definition shadowed : list jsstring :=
  Eval cbv in map lit ["clash.meta"; "v2rayng"; "quantumult%20x"]%string.

Lemma find_shadowed u :
  option_map snd
    (find (fun kf : jsstring * jsstring => includes (fst kf) u)
          (filter (fun kf => negb (set_has shadowed (fst kf))) uaMapping))
  = option_map snd
      (find (fun kf : jsstring * jsstring => includes (fst kf) u) uaMapping).
Proof.
  assert (H1 : includes (lit "clash.meta") u = true ->
               includes (lit "meta") u = true)
    by apply (includes_infix (lit "clash.") (lit "meta") []).
  assert (H2 : includes (lit "v2rayng") u = true ->
               includes (lit "v2rayn") u = true)
    by apply (includes_infix [] (lit "v2rayn") (lit "g")).
  assert (H3 : includes (lit "quantumult%20x") u = true ->
               includes (lit "quantumult") u = true)
    by apply (includes_infix [] (lit "quantumult") (lit "%20x")).
  let r := eval vm_compute in
             (filter (fun kf => negb (set_has shadowed (fst kf))) uaMapping) in
  change (filter (fun kf => negb (set_has shadowed (fst kf))) uaMapping) with r.
  unfold uaMapping. cbn [find fst snd].
  change (lit "clash.meta") with
    [99; 108; 97; 115; 104; 46; 109; 101; 116; 97]%Z in H1.
  change (lit "meta") with [109; 101; 116; 97]%Z in H1.
  change (lit "v2rayng") with [118; 50; 114; 97; 121; 110; 103]%Z in H2.
  change (lit "v2rayn") with [118; 50; 114; 97; 121; 110]%Z in H2.
  change (lit "quantumult%20x") with
    [113; 117; 97; 110; 116; 117; 109; 117; 108; 116; 37; 50; 48; 120]%Z in H3.
  change (lit "quantumult") with
    [113; 117; 97; 110; 116; 117; 109; 117; 108; 116]%Z in H3.
  repeat (match goal with
          | |- _ = option_map snd (if ?c then _ else _) =>
              destruct c;
              [first
                 [ reflexivity
                 | discriminate (H2 eq_refl)
                 | rewrite (H3 eq_refl); reflexivity
                 | rewrite (H1 eq_refl);
                   match goal with
                   | |- option_map snd (if ?d then _ else _) = _ =>
                       destruct d; reflexivity
                   end ]
              |]
          end).
  reflexivity.
Qed.

(** X13. Three entries of the User-Agent mapping never decide the
    format: [clash.meta] (every agent that includes it includes [meta],
    and all entries up to [meta] give [clash]), [v2rayng] (it comes after
    [v2rayn], which it includes) and [quantumult%20x] (followed by
    [quantumult], with the same format).  Without them the selection is
    the same function. *)
Theorem uaMapping_shadowed_entries target has userAgentHeader :
  targetFormat_with
    (filter (fun kf => negb (set_has shadowed (fst kf))) uaMapping)
    target has userAgentHeader
  = targetFormat target has userAgentHeader.
Proof.
  unfold targetFormat, targetFormat_with, targetFormat_ua.
  destruct (option_truthy (targetFormat_query target has)); [reflexivity|].
  pose proof (find_shadowed (toLowerCase userAgentHeader)) as H.
  cbv zeta.
  destruct (find _ (filter _ uaMapping)) as [kf|];
    destruct (find _ uaMapping) as [kf'|]; cbn [option_map] in H;
    try discriminate; [|reflexivity].
  injection H as ->. reflexivity.
Qed.

(** ** The base64 answer *)

Lemma remove_spaces_alphabet b :
  forallb is_base64_alphabet b = true -> remove_spaces b = b.
Proof.
  intros H. unfold remove_spaces. induction b as [|c t IH]; [reflexivity|].
  cbn [forallb] in H. apply andb_true_iff in H as [Hc Ht].
  cbn [filter].
  replace (is_space c) with false
    by (unfold is_base64_alphabet, is_alnum in Hc; unfold is_space; lia).
  cbn [negb]. now rewrite IH.
Qed.

(** X14. The body answered for the base64 format is read back by the
    decoder of a subscription body: a list of more than 20 encoded
    characters that does not begin with U+FEFF, served by one instance
    and fetched by another, is decoded to the same text.  The encoding
    fails only where [encodeURIComponent] does, on an unpaired
    surrogate. *)
Theorem base64Content_round_trip combinedNodeList :
  (forall t, combinedNodeList <> 65279 :: t) ->
  ((exists b, base64Content combinedNodeList = Ok b)
   \/ (base64Content combinedNodeList = Throw URIError
       /\ encodeURIComponent combinedNodeList = Throw URIError))
  /\ (forall b, base64Content combinedNodeList = Ok b ->
                (20 < length b)%nat ->
                decodeBody b = Ok combinedNodeList).
Proof.
  intros Hbom. unfold base64Content.
  destruct (encodeURIComponent combinedNodeList) as [enc|e] eqn:Ee;
    cbn [bind].
  - destruct (btoa_unescape_encode _ _ Ee) as [b Hb]. split.
    + left. now exists b.
    + intros b' Hb' Hlen. rewrite Hb in Hb'. injection Hb' as <-.
      unfold decodeBody.
      pose proof (btoa_alphabet _ _ Hb) as Ha.
      rewrite (remove_spaces_alphabet b Ha).
      rewrite (proj2 (Nat.ltb_lt 20 (length b)) Hlen).
      replace (base64_regex_test b) with true.
      * cbn [andb]. rewrite (atob_btoa _ _ Hb). cbn [bind try_catch].
        now rewrite (TextDecoder_decode_utf8 _ _ Ee Hbom).
      * unfold base64_regex_test. symmetry. apply andb_true_iff. split.
        -- destruct b; [simpl in Hlen; lia|reflexivity].
        -- exact Ha.
  - pose proof (encodeURIComponent_error _ _ Ee) as ->.
    split; [right; now split|discriminate].
Qed.

(** ** Routing *)

Lemma is_word_not_dot ext : forallb is_word ext = true -> ~ In 46 ext.
Proof.
  intros H Hin. rewrite forallb_forall in H. specialize (H _ Hin).
  discriminate H.
Qed.

Lemma has_extension_suffix p ext :
  truthy ext = true -> forallb is_word ext = true ->
  has_extension (p ++ 46 :: ext) = true.
Proof.
  intros Ht Hw. unfold has_extension.
  rewrite (lastIndexOf_last 46 p ext (is_word_not_dot ext Hw)).
  unfold substring_from. rewrite skipn_app, skipn_all2 by lia.
  replace (length p + 1 - length p)%nat with 1%nat by lia.
  cbn [skipn app]. now rewrite Ht, Hw.
Qed.

(** X15. A path that ends in a dot followed by letters, digits or
    underscores is taken for a static file: whatever comes before -
    a token, a profile identifier - the request is never handed to
    [handleMisubRequest]. *)
Theorem dotted_path_not_served cron p ext :
  truthy ext = true -> forallb is_word ext = true ->
  onRequest_route cron (p ++ 46 :: ext) <> MisubRequest.
Proof.
  intros Ht Hw. unfold onRequest_route.
  destruct (option_truthy cron); [discriminate|].
  destruct (startsWith (lit "/api/") _); [discriminate|].
  rewrite (has_extension_suffix p ext Ht Hw), orb_true_r. discriminate.
Qed.

(** ** Signed session tokens *)

Lemma byte_hex_no_dot b : 0 <= b <= 255 -> ~ In 46 (byte_hex b).
Proof.
  intros Hb. unfold byte_hex. cbv zeta.
  intros [H|[H|[]]]; revert H; case_if; lia.
Qed.

Lemma split_length_In sep s : In sep s -> (2 <= length (split sep s))%nat.
Proof.
  induction s as [|c t IH]; [contradiction|]. cbn [split].
  destruct (c =? sep) eqn:E.
  - intros _. pose proof (split_nonempty sep t).
    destruct (split sep t); [contradiction|]. cbn [length]. lia.
  - intros [H|H]; [lia|]. specialize (IH H).
    destruct (split sep t) as [|h r]; [simpl in IH; lia|]. exact IH.
Qed.

Lemma join_split sep s : join sep (split sep s) = s.
Proof.
  induction s as [|c t IH]; [reflexivity|]. cbn [split].
  pose proof (split_nonempty sep t) as Hne.
  destruct (c =? sep) eqn:E.
  - apply Z.eqb_eq in E. subst c.
    destruct (split sep t) as [|h r]; [contradiction|].
    change (join sep ([] :: h :: r)) with ([] ++ sep :: join sep (h :: r)).
    now rewrite IH.
  - destruct (split sep t) as [|h r]; [contradiction|].
    destruct r as [|h' r'].
    + cbn [join] in *. now rewrite IH.
    + change (join sep ((c :: h) :: h' :: r'))
        with (c :: (h ++ sep :: join sep (h' :: r'))).
      change (join sep (h :: h' :: r'))
        with (h ++ sep :: join sep (h' :: r')) in IH.
      now rewrite IH.
Qed.

Section TokenProperties.

Context {C : Crypto}.

Lemma signature_no_dot key data :
  ~ In 46 (flat_map byte_hex (hmac_sha256 key data)).
Proof.
  intros H. apply in_flat_map in H as [b [Hb Hin]].
  pose proof (hmac_sha256_bytes key data) as Hr. rewrite Forall_forall in Hr.
  exact (byte_hex_no_dot b (Hr b Hb) Hin).
Qed.

(** X16. A token made by [createSignedToken] is verified, and gives its
    data back, exactly when the data holds no dot; signed data with a dot
    in it is refused, as the token then splits into more than two
    parts. *)
Theorem verifySignedToken_createSignedToken key data :
  truthy key = true -> truthy data = true ->
  exists token,
    createSignedToken key data = Returns token
    /\ (~ In 46 data -> verifySignedToken key token = Returns (Some data))
    /\ (In 46 data -> verifySignedToken key token = Returns None).
Proof.
  intros Hk Hd. unfold createSignedToken. rewrite Hk, Hd. cbn [negb orb].
  eexists. split; [reflexivity|].
  set (sig := flat_map byte_hex (hmac_sha256 key data)).
  pose proof (signature_no_dot key data) as Hsig. fold sig in Hsig.
  unfold verifySignedToken. rewrite Hk. cbn [negb orb].
  replace (truthy (data ++ 46 :: sig)) with true
    by (destruct data; [discriminate|reflexivity]).
  cbn [negb]. rewrite split_app, (split_no_sep 46 sig Hsig). split.
  - intros Hn. rewrite (split_no_sep 46 data Hn). cbn [app length hd].
    cbn [Nat.eqb negb]. unfold createSignedToken. rewrite Hk, Hd.
    cbn [negb orb]. fold sig. now rewrite str_eqb_refl.
  - intros Hin. pose proof (split_length_In 46 data Hin) as Hl.
    rewrite length_app. cbn [length].
    replace (length (split 46 data) + 1 =? 2)%nat with false
      by (symmetry; apply Nat.eqb_neq; lia).
    reflexivity.
Qed.

(** X17. [verifySignedToken] accepts no other token than the one
    [createSignedToken] makes for the data it returns; and it throws,
    instead of returning [null], exactly on the tokens made of a dot
    followed by a text without a dot, whose data part is empty. *)
Theorem verifySignedToken_sound key token :
  (forall data, verifySignedToken key token = Returns (Some data) ->
                createSignedToken key data = Returns token)
  /\ (verifySignedToken key token = ThrowsError
      <-> truthy key = true
          /\ exists sig, token = 46 :: sig /\ ~ In 46 sig).
Proof.
  unfold verifySignedToken. destruct (truthy key) eqn:Hk; cbn [negb orb].
  2: { split; [discriminate|]. split; [discriminate|]. now intros [H _]. }
  destruct (truthy token) eqn:Ht; cbn [negb].
  2: { split; [discriminate|]. split; [discriminate|].
       intros [_ [sig [-> _]]]. discriminate. }
  pose proof (join_split 46 token) as Hj.
  pose proof (split_pieces 46 token) as Hp.
  destruct (split 46 token) as [|d [|x [|y r]]]; cbn [length Nat.eqb negb hd].
  - split; [discriminate|]. split; [discriminate|].
    intros [_ [sig [-> _]]]. discriminate.
  - split; [discriminate|]. split; [discriminate|].
    intros [_ [sig [-> _]]]. exfalso. cbn [join] in Hj. subst d.
    inversion Hp as [|? ? Hd _]. apply Hd. now left.
  - change (join 46 [d; x]) with (d ++ 46 :: x) in Hj.
    unfold createSignedToken. rewrite Hk. cbn [negb orb].
    destruct (truthy d) eqn:Hd; cbn [negb].
    + split.
      * intros data. destruct (str_eqb token _) eqn:E; [|discriminate].
        apply str_eqb_eq in E. intros H. injection H as <-.
        rewrite Hd. cbn [negb]. now rewrite <- E.
      * split; [discriminate|]. intros [_ [sig [Hs _]]]. exfalso.
        rewrite Hs in Hj. destruct d; [discriminate|].
        inversion Hp as [|? ? Hd' _]. apply Hd'.
        injection Hj as -> _. now left.
    + split; [discriminate|]. split; [|reflexivity]. intros _.
      split; [reflexivity|]. destruct d; [|discriminate]. exists x.
      split; [now rewrite <- Hj|].
      inversion Hp as [|? ? _ Hx]. now inversion Hx.
  - split; [discriminate|]. split; [discriminate|].
    intros [_ [sig [Hs Hn]]]. exfalso. rewrite Hs in Hj.
    change (join 46 (d :: x :: y :: r))
      with (d ++ 46 :: x ++ 46 :: join 46 (y :: r)) in Hj.
    destruct d as [|c d'].
    + injection Hj as Hj. apply Hn. rewrite <- Hj. apply in_or_app.
      right. now left.
    + inversion Hp as [|? ? Hd' _]. apply Hd'. injection Hj as -> _. now left.
Qed.

End TokenProperties.

Lemma trimStart_spaces lead s :
  forallb is_space lead = true -> trimStart (lead ++ s) = trimStart s.
Proof.
  induction lead as [|c t IH]; [reflexivity|]. cbn [forallb app trimStart].
  intros H. apply andb_true_iff in H as [-> Ht]. now apply IH.
Qed.

Lemma spaces_not_In c lead :
  is_space c = false -> forallb is_space lead = true -> ~ In c lead.
Proof.
  intros Hc H Hin. rewrite forallb_forall in H. specialize (H c Hin). congruence.
Qed.

Lemma find_app_skip {A} (f : A -> bool) l1 l2 :
  Forall (fun x => f x = false) l1 -> find f (l1 ++ l2) = find f l2.
Proof.
  induction 1 as [|x t Hx _ IH]; [reflexivity|]. cbn [app find]. now rewrite Hx.
Qed.

Lemma COOKIE_NAME_plain c : In c [46; 59; 61] -> ~ In c COOKIE_NAME.
Proof.
  intros [<-|[<-|[<-|[]]]]; unfold COOKIE_NAME; intros H;
    repeat (destruct H as [H|H]; [discriminate H|]); exact H.
Qed.

Section SessionCookie.

Context {C : Crypto}.

Lemma verifySignedToken_signed key data :
  truthy key = true -> truthy data = true -> ~ In 46 data ->
  verifySignedToken key
    (data ++ 46 :: flat_map byte_hex (hmac_sha256 key data))
  = Returns (Some data).
Proof.
  intros Hk Hd Hn.
  set (sig := flat_map byte_hex (hmac_sha256 key data)).
  pose proof (signature_no_dot key data) as Hsig. fold sig in Hsig.
  unfold verifySignedToken. rewrite Hk. cbn [negb orb].
  replace (truthy (data ++ 46 :: sig)) with true
    by (destruct data; [discriminate|reflexivity]).
  cbn [negb]. rewrite split_app, (split_no_sep 46 sig Hsig).
  rewrite (split_no_sep 46 data Hn). cbn [app length hd Nat.eqb negb].
  unfold createSignedToken. rewrite Hk, Hd.
  cbn [negb orb]. fold sig. now rewrite str_eqb_refl.
Qed.

Lemma verifySignedToken_empty_data key sig :
  truthy key = true -> ~ In 46 sig ->
  verifySignedToken key (46 :: sig) = ThrowsError.
Proof.
  intros Hk Hn. unfold verifySignedToken. rewrite Hk. cbn [negb orb truthy].
  cbn [split]. rewrite Z.eqb_refl, (split_no_sep 46 sig Hn).
  cbn [length Nat.eqb negb hd]. unfold createSignedToken.
  rewrite Hk. reflexivity.
Qed.

(** The cookie header: other cookies, then the session cookie, after
    white space. *)
Definition cookie_header (others : list jsstring) (lead token : jsstring)
  : jsstring :=
  join 59 (others ++ [lead ++ COOKIE_NAME ++ 61 :: token]).

Definition other_cookie (part : jsstring) : Prop :=
  ~ In 59 part /\ startsWith (COOKIE_NAME ++ [61]) (trim part) = false.

Lemma session_token_extracted key others lead token :
  truthy key = true ->
  Forall other_cookie others -> forallb is_space lead = true ->
  ~ In 59 token -> ~ In 61 token ->
  authMiddleware_verifiedData key (Some (cookie_header others lead token))
  = verifySignedToken key token.
Proof.
  intros Hk Ho Hl H59 H61. unfold authMiddleware_verifiedData, cookie_header.
  rewrite Hk. cbn [negb].
  set (part := lead ++ COOKIE_NAME ++ 61 :: token).
  assert (Hpart : ~ In 59 part).
  { unfold part. intros H. apply in_app_or in H as [H|H].
    - exact (spaces_not_In 59 lead eq_refl Hl H).
    - apply in_app_or in H as [H|[H|H]].
      + apply (COOKIE_NAME_plain 59); [right; now left|exact H].
      + discriminate H.
      + exact (H59 H). }
  rewrite split_join.
  2: { destruct others; discriminate. }
  2: { apply Forall_app. split.
       - eapply Forall_impl; [|exact Ho]. now intros x [Hx _].
       - now constructor. }
  rewrite find_app_skip
    by (eapply Forall_impl; [|exact Ho]; now intros x [_ Hx]).
  cbn [find].
  assert (Htrim : startsWith (COOKIE_NAME ++ [61]) (trim part) = true).
  { unfold part, trim. rewrite (trimStart_spaces lead _ Hl).
    rewrite trimStart_fixed by reflexivity.
    change (COOKIE_NAME ++ 61 :: token) with ((COOKIE_NAME ++ [61]) ++ token)
      at 1.
    destruct (trimEnd_keeps COOKIE_NAME 61 token eq_refl) as [x Hx].
    replace (COOKIE_NAME ++ 61 :: token) with ((COOKIE_NAME ++ [61]) ++ token)
      by (now rewrite <- app_assoc).
    rewrite Hx. apply startsWith_app. }
  rewrite Htrim.
  replace (truthy part) with true
    by (unfold part; destruct lead; reflexivity).
  cbn [negb]. unfold part. rewrite app_assoc, split_app.
  rewrite (split_no_sep 61 (lead ++ COOKIE_NAME)).
  2: { intros H. apply in_app_or in H as [H|H].
       - exact (spaces_not_In 61 lead eq_refl Hl H).
       - apply (COOKIE_NAME_plain 61); [right; right; now left|exact H]. }
  rewrite (split_no_sep 61 token H61). reflexivity.
Qed.

(** X18. The session cookie made at login is recognised: for a
    non-empty secret and non-empty data without dot, semicolon or equals
    sign, a cookie header that carries [auth_session=] followed by the
    signed token - after other cookies and white space, if any - gives
    the data back as [verifiedData]. *)
Theorem session_cookie_verified key data token others lead :
  truthy key = true -> truthy data = true ->
  ~ In 46 data -> ~ In 59 data -> ~ In 61 data ->
  createSignedToken key data = Returns token ->
  Forall other_cookie others -> forallb is_space lead = true ->
  authMiddleware_verifiedData key (Some (cookie_header others lead token))
  = Returns (Some data).
Proof.
  intros Hk Hd H46 H59 H61 Ht Ho Hl.
  unfold createSignedToken in Ht. rewrite Hk, Hd in Ht. cbn [negb orb] in Ht.
  injection Ht as <-.
  assert (Hsig : forall c, c = 59 \/ c = 61 ->
                   ~ In c (flat_map byte_hex (hmac_sha256 key data))).
  { intros c Hc H. apply in_flat_map in H as [b [Hb Hin]].
    pose proof (hmac_sha256_bytes key data) as Hr.
    rewrite Forall_forall in Hr. specialize (Hr b Hb). cbv beta in Hr.
    unfold byte_hex in Hin. cbv zeta in Hin.
    destruct Hin as [H|[H|[]]]; revert H; case_if; lia. }
  rewrite session_token_extracted; [|assumption..| |].
  - now apply verifySignedToken_signed.
  - intros H. apply in_app_or in H as [H|[H|H]];
      [exact (H59 H)|discriminate H|exact (Hsig 59 (or_introl eq_refl) H)].
  - intros H. apply in_app_or in H as [H|[H|H]];
      [exact (H61 H)|discriminate H|exact (Hsig 61 (or_intror eq_refl) H)].
Qed.

(** X19. A session cookie whose value is a dot followed by a text
    without dot, semicolon or equals sign makes [authMiddleware] throw
    instead of answering that the session is not valid: the exception of
    [createSignedToken] on the empty data goes through
    [verifySignedToken] and [authMiddleware], which catch nothing. *)
Theorem session_cookie_throws key sig others lead :
  truthy key = true ->
  ~ In 46 sig -> ~ In 59 sig -> ~ In 61 sig ->
  Forall other_cookie others -> forallb is_space lead = true ->
  authMiddleware_verifiedData key (Some (cookie_header others lead (46 :: sig)))
  = ThrowsError.
Proof.
  intros Hk H46 H59 H61 Ho Hl.
  rewrite session_token_extracted; [|assumption..| |].
  - now apply verifySignedToken_empty_data.
  - intros [H|H]; [discriminate H|exact (H59 H)].
  - intros [H|H]; [discriminate H|exact (H61 H)].
Qed.

End SessionCookie.

(** ** The [subscription-userinfo] header *)










(** * Examples and counterexamples *)

(** A stand-in for the signature, to run the token functions: the bytes
    of the key and of the data, each reduced to a byte.  It is no MAC;
    the properties of the tokens hold for any function to bytes. *)
Module ExampleCrypto.

Definition bytes_of (key data : jsstring) : list Z :=
  map (fun c => c mod 256) (key ++ data).

Lemma bytes_of_range key data :
  Forall (fun b => 0 <= b <= 255) (bytes_of key data).
Proof.
  unfold bytes_of. apply Forall_forall. intros b Hb.
  apply in_map_iff in Hb as [c [<- _]]. lia.
Qed.

Definition impl : Crypto := {|
  hmac_sha256 := bytes_of;
  hmac_sha256_bytes := bytes_of_range
|}.

End ExampleCrypto.

(** Evaluates a membership in a list of code units to a disjunction and
    refutes it. *)
Ltac not_in :=
  let H := fresh in
  intros H; vm_compute in H;
  repeat (destruct H as [H|H]; [discriminate H|]); exact H.

Section Runs.

#[local] Existing Instance RefJSON.impl.
#[local] Existing Instance LiteralRegExp.impl.
#[local] Existing Instance ExampleNetwork.impl.
#[local] Existing Instance ExampleCrypto.impl.

Import Examples.

(** The output of the example run, with source names prefixed. *)
Definition example_output : jsstring :=
  Eval vm_compute in
    match generateCombinedNodeList (config true) userAgent misubs [] with
    | Ok out => out
    | Throw _ => []
    end.

(** Witness of C10. *)
Lemma output_lines_witness :
  generateCombinedNodeList (config true) userAgent misubs [] = Ok example_output
  /\ exists lines,
       example_output = join NL lines
       /\ Forall (fun l => l <> [] /\ trim l = l) lines
       /\ (lines <> [] -> split NL example_output = lines).
Proof.
  split; [vm_compute; reflexivity|].
  apply (output_lines_trimmed_nonempty (config true) userAgent misubs).
  vm_compute; reflexivity.
Defined.

(** Witness of C4: the subscription that answers with an error status. *)
Lemma failed_source_witness :
  processSub (config true) userAgent sub_down = Ok []
  /\ generateCombinedNodeList (config true) userAgent
       ([sub_a; sub_manual] ++ sub_down :: [sub_b]) []
     = generateCombinedNodeList (config true) userAgent
         ([sub_a; sub_manual] ++ [sub_b]) [].
Proof.
  apply (failed_source_contributes_nothing (config true) userAgent
           [sub_a; sub_manual] sub_down [sub_b] []).
  - reflexivity.
  - right. exists (lit "Bad Gateway"). reflexivity.
Defined.

(** Witness of C2. *)
Lemma merged_lines_witness :
  exists manual contents,
    processedManualNodes (config true) misubs = Ok manual
    /\ mapM (processSub (config true) userAgent) (httpSubs misubs) = Ok contents
    /\ let u := unique (all_lines manual contents) in
       example_output = (if truthy (@nil code_unit) then [] ++ NL :: join NL u
                         else join NL u)
       /\ NoDup u
       /\ (forall x, In x u <-> In x (all_lines manual contents))
       /\ u = first_occurrences (all_lines manual contents).
Proof.
  apply (merged_lines_unique_first_seen (config true) userAgent misubs []).
  vm_compute; reflexivity.
Defined.

(** Counterexample to C2 as stated: a manual node equal to the summary
    node appears twice in the output. *)
Lemma summary_line_duplicated :
  exists out,
    generateCombinedNodeList (config false) userAgent
      [sub summary_node [] []] summary_node = Ok out
    /\ ~ NoDup (split NL out).
Proof.
  exists (summary_node ++ NL :: summary_node).
  split; [vm_compute; reflexivity|].
  rewrite split_app.
  assert (Hs : split NL summary_node = [summary_node])
    by (vm_compute; reflexivity).
  rewrite Hs. cbn [app]. intros H.
  apply NoDup_cons_iff in H as [H _]. apply H. now left.
Qed.

(** Witness of C3: the token is right and the profile is disabled. *)
Lemma profile_scope_witness :
  pathSegments (lit "/sub/profiles/work") = [lit "profiles"; lit "work"]
  /\ handleMisubRequest_scope (config true) misubs [profile_work]
       (lit "/sub/profiles/work") None = Rejected 404.
Proof.
  split; [reflexivity|].
  apply (profile_scope_403_404 (config true) misubs [profile_work]
           (lit "/sub/profiles/work") None (lit "profiles") (lit "work") []).
  - reflexivity.
  - reflexivity.
  - right. exists profile_work. split; reflexivity.
Defined.

(** Witness of C7. *)
Lemma deny_list_witness :
  applyExclude (lit "proto:ss,ssr" ++ [NL] ++ lit "jp")
    [lit "ss://YWJj@h1:1#HK"; lit "vless://u@h2:2#US"; lit "trojan://p@h3:3#JP"]
  = Ok [lit "vless://u@h2:2#US"].
Proof.
  refine (eq_trans
            (proj1 (deny_list_filter
                      (lit "proto:ss,ssr" ++ [NL] ++ lit "jp")
                      [lit "ss://YWJj@h1:1#HK"; lit "vless://u@h2:2#US";
                       lit "trojan://p@h3:3#JP"]
                      (Some [lit "jp"]) _ _ _ _)) _).
  - repeat constructor.
  - discriminate.
  - repeat constructor.
  - reflexivity.
  - vm_compute; reflexivity.
Defined.

(** Counterexample to C7 as stated: with the rule ["("] the pattern does
    not compile, the filter throws, and the subscription contributes
    nothing, although the scheme of its lines is not excluded and they
    carry no name. *)
Lemma invalid_pattern_drops_lines :
  applyExclude (lit "(") [lit "vless://u@h4:4"; lit "ss://YWJj@h5:5"]
  = Throw SyntaxError
  /\ processSub (config false) userAgent (sub ExampleNetwork.url_c [] (lit "("))
     = Ok [].
Proof. split; vm_compute; reflexivity. Qed.

(** Witness of C1. *)
Lemma allow_list_witness :
  applyExclude (lit "keep:proto:trojan" ++ [NL] ++ lit "keep:us")
    [lit "ss://YWJj@h1:1#HK"; lit "vless://u@h2:2#US"; lit "trojan://p@h3:3#JP"]
  = Ok [lit "vless://u@h2:2#US"; lit "trojan://p@h3:3#JP"].
Proof.
  refine (eq_trans
            (proj1 (allow_list_filter
                      (lit "keep:proto:trojan" ++ [NL] ++ lit "keep:us")
                      [lit "ss://YWJj@h1:1#HK"; lit "vless://u@h2:2#US";
                       lit "trojan://p@h3:3#JP"] _ _ _)
                   (Some [lit "us"]) _) _).
  - repeat constructor.
  - discriminate.
  - discriminate.
  - reflexivity.
  - vm_compute; reflexivity.
Defined.

(** The filter as C1 states it: every rule counts, a leading [keep:] is
    stripped to classify the rule, the rules that are not protocol rules
    are OR-joined into the name regex. *)
Definition claimed_content (rule : jsstring) : jsstring :=
  if is_keep_rule rule then keep_content rule else rule.

Definition claimed_allow_list (exclude : jsstring) (validNodes : list jsstring)
  : result (list jsstring) :=
  let contents := map claimed_content (rules_of exclude) in
  nameRegex <- compile_names (filter (fun c => negb (is_proto_rule c)) contents) ;;
  Ok (filter (allow_kept (flat_map protocols_of (filter is_proto_rule contents))
                         nameRegex)
             validNodes).

(** Counterexample to C1 as stated: a rule without [keep:] is ignored in
    allow-list mode, so a line whose name it matches is dropped; and a
    [keep:] rule that does not compile makes the filter throw, so a line
    of a kept scheme is dropped too. *)
Lemma allow_list_ignores_plain_rules :
  (applyExclude (lit "keep:proto:ss" ++ [NL] ++ lit "foo")
     [lit "vless://u@h2:2#foo"] = Ok []
   /\ claimed_allow_list (lit "keep:proto:ss" ++ [NL] ++ lit "foo")
        [lit "vless://u@h2:2#foo"] = Ok [lit "vless://u@h2:2#foo"])
  /\ applyExclude (lit "keep:proto:ss" ++ [NL] ++ lit "keep:(")
       [lit "ss://YWJj@h5:5"] = Throw SyntaxError.
Proof. repeat split; vm_compute; reflexivity. Qed.

(** C6 on the pipeline: with a manual node whose fragment is not valid
    percent-encoding, the whole aggregation throws. *)
Lemma manual_node_aborts_aggregation :
  generateCombinedNodeList (config true) userAgent
    [sub_a; sub (lit "ss://abc#%") [] []] [] = Throw URIError.
Proof. vm_compute; reflexivity. Qed.

(** Witness of C9: the reference [JSON] satisfies the three laws, and a
    vmess link is normalised to a fixed point. *)
Lemma normalizeVmessLink_witness :
  (exists y, normalizeVmessLink vmess_link = Ok y
             /\ normalizeVmessLink y = Ok y)
  /\ (startsWith VMESS vmess_link = false ->
      normalizeVmessLink vmess_link = Ok vmess_link).
Proof.
  exact (normalizeVmessLink_idempotent
           RefJSONFacts.parse_wf RefJSONFacts.stringify_no_bom
           RefJSONFacts.reference_reparse vmess_link).
Defined.

(** Witness of C8: the same link, prefixed twice with [Air]. *)
Lemma prependNodeName_witness :
  truthy (lit "Air") = true
  /\ str_ok (lit "Air")
  /\ (r <- prependNodeName vmess_link (lit "Air") ;;
      prependNodeName r (lit "Air"))
     = prependNodeName vmess_link (lit "Air").
Proof.
  split; [reflexivity|]. split; [reflexivity|].
  apply (prependNodeName_idempotent (J := RefJSON.impl)
           RefJSONFacts.parse_wf RefJSONFacts.stringify_no_bom
           RefJSONFacts.reference_reparse vmess_link (lit "Air"));
    reflexivity.
Defined.

(** Witness of X2. *)
Lemma fragment_named_witness :
  prependNodeName (lit "ss://abc#HK") (lit "Air")
  = Ok (lit "ss://abc#Air%20-%20HK")
  /\ exists name,
       fragment_name (lit "ss://abc#Air%20-%20HK") = Some name
       /\ startsWith (lit "Air") name = true.
Proof.
  split; [vm_compute; reflexivity|].
  apply (prependNodeName_fragment_named (lit "ss://abc#HK") (lit "Air"));
    vm_compute; reflexivity.
Defined.

(** Witness of X3. *)
Lemma applyExclude_sublist_witness :
  applyExclude (lit "proto:ss")
    [lit "ss://YWJj@h1:1#HK"; lit "vless://u@h2:2#US"]
  = Ok [lit "vless://u@h2:2#US"]
  /\ (exists keep,
        [lit "vless://u@h2:2#US"]
        = filter keep [lit "ss://YWJj@h1:1#HK"; lit "vless://u@h2:2#US"])
  /\ (trim (lit "proto:ss") = [] ->
      [lit "vless://u@h2:2#US"]
      = [lit "ss://YWJj@h1:1#HK"; lit "vless://u@h2:2#US"]).
Proof.
  split; [vm_compute; reflexivity|].
  apply (applyExclude_sublist (lit "proto:ss")).
  vm_compute; reflexivity.
Defined.

(** Witness of X4: the example run. *)
Lemma output_lines_accepted_witness :
  generateCombinedNodeList (config true) userAgent misubs [] = Ok example_output
  /\ exists lines,
       Forall (fun l => nodeRegex_test l = true) lines
       /\ example_output = join NL lines
       /\ (lines <> [] -> split NL (join NL lines) = lines).
Proof.
  split; [vm_compute; reflexivity|].
  apply (output_lines_accepted (config true) userAgent misubs []).
  vm_compute; reflexivity.
Defined.

(** Witness of X5. *)
Lemma node_line_preserved_witness :
  nodeRegex_test (lit "ss://abc#HK") = true
  /\ ~ In NL (lit "ss://abc#HK")
  /\ nodeRegex_test (lit "ss://abc#Air%20-%20HK") = true
  /\ ~ In NL (lit "ss://abc#Air%20-%20HK").
Proof.
  split; [reflexivity|]. split; [not_in|].
  apply (node_line_preserved (lit "ss://abc#HK") (lit "Air")).
  - reflexivity.
  - not_in.
  - right. vm_compute; reflexivity.
Defined.

(** Witness of X6: the vmess link of the examples, renamed inside its
    configuration. *)
Lemma vmess_named_witness :
  exists r,
    prependNodeName vmess_link (lit "Air") = Ok r
    /\ startsWith VMESS r = true
    /\ ((exists v, decode_config r = Ok v /\ named (lit "Air") v)
        \/ (exists name, fragment_name r = Some name
                         /\ startsWith (lit "Air") name = true)).
Proof.
  eexists. split; [vm_compute; reflexivity|].
  apply (prependNodeName_vmess_named (J := RefJSON.impl)
           RefJSONFacts.parse_wf RefJSONFacts.stringify_no_bom
           RefJSONFacts.reference_reparse vmess_link (lit "Air"));
    vm_compute; reflexivity.
Defined.

(** Witness of X8: the example run without name prefixes. *)
Lemma aggregation_returns_witness :
  prependSubName (config false) = false
  /\ exists out,
       generateCombinedNodeList (config false) userAgent misubs [] = Ok out.
Proof.
  split; [reflexivity|].
  apply (generateCombinedNodeList_returns (config false) userAgent misubs []).
  left. reflexivity.
Defined.

(** Witness of X9. *)
Lemma manual_node_error_witness :
  decodeURIComponent (substring_from (8 + 1) (trim (lit "ss://abc#%")))
  = Throw URIError
  /\ generateCombinedNodeList (config true) userAgent
       [sub_a; sub (lit "ss://abc#%") [] []] [] = Throw URIError.
Proof.
  split; [vm_compute; reflexivity|].
  apply (manual_node_error_aborts (config true) userAgent
           [sub_a; sub (lit "ss://abc#%") [] []] []
           (sub (lit "ss://abc#%") [] []) 8%nat URIError).
  - reflexivity.
  - right. left. reflexivity.
  - vm_compute; reflexivity.
  - not_in.
  - vm_compute; reflexivity.
  - vm_compute; reflexivity.
  - vm_compute; reflexivity.
  - vm_compute; reflexivity.
Defined.

(** Witnesses of X10 and X11: the main token in the path. *)
Lemma resolved_scope_authorized_witness :
  handleMisubRequest_scope (config true) misubs [] (lit "/sub/auto") None
  = Resolved misubs (lit "MiSub") (lit "url.v1.mk") []
  /\ match pathSegments (lit "/sub/auto") with
     | token :: _ :: _ => token = profileToken (config true)
     | [token] => token = mytoken (config true)
     | [] => @None jsstring = Some (mytoken (config true))
     end.
Proof.
  split; [vm_compute; reflexivity|].
  apply (resolved_scope_authorized (config true) misubs []
           (lit "/sub/auto") None misubs (lit "MiSub") (lit "url.v1.mk") []).
  vm_compute; reflexivity.
Defined.

Lemma resolved_scope_enabled_witness :
  handleMisubRequest_scope (config true) misubs [] (lit "/sub/auto") None
  = Resolved misubs (lit "MiSub") (lit "url.v1.mk") []
  /\ Forall (fun s => sub_enabled s = true) misubs
  /\ (exists keep, misubs = filter keep misubs)
  /\ trim (lit "url.v1.mk") <> [].
Proof.
  split; [vm_compute; reflexivity|].
  apply (resolved_scope_enabled_only (config true) misubs []
           (lit "/sub/auto") None misubs (lit "MiSub") (lit "url.v1.mk") []).
  vm_compute; reflexivity.
Defined.

(** Witness of X14: the output of the example run, encoded and read
    back. *)
Lemma base64Content_witness :
  (forall t, example_output <> 65279 :: t)
  /\ ((exists b, base64Content example_output = Ok b)
      \/ (base64Content example_output = Throw URIError
          /\ encodeURIComponent example_output = Throw URIError))
  /\ (forall b, base64Content example_output = Ok b ->
                (20 < length b)%nat ->
                decodeBody b = Ok example_output).
Proof.
  assert (H : forall t, example_output <> 65279 :: t)
    by (intros t; discriminate).
  split; [exact H|].
  apply (base64Content_round_trip example_output H).
Defined.

(** Witness of X15: a profile identifier with a dot in it. *)
Lemma dotted_path_witness :
  truthy (lit "profile") = true
  /\ forallb is_word (lit "profile") = true
  /\ onRequest_route None (lit "/sub/profiles/my" ++ 46 :: lit "profile")
     <> MisubRequest.
Proof.
  split; [reflexivity|]. split; [reflexivity|].
  apply (dotted_path_not_served None (lit "/sub/profiles/my") (lit "profile"));
    reflexivity.
Defined.

(** Witness of X16. *)
Lemma signed_token_witness :
  truthy (lit "secret") = true
  /\ truthy (lit "1700000000000") = true
  /\ exists token,
       createSignedToken (C := ExampleCrypto.impl)
         (lit "secret") (lit "1700000000000") = Returns token
       /\ (~ In 46 (lit "1700000000000") ->
           verifySignedToken (lit "secret") token
           = Returns (Some (lit "1700000000000")))
       /\ (In 46 (lit "1700000000000") ->
           verifySignedToken (lit "secret") token = Returns None).
Proof.
  split; [reflexivity|]. split; [reflexivity|].
  apply (verifySignedToken_createSignedToken (C := ExampleCrypto.impl)
           (lit "secret") (lit "1700000000000")); reflexivity.
Defined.

(** Witness of X18: the cookie of a session, after another cookie. *)
Lemma session_cookie_witness :
  exists token,
    createSignedToken (lit "secret") (lit "1700000000000") = Returns token
    /\ authMiddleware_verifiedData (lit "secret")
         (Some (cookie_header [lit "theme=dark"] [32] token))
       = Returns (Some (lit "1700000000000")).
Proof.
  eexists. split; [vm_compute; reflexivity|].
  apply (session_cookie_verified (C := ExampleCrypto.impl)
           (lit "secret") (lit "1700000000000")).
  - reflexivity.
  - reflexivity.
  - not_in.
  - not_in.
  - not_in.
  - vm_compute; reflexivity.
  - constructor; [|constructor]. split; [not_in|vm_compute; reflexivity].
  - reflexivity.
Defined.

(** Witness of X19: the cookie [auth_session=.00]. *)
Lemma session_cookie_throws_witness :
  cookie_header [] [] (46 :: lit "00") = lit "auth_session=.00"
  /\ authMiddleware_verifiedData (C := ExampleCrypto.impl) (lit "secret")
       (Some (lit "auth_session=.00"))
     = ThrowsError.
Proof.
  split; [reflexivity|].
  apply (session_cookie_throws (C := ExampleCrypto.impl)
           (lit "secret") (lit "00") [] []).
  - reflexivity.
  - not_in.
  - not_in.
  - not_in.
  - constructor.
  - reflexivity.
Defined.


End Runs.
